(** * Age-structured harvesting simulation: batch and real-time drivers

    A shallow embedding of the simulation engine of [harvesting.py]
    (the batch projection [run_simulation]) and of
    [realtime_simulation.py] (the class [SimulationState] with its
    methods [reset] and [step]), followed by the properties the
    specification states about them.

    Both scripts compute on numpy [float64] values.  The engine is written
    once over an arithmetic interface [Arith] and read at two carriers:

    - [float], the kernel's binary64 numbers, on which the code is executed
      literally (same operations, same order, same rounding);
    - [Q], exact rationals, the real-valued reading of the specification's
      data model.

    The claims about the structure of the drivers are proved at every
    carrier; the concrete scenarios and the order laws are proved at both,
    the binary64 ones from the specification of the kernel's floats
    ([FloatAxioms], over [SpecFloat]).

    The callbacks of the two windows are embedded as well: the timer
    callback [animate], the buttons [toggle_play] and [reset_sim], the
    x-axis window of [update_plot], and the controls ([submit_text] and
    [change_mode] of each script, on the three sliders and the mode
    selector).  The last part of the file proves how they behave in
    sessions, and when the numbers they hand to the engine keep the
    population finite and non-negative. *)

From Stdlib Require Import Floats SpecFloat ZArith QArith Qminmax Lqa Lia String.
From stdpp Require Import base list.

Set Warnings "-inexact-float".

(** ** Arithmetic the scripts rely on *)

(** The operations the two scripts apply to their numbers: the literals
    [0] and [1], [+], [-], [*], the comparison [>] (inside Python's [max])
    and [np.sum] over an array of three numbers.  [np.sum] is numpy's and
    not part of the repository, so its order of accumulation is left to the
    carrier. *)
Class Arith (num : Type) : Type := {
  zero : num;
  one : num;
  add : num -> num -> num;
  sub : num -> num -> num;
  mul : num -> num -> num;
  gtb : num -> num -> bool;
  sum3 : num -> num -> num -> num
}.

(** Python's builtin [max(a, b)]: [b] when [b > a], and [a] otherwise. *)
Definition py_max {num} `{Arith num} (a b : num) : num :=
  if gtb b a then b else a.

(** A numpy array of shape (3,). *)
Record array3 (num : Type) : Type := Array3 { ix0 : num; ix1 : num; ix2 : num }.
Arguments Array3 {num} _ _ _.
Arguments ix0 {num} _.
Arguments ix1 {num} _.
Arguments ix2 {num} _.

Section Numpy.
Context {num : Type} `{Arith num}.

(** [np.zeros(3)] *)
Definition np_zeros3 : array3 num := Array3 zero zero zero.

(** [arr * k], an array times a scalar *)
Definition np_scale (arr : array3 num) (k : num) : array3 num :=
  Array3 (mul (ix0 arr) k) (mul (ix1 arr) k) (mul (ix2 arr) k).

(** [np.sum(arr)] *)
Definition np_sum (arr : array3 num) : num :=
  sum3 (ix0 arr) (ix1 arr) (ix2 arr).
End Numpy.

(** ** Configuration

    Section 1 of both scripts: the same module-level constants. *)
Class BioParams (num : Type) : Type := {
  INITIAL_POP : array3 num;
  F_J : num;
  F_S : num;
  F_A : num;
  S_J_to_S : num;
  S_S_to_A : num;
  S_A_surv : num
}.

(** [YEARS = 50] in [harvesting.py] *)
Definition YEARS : nat := 50.

(** The three labels of the radio buttons. *)
Definition CONSTANT_QUOTA : string := "Constant Quota".
Definition PROPORTIONAL : string := "Proportional (Uniform)".
Definition SELECTIVE : string := "Selective (Age-Specific)".

Definition MODES : list string := [CONSTANT_QUOTA; PROPORTIONAL; SELECTIVE].

(** What a Python call does: it returns a value or it raises. *)
Inductive outcome (A : Type) : Type :=
  | Returns (a : A)
  | Raises (exc : string).
Arguments Returns {A} _.
Arguments Raises {A} _.

Definition raised {A : Type} (o : outcome A) : bool :=
  match o with
  | Returns _ => false
  | Raises _ => true
  end.

(** ** harvesting.py *)
Module Harvesting.
Section Engine.
Context {num : Type} `{Arith num} `{BioParams num}.

(** Lines 21-35: [survivors = np.zeros(3)] and the [if]/[elif] chain on
    [mode].  The chain has no [else]: for any other string no branch
    assigns, and [survivors] is still the array of zeros. *)
Definition survivors (mode : string) (current_pop : array3 num)
    (val_j val_s val_a : num) : array3 num :=
  if String.eqb mode "Constant Quota" then
    Array3 (py_max zero (sub (ix0 current_pop) val_j))
           (py_max zero (sub (ix1 current_pop) val_s))
           (py_max zero (sub (ix2 current_pop) val_a))
  else if String.eqb mode "Proportional (Uniform)" then
    let global_rate := val_j in
    np_scale current_pop (sub one global_rate)
  else if String.eqb mode "Selective (Age-Specific)" then
    Array3 (mul (ix0 current_pop) (sub one val_j))
           (mul (ix1 current_pop) (sub one val_s))
           (mul (ix2 current_pop) (sub one val_a))
  else np_zeros3.

(** Lines 21-41: one pass through the body of the loop, from
    [current_pop] to the array assigned to [current_pop]. *)
Definition next_pop (mode : string) (current_pop : array3 num)
    (val_j val_s val_a : num) : array3 num :=
  let survivors := survivors mode current_pop val_j val_s val_a in
  let next_j := add (add (mul (ix0 survivors) F_J) (mul (ix1 survivors) F_S))
                    (mul (ix2 survivors) F_A) in
  let next_s := mul (ix0 survivors) S_J_to_S in
  let next_a := add (mul (ix1 survivors) S_S_to_A) (mul (ix2 survivors) S_A_surv) in
  Array3 next_j next_s next_a.

(** The loop [for t in range(n)] on the pair ([current_pop], [history]);
    [history[t+1] = current_pop] writes row [t+1] of the array. *)
Definition loop (val_j val_s val_a : num) (mode : string) (n : nat)
    (start : array3 num * list (array3 num)) : array3 num * list (array3 num) :=
  foldl (fun '(current_pop, history) t =>
           let current_pop := next_pop mode current_pop val_j val_s val_a in
           (current_pop, <[S t := current_pop]> history))
        start (seq 0 n).

(** [run_simulation(val_j, val_s, val_a, mode)]: the rows of the
    [(YEARS + 1, 3)] array it returns.  Every row index the loop writes,
    [t + 1] for [t < YEARS], is inside the array. *)
Definition run_simulation (val_j val_s val_a : num) (mode : string)
    : list (array3 num) :=
  let history := replicate (YEARS + 1) np_zeros3 in
  let history := <[0%nat := INITIAL_POP]> history in
  let current_pop := INITIAL_POP in
  snd (loop val_j val_s val_a mode YEARS (current_pop, history)).

(** The function has no [raise], and every operation it applies to its
    [float64] operands is total: a call returns. *)
Definition call_run_simulation (val_j val_s val_a : num) (mode : string)
    : outcome (list (array3 num)) :=
  Returns (run_simulation val_j val_s val_a mode).

(** [np.sum(data, axis=1)], the dashed 'Total' line drawn from the result. *)
Definition totals (data : list (array3 num)) : list num := map np_sum data.
End Engine.
End Harvesting.

(** ** realtime_simulation.py *)
Module Realtime.
Section Engine.
Context {num : Type} `{Arith num} `{BioParams num}.

(** The attributes of a [SimulationState] object. *)
Record SimulationState : Type := {
  current_pop : array3 num;
  history_j : list num;
  history_s : list num;
  history_a : list num;
  history_tot : list num;
  time : list nat;
  is_running : bool;
  year_counter : nat
}.

(** [SimulationState.reset(self)]: every attribute is assigned anew. *)
Definition reset (self : SimulationState) : SimulationState :=
  {| current_pop := INITIAL_POP;
     history_j := [ix0 INITIAL_POP];
     history_s := [ix1 INITIAL_POP];
     history_a := [ix2 INITIAL_POP];
     history_tot := [np_sum INITIAL_POP];
     time := [0%nat];
     is_running := false;
     year_counter := 0 |}.

(** Lines 31-46 of [step]. *)
Definition survivors (mode : string) (current : array3 num)
    (val_j val_s val_a : num) : array3 num :=
  if String.eqb mode "Constant Quota" then
    Array3 (py_max zero (sub (ix0 current) val_j))
           (py_max zero (sub (ix1 current) val_s))
           (py_max zero (sub (ix2 current) val_a))
  else if String.eqb mode "Proportional (Uniform)" then
    let global_rate := val_j in
    np_scale current (sub one global_rate)
  else if String.eqb mode "Selective (Age-Specific)" then
    Array3 (mul (ix0 current) (sub one val_j))
           (mul (ix1 current) (sub one val_s))
           (mul (ix2 current) (sub one val_a))
  else np_zeros3.

(** [SimulationState.step(self, val_j, val_s, val_a, mode)] *)
Definition step (self : SimulationState) (val_j val_s val_a : num)
    (mode : string) : SimulationState :=
  let current := current_pop self in
  let survivors := survivors mode current val_j val_s val_a in
  let next_j := add (add (mul (ix0 survivors) F_J) (mul (ix1 survivors) F_S))
                    (mul (ix2 survivors) F_A) in
  let next_s := mul (ix0 survivors) S_J_to_S in
  let next_a := add (mul (ix1 survivors) S_S_to_A) (mul (ix2 survivors) S_A_surv) in
  let current_pop' := Array3 next_j next_s next_a in
  let year_counter' := (year_counter self + 1)%nat in
  {| current_pop := current_pop';
     history_j := history_j self ++ [next_j];
     history_s := history_s self ++ [next_s];
     history_a := history_a self ++ [next_a];
     history_tot := history_tot self ++ [np_sum current_pop'];
     time := time self ++ [year_counter'];
     is_running := is_running self;
     year_counter := year_counter' |}.

(** As for [run_simulation]: [step] has no [raise]. *)
Definition call_step (self : SimulationState) (val_j val_s val_a : num)
    (mode : string) : outcome SimulationState :=
  Returns (step self val_j val_s val_a mode).

(** [SimulationState()]: [__init__] only calls [reset]. *)
Definition init : SimulationState :=
  reset {| current_pop := INITIAL_POP; history_j := []; history_s := [];
           history_a := []; history_tot := []; time := [];
           is_running := false; year_counter := 0 |}.

(** [toggle_play]: [sim_state.is_running = not sim_state.is_running] *)
Definition toggle_play (self : SimulationState) : SimulationState :=
  {| current_pop := current_pop self;
     history_j := history_j self;
     history_s := history_s self;
     history_a := history_a self;
     history_tot := history_tot self;
     time := time self;
     is_running := negb (is_running self);
     year_counter := year_counter self |}.

(** The inputs of one call of [step]. *)
Record tick : Type := Tick {
  tick_j : num; tick_s : num; tick_a : num; tick_mode : string
}.

Definition step_tick (self : SimulationState) (k : tick) : SimulationState :=
  step self (tick_j k) (tick_s k) (tick_a k) (tick_mode k).

(** Successive calls of [step], one per element of [ks]. *)
Definition steps (self : SimulationState) (ks : list tick) : SimulationState :=
  foldl step_tick self ks.

(** The history as the plot reads it: entry [t] pairs [time[t]] with
    the three stage values recorded at the same position. *)
Definition entry (self : SimulationState) (t : nat) : option (nat * array3 num) :=
  match time self !! t, history_j self !! t, history_s self !! t,
        history_a self !! t with
  | Some y, Some j, Some s, Some a => Some (y, Array3 j s a)
  | _, _, _, _ => None
  end.
End Engine.
Arguments SimulationState num : clear implicits.
Arguments tick num : clear implicits.
End Realtime.

(** ** The two carriers *)

(** numpy's [float64]. *)
#[export] Instance float_arith : Arith float := {|
  zero := 0%float;
  one := 1%float;
  add := PrimFloat.add;
  sub := PrimFloat.sub;
  mul := PrimFloat.mul;
  gtb := fun x y => PrimFloat.ltb y x;
  sum3 := fun a b c => PrimFloat.add (PrimFloat.add a b) c
|}.

#[export] Instance float_params : BioParams float := {|
  INITIAL_POP := Array3 1000.0%float 500.0%float 200.0%float;
  F_J := 0.0%float;
  F_S := 0.8%float;
  F_A := 2.5%float;
  S_J_to_S := 0.5%float;
  S_S_to_A := 0.7%float;
  S_A_surv := 0.8%float
|}.

(** Exact rational arithmetic. *)
#[export] Instance Q_arith : Arith Q := {|
  zero := 0%Q;
  one := 1%Q;
  add := Qplus;
  sub := Qminus;
  mul := Qmult;
  gtb := fun x y => negb (Qle_bool x y);
  sum3 := fun a b c => (a + b + c)%Q
|}.

#[export] Instance Q_params : BioParams Q := {|
  INITIAL_POP := Array3 1000.0%Q 500.0%Q 200.0%Q;
  F_J := 0.0%Q;
  F_S := 0.8%Q;
  F_A := 2.5%Q;
  S_J_to_S := 0.5%Q;
  S_S_to_A := 0.7%Q;
  S_A_surv := 0.8%Q
|}.


(** ** Derived notions: bookkeeping of the incremental driver, trajectories *)
Section Bookkeeping.
Context {num : Type} `{Arith num} `{BioParams num}.

(** The five lists of a state run in parallel: position [t] of each
    belongs to year [t], and there is one position per year so far. *)
Definition aligned (self : Realtime.SimulationState num) : Prop :=
  Realtime.time self = seq 0 (S (Realtime.year_counter self)) /\
  length (Realtime.history_j self) = S (Realtime.year_counter self) /\
  length (Realtime.history_s self) = S (Realtime.year_counter self) /\
  length (Realtime.history_a self) = S (Realtime.year_counter self) /\
  length (Realtime.history_tot self) = S (Realtime.year_counter self).

(** The stored totals are the sums of the stored stage values. *)
Definition totals_derived (self : Realtime.SimulationState num) : Prop :=
  Realtime.history_tot self =
  zip_with (fun j sa => sum3 j (fst sa) (snd sa))
           (Realtime.history_j self)
           (zip (Realtime.history_s self) (Realtime.history_a self)).

(** The population after [n] calls of [step] with the same inputs, from a
    reset. *)
Definition trajectory (val_j val_s val_a : num) (mode : string) (n : nat)
    : array3 num :=
  Nat.iter n (fun p => Harvesting.next_pop mode p val_j val_s val_a) INITIAL_POP.

(** Lines 37-39 of [harvesting.py] and 49-51 of [realtime_simulation.py]:
    the stage transition, as a function of the survivors. *)
Definition progression (survivors : array3 num) : array3 num :=
  Array3 (add (add (mul (ix0 survivors) F_J) (mul (ix1 survivors) F_S))
              (mul (ix2 survivors) F_A))
         (mul (ix0 survivors) S_J_to_S)
         (add (mul (ix1 survivors) S_S_to_A) (mul (ix2 survivors) S_A_surv)).
End Bookkeeping.

(** ** Vocabulary of the specification on the exact carrier *)

(** A stage vector of the data model: three non-negative numbers. *)
Definition nonneg (p : array3 Q) : Prop :=
  (0 <= ix0 p /\ 0 <= ix1 p /\ 0 <= ix2 p)%Q.

(** Harvest parameters in the range of their mode: non-negative counts
    under Constant Quota, rates in [0, 1] under the two rate modes.  A
    string that is no mode makes the code read no parameter. *)
Definition in_range (mode : string) (val_j val_s val_a : Q) : Prop :=
  if String.eqb mode CONSTANT_QUOTA then
    (0 <= val_j /\ 0 <= val_s /\ 0 <= val_a)%Q
  else if String.eqb mode PROPORTIONAL then
    (0 <= val_j <= 1 /\ 0 <= val_s <= 1 /\ 0 <= val_a <= 1)%Q
  else if String.eqb mode SELECTIVE then
    (0 <= val_j <= 1 /\ 0 <= val_s <= 1 /\ 0 <= val_a <= 1)%Q
  else True.

(** Two arrays of rationals hold the same numbers. *)
Definition same_pop (p q : array3 Q) : Prop :=
  (ix0 p == ix0 q /\ ix1 p == ix1 q /\ ix2 p == ix2 q)%Q.


(** ** Vocabulary of the specification on binary64 *)

(** A population count: a finite float64 that is not negative. *)
Definition is_count (x : float) : bool := ((0 <=? x) && (x <? infinity))%float.

(** A harvest rate: a float64 of the interval [0, 1]. *)
Definition is_rate (r : float) : bool := ((0 <=? r) && (r <=? 1))%float.

(** A stage vector of the data model, in float64. *)
Definition float_stage (p : array3 float) : Prop :=
  is_count (ix0 p) = true /\ is_count (ix1 p) = true /\ is_count (ix2 p) = true.

(** Harvest parameters in the range of their mode, in float64. *)
Definition float_in_range (mode : string) (val_j val_s val_a : float) : Prop :=
  if String.eqb mode CONSTANT_QUOTA then
    ((0 <=? val_j) = true /\ (0 <=? val_s) = true /\ (0 <=? val_a) = true)%float
  else if String.eqb mode PROPORTIONAL then
    is_rate val_j = true /\ is_rate val_s = true /\ is_rate val_a = true
  else if String.eqb mode SELECTIVE then
    is_rate val_j = true /\ is_rate val_s = true /\ is_rate val_a = true
  else True.

(** Every component compares [>= 0] (so none is a NaN). *)
Definition float_nonneg (p : array3 float) : Prop :=
  ((0 <=? ix0 p) = true /\ (0 <=? ix1 p) = true /\ (0 <=? ix2 p) = true)%float.

(** Component by component, the two arrays compare [==]. *)
Definition float_eq (p q : array3 float) : Prop :=
  ((ix0 p =? ix0 q) = true /\ (ix1 p =? ix1 q) = true /\
   (ix2 p =? ix2 q) = true)%float.

(** ** Classes of binary64 numbers, on their specification *)

(** The exponent a binary64 number of magnitude [e] is rounded to. *)
Definition fexp64 (e : Z) : Z := Z.max (e - 53) (-1074).

(** The number one. *)
Definition sf_one : spec_float := S754_finite false (2 ^ 52) (-52).

(** A number that is a zero, finite or an infinity, of sign [sx]. *)
Definition sf_signed (sx : bool) (x : spec_float) : Prop :=
  match x with
  | S754_zero s | S754_finite s _ _ | S754_infinity s => s = sx
  | S754_nan => False
  end.

(** Zero (of either sign) or a positive finite number. *)
Definition sf_fin_nonneg (x : spec_float) : Prop :=
  match x with
  | S754_zero _ | S754_finite false _ _ => True
  | _ => False
  end.

(** Zero, a positive finite number or the positive infinity. *)
Definition sf_nonneg (x : spec_float) : Prop :=
  match x with
  | S754_zero _ | S754_finite false _ _ | S754_infinity false => True
  | _ => False
  end.

(** A number of the interval [0, 1]. *)
Definition sf_unit (y : spec_float) : Prop :=
  match y with
  | S754_zero _ => True
  | S754_finite false my ey =>
      (Zpos my < 2 ^ 53 /\ (ey <= -53 \/ (ey = -52 /\ my = (2 ^ 52)%positive)))%Z
  | _ => False
  end.

(** Equal, or two zeros (of any signs). *)
Definition sf_sim (a b : spec_float) : Prop :=
  match a, b with
  | S754_zero _, S754_zero _ => True
  | _, _ => a = b
  end.

(** A truncation record that has shifted out zeros only. *)
Definition shr_exact (mrs : shr_record) : Prop :=
  shr_r mrs = false /\ shr_s mrs = false.

(** What [binary_round_aux] returns for the mantissa [m] it has rounded to
    at exponent [e1]. *)
Definition rounded (m e1 : Z) : spec_float :=
  (if m =? 0 then S754_zero false
   else if m <? 2 ^ 53 then
     if e1 <=? 971 then S754_finite false (Z.to_pos m) e1 else S754_infinity false
   else
     if e1 + 1 <=? 971 then S754_finite false (2 ^ 52)%positive (e1 + 1)
     else S754_infinity false)%Z.

Definition sf_counts (p : array3 float) : Prop :=
  sf_fin_nonneg (Prim2SF (ix0 p)) /\ sf_fin_nonneg (Prim2SF (ix1 p)) /\
  sf_fin_nonneg (Prim2SF (ix2 p)).

Definition sf_sim3 (p q : array3 float) : Prop :=
  sf_sim (Prim2SF (ix0 p)) (Prim2SF (ix0 q)) /\
  sf_sim (Prim2SF (ix1 p)) (Prim2SF (ix1 q)) /\
  sf_sim (Prim2SF (ix2 p)) (Prim2SF (ix2 q)).

(** ** realtime_simulation.py, section 5: the callbacks on [sim_state] *)
Module Monitor.
Section Callbacks.
Context {num : Type} `{Arith num} `{BioParams num}.

(** [animate(i)], the timer callback.  What it reads from the widgets
    ([s1.val], [s2.val], [s3.val], [radio.value_selected]) are arguments;
    the frame number [i] is not used, and [update_plot] only draws. *)
Definition animate (sim_state : Realtime.SimulationState num)
    (s1_val s2_val s3_val : num) (mode : string) : Realtime.SimulationState num :=
  if negb (Realtime.is_running sim_state) then sim_state
  else Realtime.step sim_state s1_val s2_val s3_val mode.

(** [reset_sim(event)] *)
Definition reset_sim (sim_state : Realtime.SimulationState num)
    : Realtime.SimulationState num :=
  Realtime.reset sim_state.

(** The x-axis window [update_plot] sets (lines 144-147). *)
Definition xlim (sim_state : Realtime.SimulationState num) : nat * nat :=
  if (40 <? Realtime.year_counter sim_state)%nat then
    (Realtime.year_counter sim_state - 40, Realtime.year_counter sim_state + 10)%nat
  else (0, 50)%nat.

(** What reaches [sim_state]: a timer tick with the widgets' readings, a
    click on Play/Pause, a click on Reset. *)
Inductive event : Type :=
  | Animate (k : Realtime.tick num)
  | TogglePlay
  | ResetSim.

Definition handle (sim_state : Realtime.SimulationState num) (e : event)
    : Realtime.SimulationState num :=
  match e with
  | Animate k =>
      animate sim_state (Realtime.tick_j k) (Realtime.tick_s k)
              (Realtime.tick_a k) (Realtime.tick_mode k)
  | TogglePlay => Realtime.toggle_play sim_state
  | ResetSim => reset_sim sim_state
  end.

(** The events of a session, in order. *)
Definition run (sim_state : Realtime.SimulationState num) (evs : list event)
    : Realtime.SimulationState num :=
  foldl handle sim_state evs.

(** The run flag and the ticks that have advanced the population since
    the last reset, followed along a session: a tick counts while the flag
    is on, Play/Pause flips the flag, Reset clears both. *)
Definition track (s : bool * list (Realtime.tick num)) (e : event)
    : bool * list (Realtime.tick num) :=
  match e with
  | Animate k => if fst s then (fst s, snd s ++ [k]) else s
  | TogglePlay => (negb (fst s), snd s)
  | ResetSim => (false, [])
  end.

(** Everything a state holds except the run flag. *)
Definition data (sim_state : Realtime.SimulationState num) :=
  (Realtime.current_pop sim_state, Realtime.year_counter sim_state,
   Realtime.time sim_state,
   (Realtime.history_j sim_state, Realtime.history_s sim_state,
    Realtime.history_a sim_state, Realtime.history_tot sim_state)).

(** The tick an event carries, if it is one. *)
Definition carries (k : Realtime.tick num) (e : event) : Prop :=
  match e with Animate k' => k' = k | _ => True end.

End Callbacks.
Arguments event num : clear implicits.
End Monitor.

(** ** The harvest sliders and the mode selector *)

(** [limit = 800] in both [change_mode] functions. *)
Class UiParams (num : Type) : Type := { limit : num }.

#[export] Instance float_ui : UiParams float := {| limit := 800%float |}.
#[export] Instance Q_ui : UiParams Q := {| limit := 800%Q |}.

(** Python's builtin [min(a, b)]: [b] when [b < a], and [a] otherwise. *)
Definition py_min {num} `{Arith num} (a b : num) : num :=
  if gtb a b then b else a.

(** What the scripts use of a matplotlib [Slider]: the attributes [val],
    [valmin] and [valmax]. *)
Record Slider (num : Type) : Type := {
  val : num;
  valmin : num;
  valmax : num
}.
Arguments val {num} _.
Arguments valmin {num} _.
Arguments valmax {num} _.

(** [slider.set_val(v)]: matplotlib's setter stores the number [v] in
    [slider.val] and then calls the observers bound by [on_changed]; the
    observers are modelled where they are bound.  What the setter does
    with a NaN is not settled by the scripts: no property below hands it
    one. *)
Definition set_val {num} (slider : Slider num) (v : num) : Slider num :=
  {| val := v; valmin := valmin slider; valmax := valmax slider |}.

(** [slider.valmax = v] *)
Definition set_valmax {num} (slider : Slider num) (v : num) : Slider num :=
  {| val := val slider; valmin := valmin slider; valmax := v |}.

(** The three harvest sliders and [radio.value_selected]. *)
Record Controls (num : Type) : Type := {
  s1 : Slider num;
  s2 : Slider num;
  s3 : Slider num;
  value_selected : string
}.
Arguments s1 {num} _.
Arguments s2 {num} _.
Arguments s3 {num} _.
Arguments value_selected {num} _.

(** Section 4 of both scripts: [Slider(ax, label, 0.0, 1.0, valinit=0.0)]
    three times, and [RadioButtons(..., active=2)]. *)
Definition initial_controls {num} `{Arith num} : Controls num :=
  let s := {| val := zero; valmin := zero; valmax := one |} in
  {| s1 := s; s2 := s; s3 := s; value_selected := "Selective (Age-Specific)" |}.

(** The slider a text box is bound to: [t1] to [s1], [t2] to [s2], [t3] to
    [s3]. *)
Inductive slot : Type := Slot1 | Slot2 | Slot3.

Definition get_slider {num} (c : Controls num) (i : slot) : Slider num :=
  match i with Slot1 => s1 c | Slot2 => s2 c | Slot3 => s3 c end.

Definition put_slider {num} (c : Controls num) (i : slot) (s : Slider num)
    : Controls num :=
  match i with
  | Slot1 => {| s1 := s; s2 := s2 c; s3 := s3 c; value_selected := value_selected c |}
  | Slot2 => {| s1 := s1 c; s2 := s; s3 := s3 c; value_selected := value_selected c |}
  | Slot3 => {| s1 := s1 c; s2 := s2 c; s3 := s; value_selected := value_selected c |}
  end.

(** What the user does to the controls: submits a text box, whose text
    [float(text)] parses to a number or rejects with [ValueError]; or clicks
    a radio button, which sets [radio.value_selected] to its label and
    calls [change_mode(label)]. *)
Inductive action (num : Type) : Type :=
  | Submit (i : slot) (parsed : outcome num)
  | Click (label : string).
Arguments Submit {num} _ _.
Arguments Click {num} _.

(** ** harvesting.py, section 5: the controls *)
Module HarvestingControls.
Section Logic.
Context {num : Type} `{Arith num} `{BioParams num} `{UiParams num}.

(** [submit_text(text, slider)], lines 151-159; [parsed] is [float(text)]. *)
Definition submit_text (updating_from_slider : bool) (parsed : outcome num)
    (slider : Slider num) : Slider num :=
  if updating_from_slider then slider
  else match parsed with
       | Returns v =>
           let v := if gtb (valmin slider) v then valmin slider else v in
           let v := if gtb v (valmax slider) then valmax slider else v in
           set_val slider v
       | Raises _ => slider
       end.

(** Lines 155-156 alone: the number [submit_text] hands to
    [slider.set_val] when the text parses to [v]. *)
Definition clamped (v : num) (slider : Slider num) : num :=
  let v := if gtb (valmin slider) v then valmin slider else v in
  let v := if gtb v (valmax slider) then valmax slider else v in
  v.

(** [change_mode(label)], lines 169-197, on the sliders. *)
Definition change_mode (label : string) (c : Controls num) : Controls num :=
  let s1 := set_val (s1 c) zero in
  let s2 := set_val (s2 c) zero in
  let s3 := set_val (s3 c) zero in
  if String.eqb label "Constant Quota" then
    {| s1 := set_valmax s1 limit; s2 := set_valmax s2 limit;
       s3 := set_valmax s3 limit; value_selected := value_selected c |}
  else if String.eqb label "Proportional (Uniform)" then
    {| s1 := set_valmax s1 one; s2 := s2; s3 := s3;
       value_selected := value_selected c |}
  else if String.eqb label "Selective (Age-Specific)" then
    {| s1 := set_valmax s1 one; s2 := set_valmax s2 one;
       s3 := set_valmax s3 one; value_selected := value_selected c |}
  else
    {| s1 := s1; s2 := s2; s3 := s3; value_selected := value_selected c |}.

(** [update_simulation(val)], lines 123-149: the array it computes from the
    controls as they are when it is called,
    [run_simulation(s1.val, s2.val, s3.val, radio.value_selected)], and
    hands to the plot lines.  Where it is called is modelled below
    ([set_val_observed], [change_mode_observed]). *)
Definition update_simulation (c : Controls num) : list (array3 num) :=
  Harvesting.run_simulation (val (s1 c)) (val (s2 c)) (val (s3 c))
                            (value_selected c).

(** The sliders and the selected label after one action of the user;
    between two actions [updating_from_slider] is [False].  The observers
    only compute and draw: they change no slider. *)
Definition act (c : Controls num) (a : action num) : Controls num :=
  match a with
  | Submit i parsed => put_slider c i (submit_text false parsed (get_slider c i))
  | Click label =>
      change_mode label
        {| s1 := s1 c; s2 := s2 c; s3 := s3 c; value_selected := label |}
  end.

Definition session (acts : list (action num)) : Controls num :=
  foldl act initial_controls acts.

(** *** The plot

    The window of [harvesting.py]: the controls, and the arrays handed to
    the plot lines so far, oldest first.  The lines start from
    [initial_data] (line 51).  [update_simulation] is bound to [s1], [s2]
    and [s3] by [on_changed] (lines 165-167), so that every
    [slider.set_val] ends with a call of it on the controls as they are at
    that moment; [change_mode] calls it once more as its last statement
    (line 197).  Inside [update_simulation] the text boxes are set, which
    calls [submit_text] with [updating_from_slider] set: it returns at
    once. *)
Definition initial_data : list (array3 num) :=
  Harvesting.run_simulation zero zero zero "Selective (Age-Specific)".

(** [slider.set_val(v)] on the slider of slot [i], with its observer. *)
Definition set_val_observed (w : Controls num * list (list (array3 num)))
    (i : slot) (v : num) : Controls num * list (list (array3 num)) :=
  let c := put_slider (fst w) i (set_val (get_slider (fst w) i) v) in
  (c, snd w ++ [update_simulation c]).

(** [submit_text(text, slider)] on the slider of slot [i], with the
    flag unset. *)
Definition submit_text_observed (parsed : outcome num) (i : slot)
    (w : Controls num * list (list (array3 num)))
    : Controls num * list (list (array3 num)) :=
  match parsed with
  | Returns v => set_val_observed w i (clamped v (get_slider (fst w) i))
  | Raises _ => w
  end.

(** Lines 174-195 of [change_mode]: the ends of the sliders, by label. *)
Definition set_ends (label : string) (c : Controls num) : Controls num :=
  if String.eqb label "Constant Quota" then
    {| s1 := set_valmax (s1 c) limit; s2 := set_valmax (s2 c) limit;
       s3 := set_valmax (s3 c) limit; value_selected := value_selected c |}
  else if String.eqb label "Proportional (Uniform)" then
    {| s1 := set_valmax (s1 c) one; s2 := s2 c; s3 := s3 c;
       value_selected := value_selected c |}
  else if String.eqb label "Selective (Age-Specific)" then
    {| s1 := set_valmax (s1 c) one; s2 := set_valmax (s2 c) one;
       s3 := set_valmax (s3 c) one; value_selected := value_selected c |}
  else c.

(** [change_mode(label)], lines 169-197, statement by statement: the three
    [set_val(0)], each with its observer, then the ends, then
    [update_simulation()]. *)
Definition change_mode_observed (label : string)
    (w : Controls num * list (list (array3 num)))
    : Controls num * list (list (array3 num)) :=
  let w := set_val_observed w Slot1 zero in
  let w := set_val_observed w Slot2 zero in
  let w := set_val_observed w Slot3 zero in
  let c := set_ends label (fst w) in
  (c, snd w ++ [update_simulation c]).

(** One action of the user on the window; a click has set
    [radio.value_selected] to the label when [change_mode] is called. *)
Definition deliver (w : Controls num * list (list (array3 num)))
    (a : action num) : Controls num * list (list (array3 num)) :=
  match a with
  | Submit i parsed => submit_text_observed parsed i w
  | Click label =>
      change_mode_observed label
        ({| s1 := s1 (fst w); s2 := s2 (fst w); s3 := s3 (fst w);
            value_selected := label |}, snd w)
  end.

(** The window after [acts], from program start. *)
Definition window (acts : list (action num))
    : Controls num * list (list (array3 num)) :=
  foldl deliver (initial_controls, [initial_data]) acts.
End Logic.
End HarvestingControls.

(** ** realtime_simulation.py, section 5: the controls *)
Module RealtimeControls.
Section Logic.
Context {num : Type} `{Arith num} `{BioParams num} `{UiParams num}.

(** [submit_text(text, slider)], lines 198-204; [parsed] is [float(text)]. *)
Definition submit_text (updating_from_slider : bool) (parsed : outcome num)
    (slider : Slider num) : Slider num :=
  if updating_from_slider then slider
  else match parsed with
       | Returns v =>
           let v := py_max (valmin slider) (py_min v (valmax slider)) in
           set_val slider v
       | Raises _ => slider
       end.

(** Line 202 alone: the number [submit_text] hands to [slider.set_val]
    when the text parses to [v]. *)
Definition clamped (v : num) (slider : Slider num) : num :=
  py_max (valmin slider) (py_min v (valmax slider)).

(** [change_mode(label)], lines 210-224, on the sliders. *)
Definition change_mode (label : string) (c : Controls num) : Controls num :=
  let s1 := set_val (s1 c) zero in
  let s2 := set_val (s2 c) zero in
  let s3 := set_val (s3 c) zero in
  if String.eqb label "Constant Quota" then
    {| s1 := set_valmax s1 limit; s2 := set_valmax s2 limit;
       s3 := set_valmax s3 limit; value_selected := value_selected c |}
  else if String.eqb label "Proportional (Uniform)" then
    {| s1 := set_valmax s1 one; s2 := s2; s3 := s3;
       value_selected := value_selected c |}
  else if String.eqb label "Selective (Age-Specific)" then
    {| s1 := set_valmax s1 one; s2 := set_valmax s2 one;
       s3 := set_valmax s3 one; value_selected := value_selected c |}
  else
    {| s1 := s1; s2 := s2; s3 := s3; value_selected := value_selected c |}.

Definition act (c : Controls num) (a : action num) : Controls num :=
  match a with
  | Submit i parsed => put_slider c i (submit_text false parsed (get_slider c i))
  | Click label =>
      change_mode label
        {| s1 := s1 c; s2 := s2 c; s3 := s3 c; value_selected := label |}
  end.

Definition session (acts : list (action num)) : Controls num :=
  foldl act initial_controls acts.

(** A tick of the timer: [animate] with the controls' current readings. *)
Definition animate_with (c : Controls num)
    (sim_state : Realtime.SimulationState num) : Realtime.SimulationState num :=
  Monitor.animate sim_state (val (s1 c)) (val (s2 c)) (val (s3 c))
                  (value_selected c).

(** What the event loop delivers to the window, one at a time: the user
    acts on a control, the timer of [FuncAnimation] fires, or one of the
    two buttons is clicked. *)
Inductive input : Type :=
  | Control (a : action num)
  | Timer
  | PlayPause
  | Reset.

(** The callback bound to each, on the controls and [sim_state]. *)
Definition deliver (w : Controls num * Realtime.SimulationState num)
    (i : input) : Controls num * Realtime.SimulationState num :=
  match i with
  | Control a => (act (fst w) a, snd w)
  | Timer => (fst w, animate_with (fst w) (snd w))
  | PlayPause => (fst w, Realtime.toggle_play (snd w))
  | Reset => (fst w, Monitor.reset_sim (snd w))
  end.

(** The window after [inputs], from program start. *)
Definition window (inputs : list input)
    : Controls num * Realtime.SimulationState num :=
  foldl deliver (initial_controls, Realtime.init) inputs.
End Logic.
Arguments input num : clear implicits.
End RealtimeControls.

(** ** Vocabulary for the dynamics and the controls *)

(** A zero, of either sign. *)
Definition sf_zero (x : spec_float) : Prop :=
  match x with S754_zero _ => True | _ => False end.

(** Every stage is empty: each component compares [== 0]. *)
Definition float_extinct (p : array3 float) : Prop :=
  float_eq p (Array3 0 0 0)%float.

(** The same in exact arithmetic. *)
Definition extinct (p : array3 Q) : Prop := same_pop p (Array3 0 0 0)%Q.

(** The inputs of a call of [step] are in the range of its mode, in
    binary64 and in exact arithmetic. *)
Definition float_tick_in_range (k : Realtime.tick float) : Prop :=
  float_in_range (Realtime.tick_mode k) (Realtime.tick_j k) (Realtime.tick_s k)
                 (Realtime.tick_a k).

Definition tick_in_range (k : Realtime.tick Q) : Prop :=
  in_range (Realtime.tick_mode k) (Realtime.tick_j k) (Realtime.tick_s k)
           (Realtime.tick_a k).

(** Component by component, [p] is at most [q]. *)
Definition pop_le (p q : array3 Q) : Prop :=
  (ix0 p <= ix0 q /\ ix1 p <= ix1 q /\ ix2 p <= ix2 q)%Q.

(** [lo <= x <= hi] on float64 (so none of the three is a NaN). *)
Definition float_between (lo x hi : float) : Prop :=
  ((lo <=? x) = true /\ (x <=? hi) = true)%float.

(** Zero, or a positive finite number below [2 ^ k]. *)
Definition sf_below (k : Z) (x : spec_float) : Prop :=
  match x with
  | S754_zero _ => True
  | S754_finite false m e => (Zpos (digits2_pos m) + e <= k)%Z
  | _ => False
  end.

(** A stage vector of zeros and positive finite numbers below [2 ^ k]. *)
Definition float_below (k : Z) (p : array3 float) : Prop :=
  sf_below k (Prim2SF (ix0 p)) /\ sf_below k (Prim2SF (ix1 p)) /\
  sf_below k (Prim2SF (ix2 p)).

(** A slider as both scripts keep it: it starts at 0, ends at 1 or at
    [limit], and holds a value between its two ends. *)
Definition slider_ok (s : Slider float) : Prop :=
  valmin s = 0%float /\ (valmax s = 1%float \/ valmax s = limit) /\
  float_between (valmin s) (val s) (valmax s).

(** The controls as a click on a mode leaves them: the selected label is
    one of the three, and every slider that a rate mode reads ends at 1. *)
Definition controls_ok (c : Controls float) : Prop :=
  slider_ok (s1 c) /\ slider_ok (s2 c) /\ slider_ok (s3 c) /\
  In (value_selected c) MODES /\
  (value_selected c = PROPORTIONAL -> valmax (s1 c) = 1%float) /\
  (value_selected c = SELECTIVE ->
   valmax (s1 c) = 1%float /\ valmax (s2 c) = 1%float /\ valmax (s3 c) = 1%float).

(** A click can only be on one of the three radio buttons. *)
Definition label_ok {num} (a : action num) : Prop :=
  match a with
  | Click label => In label MODES
  | Submit _ _ => True
  end.

(** The text submitted, when it parses, is not a NaN. *)
Definition number_ok (a : action float) : Prop :=
  match a with
  | Submit _ (Returns v) => is_nan v = false
  | _ => True
  end.

(** The same for what the window receives. *)
Definition input_ok {num} (i : RealtimeControls.input num) : Prop :=
  match i with
  | RealtimeControls.Control a => label_ok a
  | _ => True
  end.

(** The ticks of a session carry harvest parameters in the range of their
    mode. *)
Definition float_event_in_range (e : Monitor.event float) : Prop :=
  match e with
  | Monitor.Animate k => float_tick_in_range k
  | _ => True
  end.

Definition event_in_range (e : Monitor.event Q) : Prop :=
  match e with
  | Monitor.Animate k => tick_in_range k
  | _ => True
  end.

(** Every entry the history holds satisfies [P]. *)
Definition entries {num} (P : array3 num -> Prop)
    (self : Realtime.SimulationState num) : Prop :=
  forall (t y : nat) (row : array3 num),
    Realtime.entry self t = Some (y, row) -> P row.

(** ** Properties that hold at every carrier *)
Section Generic.
Context {num : Type} `{Arith num} `{BioParams num}.
Implicit Types (self st : Realtime.SimulationState num).
Implicit Types (k : Realtime.tick num) (ks : list (Realtime.tick num)).
Implicit Types (p : array3 num) (mode : string).

Import Realtime.

Lemma array3_eta p : Array3 (ix0 p) (ix1 p) (ix2 p) = p.
Proof. by destruct p. Qed.

(** The two scripts carry the same transition. *)
Lemma survivors_same mode p (val_j val_s val_a : num) :
  Realtime.survivors mode p val_j val_s val_a =
  Harvesting.survivors mode p val_j val_s val_a.
Proof. reflexivity. Qed.

Lemma step_current_pop self (val_j val_s val_a : num) mode :
  current_pop (step self val_j val_s val_a mode) =
  Harvesting.next_pop mode (current_pop self) val_j val_s val_a.
Proof. reflexivity. Qed.

Lemma steps_snoc st ks k : steps st (ks ++ [k]) = step_tick (steps st ks) k.
Proof. unfold steps. by rewrite foldl_app. Qed.

Lemma steps_app st ks ks' : steps st (ks ++ ks') = steps (steps st ks) ks'.
Proof. unfold steps. by rewrite foldl_app. Qed.

Lemma aligned_reset self : aligned (reset self).
Proof. by repeat split. Qed.

Lemma aligned_step st k : aligned st -> aligned (step_tick st k).
Proof.
  intros (Ht & Hj & Hs & Ha & Htot).
  unfold aligned, step_tick, step; cbn [time history_j history_s history_a
    history_tot year_counter].
  rewrite !length_app, Ht, Hj, Hs, Ha, Htot.
  replace (year_counter st + 1)%nat with (S (year_counter st)) by lia.
  repeat split; cbn [length]; try lia.
  by rewrite (seq_S (S (year_counter st))).
Qed.

Lemma aligned_steps ks : forall st, aligned st -> aligned (steps st ks).
Proof.
  induction ks as [|k ks IH]; intros st Hst; [done|].
  apply IH. by apply aligned_step.
Qed.

Lemma year_counter_steps ks :
  forall st, year_counter (steps st ks) = (year_counter st + length ks)%nat.
Proof.
  induction ks as [|k ks IH]; intros st; simpl; [lia|].
  rewrite IH. unfold step_tick, step; simpl. lia.
Qed.

(** Each list after further steps is the list before, followed by one
    new element per step. *)
Lemma steps_extend ks : forall st,
  exists tj ts ta tt ty,
    history_j (steps st ks) = history_j st ++ tj /\
    history_s (steps st ks) = history_s st ++ ts /\
    history_a (steps st ks) = history_a st ++ ta /\
    history_tot (steps st ks) = history_tot st ++ tt /\
    time (steps st ks) = time st ++ ty.
Proof.
  induction ks as [|k ks IH]; intros st.
  - exists [], [], [], [], []. by rewrite !app_nil_r.
  - destruct (IH (step_tick st k)) as (tj & ts & ta & tt & ty & Hj & Hs & Ha & Ht & Hy).
    simpl. rewrite Hj, Hs, Ha, Ht, Hy. unfold step_tick, step; simpl.
    rewrite <- !app_assoc. eauto 10.
Qed.

Lemma totals_derived_reset self : totals_derived (reset self).
Proof. reflexivity. Qed.

Lemma totals_derived_step st k :
  aligned st -> totals_derived st -> totals_derived (step_tick st k).
Proof.
  intros (_ & Hj & Hs & Ha & _) Htot.
  unfold totals_derived, step_tick, step in *; simpl.
  rewrite zip_with_app by (rewrite Hs, Ha; done).
  rewrite zip_with_app by (rewrite length_zip_with, Hj, Hs, Ha; lia).
  by rewrite <- Htot.
Qed.

Lemma totals_derived_steps ks : forall st,
  aligned st -> totals_derived st -> totals_derived (steps st ks).
Proof.
  induction ks as [|k ks IH]; intros st Hal Htot; [done|].
  apply IH; [by apply aligned_step | by apply totals_derived_step].
Qed.
End Generic.

(** ** Batch projection against the incremental driver *)
Section BatchIncremental.
Context {num : Type} `{Arith num} `{BioParams num}.
Variables (val_j val_s val_a : num) (mode : string).
Implicit Types (self st : Realtime.SimulationState num).

Import Realtime.

#[local] Abbreviation same_tick := (Tick val_j val_s val_a mode).
#[local] Abbreviation traj := (trajectory val_j val_s val_a mode).

Lemma trajectory_S n :
  traj (S n) = Harvesting.next_pop mode (traj n) val_j val_s val_a.
Proof. reflexivity. Qed.

(** What the incremental driver holds after [n] equal steps from a reset. *)
Lemma steps_replicate self n :
  let st := steps (reset self) (replicate n same_tick) in
  current_pop st = traj n /\
  year_counter st = n /\
  time st = seq 0 (S n) /\
  history_j st = (fun i => ix0 (traj i)) <$> seq 0 (S n) /\
  history_s st = (fun i => ix1 (traj i)) <$> seq 0 (S n) /\
  history_a st = (fun i => ix2 (traj i)) <$> seq 0 (S n).
Proof.
  induction n as [|n IH]; [done|].
  destruct IH as (Hp & Hy & Ht & Hj & Hs & Ha).
  cbv zeta. rewrite replicate_S_end, steps_snoc.
  set (st := steps (reset self) (replicate n same_tick)) in *.
  assert (Hnext : current_pop (step_tick st same_tick) = traj (S n)).
  { unfold step_tick. cbn [tick_j tick_s tick_a tick_mode].
    by rewrite step_current_pop, Hp. }
  split; [done|]. clear Hnext.
  unfold step_tick, step.
  cbn [current_pop year_counter time history_j history_s history_a
       tick_j tick_s tick_a tick_mode].
  rewrite Hy, Ht, Hj, Hs, Ha, Hp, !(seq_S (S n)), !fmap_app.
  replace (n + 1)%nat with (S n) by lia.
  by repeat split.
Qed.

(** What the loop of [run_simulation] holds after [n] of its [width]
    iterations: the rows written so far, then the zeros not yet
    overwritten. *)
Lemma loop_rows (width n : nat) :
  n <= width ->
  Harvesting.loop val_j val_s val_a mode n
    (INITIAL_POP, <[0%nat := INITIAL_POP]> (replicate (width + 1) np_zeros3))
  = (traj n, (traj <$> seq 0 (S n)) ++ replicate (width - n) np_zeros3).
Proof.
  induction n as [|n IH]; intros Hn.
  - replace (width + 1)%nat with (S width) by lia.
    by rewrite Nat.sub_0_r.
  - unfold Harvesting.loop in *.
    rewrite seq_S, foldl_app, IH by lia.
    cbn [foldl plus]. f_equal.
    rewrite insert_app_r_alt by (rewrite length_fmap, length_seq; lia).
    rewrite length_fmap, length_seq, Nat.sub_diag.
    replace (width - n)%nat with (S (width - S n)) by lia.
    cbn [replicate]. rewrite (seq_S (S n)), fmap_app, <- app_assoc.
    reflexivity.
Qed.

Lemma run_simulation_rows :
  Harvesting.run_simulation val_j val_s val_a mode = traj <$> seq 0 (S YEARS).
Proof.
  unfold Harvesting.run_simulation. cbv zeta.
  rewrite (loop_rows YEARS YEARS) by lia.
  cbn [snd]. by rewrite Nat.sub_diag, app_nil_r.
Qed.

Lemma entry_replicate self n t :
  entry (steps (reset self) (replicate n same_tick)) t =
  (fun i => (i, traj i)) <$> seq 0 (S n) !! t.
Proof.
  destruct (steps_replicate self n) as (_ & _ & Ht & Hj & Hs & Ha).
  unfold entry. rewrite Ht, Hj, Hs, Ha, !list_lookup_fmap.
  destruct (seq 0 (S n) !! t) as [i|]; cbn; [|done].
  by rewrite array3_eta.
Qed.
End BatchIncremental.

(** ** Claims that do not depend on the carrier *)
Section CarrierFree.
Context {num : Type} `{Arith num} `{BioParams num}.
Implicit Types (self st : Realtime.SimulationState num).
Implicit Types (ks : list (Realtime.tick num)) (p : array3 num).

Import Realtime.

(** C1.  Batch/incremental equivalence.  For every harvest triple and every
    mode string, [run_simulation] returns [YEARS + 1] rows, and row [t] is
    the entry the incremental driver has recorded at position [t] (with
    time index [t]) after [YEARS] calls of [step] with the same arguments
    on a freshly reset state; beyond the horizon neither has an entry. *)
Theorem batch_equals_incremental (val_j val_s val_a : num) (mode : string) self :
  let batch := Harvesting.run_simulation val_j val_s val_a mode in
  let final := steps (reset self) (replicate YEARS (Tick val_j val_s val_a mode)) in
  length batch = S YEARS /\
  forall t : nat, entry final t = (fun v => (t, v)) <$> batch !! t.
Proof.
  cbv zeta. rewrite run_simulation_rows. split.
  - by rewrite length_fmap, length_seq.
  - intros t. rewrite entry_replicate, !list_lookup_fmap.
    destruct (seq 0 (S YEARS) !! t) as [i|] eqn:Hi; [|done].
    apply lookup_seq in Hi as [-> _]. done.
Qed.

(** C2 (as amended).  [reset], in either run state, sets the current
    vector to the initial vector, the step counter to 0 and the history to
    the single entry (0, initial vector) with its total, and it sets the
    run flag to paused: the flag is unchanged by a reset made while paused,
    and cleared by one made while running. *)
Theorem reset_restores_initial_and_pauses self :
  current_pop (reset self) = INITIAL_POP /\
  year_counter (reset self) = 0%nat /\
  time (reset self) = [0%nat] /\
  history_j (reset self) = [ix0 INITIAL_POP] /\
  history_s (reset self) = [ix1 INITIAL_POP] /\
  history_a (reset self) = [ix2 INITIAL_POP] /\
  history_tot (reset self) = [np_sum INITIAL_POP] /\
  (forall t : nat, entry (reset self) t =
                   match t with O => Some (0%nat, INITIAL_POP) | S _ => None end) /\
  is_running (reset self) = false /\
  (is_running self = false -> is_running (reset self) = is_running self).
Proof.
  repeat split; try done.
  intros [|[|t]]; unfold entry; cbn; by rewrite ?array3_eta.
Qed.

Lemma trajectory_slot0 (r s a s' a' : num) n :
  trajectory r s a PROPORTIONAL n = trajectory r s' a' PROPORTIONAL n.
Proof.
  induction n as [|n IH]; [done|].
  by rewrite !trajectory_S, IH.
Qed.

(** C8.  Proportional mode reads slot 0 only: the survivors are the stage
    vector times [1 - val_j], element by element, and calls whose harvest
    triples agree in slot 0 give the same result whatever slots 1 and 2
    hold, for the loop body, for [step] and for [run_simulation]. *)
Theorem proportional_reads_slot0_only self p (r s a s' a' : num) :
  Harvesting.survivors PROPORTIONAL p r s a =
    Array3 (mul (ix0 p) (sub one r)) (mul (ix1 p) (sub one r))
           (mul (ix2 p) (sub one r)) /\
  Realtime.survivors PROPORTIONAL p r s a =
    Array3 (mul (ix0 p) (sub one r)) (mul (ix1 p) (sub one r))
           (mul (ix2 p) (sub one r)) /\
  Harvesting.next_pop PROPORTIONAL p r s a =
    Harvesting.next_pop PROPORTIONAL p r s' a' /\
  step self r s a PROPORTIONAL = step self r s' a' PROPORTIONAL /\
  Harvesting.run_simulation r s a PROPORTIONAL =
    Harvesting.run_simulation r s' a' PROPORTIONAL.
Proof.
  do 4 (split; [reflexivity|]).
  rewrite !run_simulation_rows.
  apply list_fmap_ext. intros _ n _. apply trajectory_slot0.
Qed.

(** C9.  History is append-only.  After [n] calls of [step] on a reset
    state (any arguments, no reset in between) each of the five parallel
    lists has [1 + n] elements, and after any further calls of [step] the
    first [1 + n] elements of each list are exactly the elements it had
    before: entries are added at the end and none is changed or removed. *)
Theorem history_append_only self ks ks' :
  let st := steps (reset self) ks in
  let st' := steps st ks' in
  (length (time st) = 1 + length ks /\
   length (history_j st) = 1 + length ks /\
   length (history_s st) = 1 + length ks /\
   length (history_a st) = 1 + length ks /\
   length (history_tot st) = 1 + length ks)%nat /\
  (take (1 + length ks) (time st') = time st /\
   take (1 + length ks) (history_j st') = history_j st /\
   take (1 + length ks) (history_s st') = history_s st /\
   take (1 + length ks) (history_a st') = history_a st /\
   take (1 + length ks) (history_tot st') = history_tot st) /\
  (length (time st') = 1 + length ks + length ks')%nat /\
  (forall t : nat, (t < 1 + length ks)%nat -> entry st' t = entry st t).
Proof.
  cbv zeta.
  set (st := steps (reset self) ks).
  assert (Hal : aligned st) by apply aligned_steps, aligned_reset.
  assert (Hy : year_counter st = length ks).
  { unfold st. by rewrite year_counter_steps. }
  destruct Hal as (Ht & Hj & Hs & Ha & Htot).
  assert (Hlt : length (time st) = S (length ks)).
  { by rewrite Ht, length_seq, Hy. }
  rewrite Hy in Hj, Hs, Ha, Htot.
  destruct (steps_extend ks' st) as (tj & ts & ta & tt & ty & Ej & Es & Ea & Et & Ey).
  assert (Hal' : aligned (steps st ks')) by apply aligned_steps, aligned_steps, aligned_reset.
  destruct Hal' as (Ht' & _).
  split; [by repeat split|].
  split.
  { rewrite Ej, Es, Ea, Et, Ey.
    repeat split; by apply take_app_length'. }
  split.
  { rewrite Ht', length_seq, year_counter_steps, Hy. lia. }
  intros t Hlen. unfold entry. rewrite Ej, Es, Ea, Ey.
  rewrite !lookup_app_l by lia. done.
Qed.

(** Every position up to the number of steps holds an entry, timed by its
    position. *)
Lemma entry_defined self ks (t : nat) :
  (t <= length ks)%nat ->
  exists row, entry (steps (reset self) ks) t = Some (t, row).
Proof.
  intros Ht.
  set (st := steps (reset self) ks).
  assert (Hal : aligned st) by apply aligned_steps, aligned_reset.
  assert (Hy : year_counter st = length ks).
  { unfold st. rewrite year_counter_steps. cbn. lia. }
  destruct Hal as (Htime & Hj & Hs & Ha & _). rewrite Hy in *.
  unfold entry. rewrite Htime, lookup_seq_lt by lia.
  destruct (lookup_lt_is_Some_2 (history_j st) t) as [j ->]; [lia|].
  destruct (lookup_lt_is_Some_2 (history_s st) t) as [s ->]; [lia|].
  destruct (lookup_lt_is_Some_2 (history_a st) t) as [a ->]; [lia|].
  by eexists.
Qed.

(** The stored totals and the batch totals are [np.sum] of the stage
    values at the same position, whatever the carrier makes of [np.sum]. *)
Lemma totals_follow_np_sum self ks (val_j val_s val_a : num) (mode : string) :
  let st := steps (reset self) ks in
  let data := Harvesting.run_simulation val_j val_s val_a mode in
  (forall t : nat, history_tot st !! t = (fun e => np_sum (snd e)) <$> entry st t) /\
  history_tot st !! 0%nat = Some (np_sum INITIAL_POP) /\
  (forall t : nat, Harvesting.totals data !! t = np_sum <$> data !! t) /\
  Harvesting.totals data !! 0%nat = Some (np_sum INITIAL_POP).
Proof.
  cbv zeta.
  set (st := steps (reset self) ks).
  assert (Hal : aligned st) by apply aligned_steps, aligned_reset.
  assert (Htot : totals_derived st).
  { apply totals_derived_steps; [apply aligned_reset | apply totals_derived_reset]. }
  split; [|split; [|split]].
  - intros t. destruct Hal as (Ht & Hj & Hs & Ha & _).
    unfold entry. rewrite Htot, lookup_zip_with, lookup_zip_with.
    destruct (decide (t < S (year_counter st))%nat) as [Hlt|Hge].
    + rewrite Ht, lookup_seq_lt by done.
      destruct (lookup_lt_is_Some_2 (history_j st) t) as [j ->]; [lia|].
      destruct (lookup_lt_is_Some_2 (history_s st) t) as [s ->]; [lia|].
      destruct (lookup_lt_is_Some_2 (history_a st) t) as [a ->]; [lia|].
      done.
    + rewrite (lookup_ge_None_2 (history_j st)) by lia.
      rewrite (lookup_ge_None_2 (time st)); [done|].
      rewrite Ht, length_seq. lia.
  - subst st.
    destruct (steps_extend ks (reset self)) as (_ & _ & _ & tt & _ & _ & _ & _ & -> & _).
    done.
  - intros t. unfold Harvesting.totals. apply list_lookup_fmap.
  - unfold Harvesting.totals. by rewrite run_simulation_rows.
Qed.
End CarrierFree.

(** ** Rounding in binary64 *)
Section Binary64Rounding.
Local Open Scope Z_scope.

Lemma digits2_size p : digits2_pos p = Pos.size p.
Proof. induction p; cbn; congruence. Qed.

Lemma shr_1_m mrs : 0 <= shr_m mrs -> shr_m (shr_1 mrs) = shr_m mrs / 2.
Proof.
  destruct mrs as [m r s]; cbn [shr_m]. intros Hm.
  rewrite <- Z.div2_div.
  destruct m as [|[p|p|]|p]; try reflexivity. lia.
Qed.

Lemma iter_shr_1_m n : forall mrs, 0 <= shr_m mrs ->
  shr_m (SpecFloat.iter_pos shr_1 n mrs) = shr_m mrs / 2 ^ Zpos n.
Proof.
  induction n as [n IH|n IH|]; intros mrs Hm; cbn [SpecFloat.iter_pos].
  - assert (H1 : 0 <= shr_m (shr_1 mrs)).
    { rewrite shr_1_m by done. apply Z.div_pos; lia. }
    assert (H2 : 0 <= shr_m (SpecFloat.iter_pos shr_1 n (shr_1 mrs))).
    { rewrite IH by done. apply Z.div_pos; lia. }
    rewrite IH, IH, shr_1_m by done.
    rewrite !Z.div_div by lia. f_equal.
    rewrite (Pos2Z.inj_xI n), Z.pow_add_r, Z.pow_mul_r by lia.
    change (2 ^ 2) with 4. change (2 ^ 1) with 2.
    replace 4 with (2 * 2) by lia. rewrite Z.pow_mul_l. lia.
  - assert (H2 : 0 <= shr_m (SpecFloat.iter_pos shr_1 n mrs)).
    { rewrite IH by done. apply Z.div_pos; lia. }
    rewrite IH, IH by done.
    rewrite !Z.div_div by lia. f_equal.
    rewrite (Pos2Z.inj_xO n). rewrite <- Z.pow_add_r by lia. f_equal. lia.
  - rewrite shr_1_m by done. reflexivity.
Qed.

Lemma digits2_log2 p : Zpos (digits2_pos p) = Z.log2 (Zpos p) + 1.
Proof.
  rewrite digits2_size. destruct p; cbn [Z.log2 Pos.size]; lia.
Qed.

Lemma digits2_bounds p :
  2 ^ (Zpos (digits2_pos p) - 1) <= Zpos p < 2 ^ Zpos (digits2_pos p).
Proof.
  rewrite digits2_log2.
  replace (Z.log2 (Z.pos p) + 1 - 1) with (Z.log2 (Z.pos p)) by lia.
  pose proof (Z.log2_spec (Zpos p) ltac:(lia)). lia.
Qed.

Lemma digits2_le p k : Zpos p < 2 ^ k -> Zpos (digits2_pos p) <= k.
Proof.
  intros Hp. rewrite digits2_log2.
  destruct (Z_lt_le_dec k 0) as [Hk|Hk].
  - rewrite Z.pow_neg_r in Hp by done. lia.
  - apply Z.log2_lt_pow2 in Hp; lia.
Qed.

Lemma digits2_ge p k : 2 ^ k <= Zpos p -> k < Zpos (digits2_pos p).
Proof.
  intros Hp. rewrite digits2_log2.
  destruct (Z_lt_le_dec k 0) as [Hk|Hk].
  - pose proof (Z.log2_nonneg (Zpos p)). lia.
  - apply Z.log2_le_pow2 in Hp; lia.
Qed.

Lemma fexp64_eq e : fexp prec emax e = fexp64 e.
Proof. reflexivity. Qed.

Lemma round_nearest_even_range m l :
  m <= round_nearest_even m l <= m + 1.
Proof.
  destruct l as [|[]]; cbn [round_nearest_even]; try lia.
  destruct (Z.even m); lia.
Qed.

(** The second normalisation inside [binary_round_aux]. *)
Lemma renormalise m e1 :
  0 <= m <= 2 ^ 53 -> -1074 <= e1 ->
  (let '(mrs, e2) := shr_fexp prec emax m e1 loc_Exact in
   match shr_m mrs with
   | Z0 => S754_zero false
   | Zpos q => if e2 <=? emax - prec then S754_finite false q e2 else S754_infinity false
   | Zneg _ => S754_nan
   end) =
  if m =? 0 then S754_zero false
  else if m <? 2 ^ 53 then
    if e1 <=? 971 then S754_finite false (Z.to_pos m) e1 else S754_infinity false
  else
    if e1 + 1 <=? 971 then S754_finite false (2 ^ 52)%positive (e1 + 1)
    else S754_infinity false.
Proof.
  intros Hm He. unfold shr_fexp. rewrite fexp64_eq.
  destruct m as [|q|q]; [| |lia].
  - cbn [Zdigits2 shr_record_of_loc Z.eqb].
    unfold shr. destruct (fexp64 (0 + e1) - e1) eqn:E; [done| |done].
    unfold fexp64 in E. lia.
  - cbn [Zdigits2 shr_record_of_loc Z.eqb].
    destruct (Z.ltb_spec (Zpos q) (2 ^ 53)) as [Hlt|Hge].
    + pose proof (digits2_le q 53 Hlt) as Hd.
      unfold shr. destruct (fexp64 (Z.pos (digits2_pos q) + e1) - e1) eqn:E.
      * cbn [shr_m]. reflexivity.
      * unfold fexp64 in E. lia.
      * cbn [shr_m]. reflexivity.
    + assert (Hq : Zpos q = 2 ^ 53) by lia.
      assert (q = (2 ^ 53)%positive) as -> by (apply Pos2Z.inj; rewrite Hq; reflexivity).
      replace (fexp64 (Z.pos (digits2_pos (2 ^ 53)) + e1) - e1) with 1.
      2:{ change (Z.pos (digits2_pos (2 ^ 53))) with 54. unfold fexp64. lia. }
      cbn [shr SpecFloat.iter_pos]. 
      change (shr_m (shr_1 {| shr_m := Z.pos (2 ^ 53); shr_r := false; shr_s := false |}))
        with (Zpos (2 ^ 52)).
      cbv iota beta. reflexivity.
Qed.

Lemma shr_record_of_loc_m m l : shr_m (shr_record_of_loc m l) = m.
Proof. by destruct l as [|[]]. Qed.

(** The first truncation inside [binary_round_aux]. *)
Lemma shr_fexp_m m e l :
  0 <= m ->
  let n := Z.max 0 (fexp64 (Zdigits2 m + e) - e) in
  shr_m (fst (shr_fexp prec emax m e l)) = m / 2 ^ n /\
  snd (shr_fexp prec emax m e l) = e + n.
Proof.
  intros Hm. cbv zeta. unfold shr_fexp. rewrite fexp64_eq.
  destruct (fexp64 (Zdigits2 m + e) - e) as [|n|n] eqn:E; cbn [shr fst snd Z.max Z.compare].
  - rewrite shr_record_of_loc_m, Z.div_1_r. lia.
  - rewrite iter_shr_1_m by (by rewrite shr_record_of_loc_m).
    rewrite shr_record_of_loc_m. replace (Z.max 0 (Z.pos n)) with (Z.pos n) by lia. done.
  - rewrite shr_record_of_loc_m. replace (Z.max 0 (Z.neg n)) with 0 by lia.
    rewrite Z.div_1_r. lia.
Qed.

Lemma binary_round_aux_signed sx p e l :
  sf_signed sx (binary_round_aux prec emax sx (Zpos p) e l).
Proof.
  unfold binary_round_aux.
  destruct (shr_fexp prec emax (Z.pos p) e l) as [mrs' e'] eqn:E1.
  pose proof (shr_fexp_m (Zpos p) e l ltac:(lia)) as [Hm1 _].
  rewrite E1 in Hm1; cbn [fst] in Hm1.
  assert (H1 : 0 <= shr_m mrs').
  { rewrite Hm1. apply Z.div_pos; lia. }
  pose proof (round_nearest_even_range (shr_m mrs') (loc_of_shr_record mrs')) as Hr.
  set (m1' := round_nearest_even (shr_m mrs') (loc_of_shr_record mrs')) in *.
  destruct (shr_fexp prec emax m1' e' loc_Exact) as [mrs'' e''] eqn:E2.
  pose proof (shr_fexp_m m1' e' loc_Exact ltac:(lia)) as [Hm2 _].
  rewrite E2 in Hm2; cbn [fst] in Hm2.
  assert (H2 : 0 <= shr_m mrs'').
  { rewrite Hm2. apply Z.div_pos; lia. }
  destruct (shr_m mrs''); [done| |lia].
  by destruct (_ <=? _).
Qed.

Lemma shr_1_exact mrs :
  0 <= shr_m mrs -> shr_exact mrs -> shr_m mrs mod 2 = 0 -> shr_exact (shr_1 mrs).
Proof.
  destruct mrs as [m r s]. cbn [shr_m]. intros Hm [Hr Hs] Hz; cbn in Hr, Hs. subst r s.
  destruct m as [|[p|p|]|p]; try done.
  rewrite Pos2Z.inj_xI in Hz. 
  replace (2 * Z.pos p + 1) with (1 + Z.pos p * 2) in Hz by lia.
  rewrite Z.mod_add in Hz by lia. done.
Qed.

Lemma pow2_split_mod m a b :
  0 <= a -> 0 <= b -> m mod 2 ^ (a + b) = 0 ->
  m mod 2 ^ a = 0 /\ (m / 2 ^ a) mod 2 ^ b = 0.
Proof.
  intros Ha Hb Hm.
  assert (Hpa : 0 < 2 ^ a) by (apply Z.pow_pos_nonneg; lia).
  assert (Hpb : 0 < 2 ^ b) by (apply Z.pow_pos_nonneg; lia).
  apply Z.mod_divide in Hm; [|rewrite Z.pow_add_r by lia; lia].
  destruct Hm as [k Hk]. rewrite Z.pow_add_r in Hk by lia.
  subst m. split.
  - replace (k * (2 ^ a * 2 ^ b)) with (k * 2 ^ b * 2 ^ a) by lia.
    apply Z.mod_mul; lia.
  - replace (k * (2 ^ a * 2 ^ b)) with (k * 2 ^ b * 2 ^ a) by lia.
    rewrite Z.div_mul by lia. apply Z.mod_mul; lia.
Qed.

Lemma iter_shr_1_exact n : forall mrs,
  0 <= shr_m mrs -> shr_exact mrs -> shr_m mrs mod 2 ^ Zpos n = 0 ->
  shr_exact (SpecFloat.iter_pos shr_1 n mrs).
Proof.
  induction n as [n IH|n IH|]; intros mrs Hm Hex Hz; cbn [SpecFloat.iter_pos].
  - rewrite (Pos2Z.inj_xI n) in Hz.
    replace (2 * Z.pos n + 1) with (1 + (Zpos n + Zpos n)) in Hz by lia.
    apply pow2_split_mod in Hz as [Hz1 Hz2]; [|lia..].
    apply pow2_split_mod in Hz2 as [Hz2 Hz3]; [|lia..].
    change (2 ^ 1) with 2 in *.
    assert (H1 : 0 <= shr_m (shr_1 mrs)).
    { rewrite shr_1_m by done. apply Z.div_pos; lia. }
    assert (H2 : 0 <= shr_m (SpecFloat.iter_pos shr_1 n (shr_1 mrs))).
    { rewrite iter_shr_1_m by done. apply Z.div_pos; lia. }
    apply IH; [done| |].
    + apply IH; [done|by apply shr_1_exact|]. by rewrite shr_1_m.
    + by rewrite iter_shr_1_m, shr_1_m.
  - rewrite (Pos2Z.inj_xO n) in Hz.
    replace (2 * Z.pos n) with (Zpos n + Zpos n) in Hz by lia.
    apply pow2_split_mod in Hz as [Hz1 Hz2]; [|lia..].
    assert (H2 : 0 <= shr_m (SpecFloat.iter_pos shr_1 n mrs)).
    { rewrite iter_shr_1_m by done. apply Z.div_pos; lia. }
    apply IH; [done| |].
    + by apply IH.
    + by rewrite iter_shr_1_m.
  - by apply shr_1_exact.
Qed.

Lemma shr_fexp_exact m e :
  0 <= m ->
  m mod 2 ^ (Z.max 0 (fexp64 (Zdigits2 m + e) - e)) = 0 ->
  loc_of_shr_record (fst (shr_fexp prec emax m e loc_Exact)) = loc_Exact.
Proof.
  intros Hm Hz. unfold shr_fexp. rewrite fexp64_eq.
  destruct (fexp64 (Zdigits2 m + e) - e) as [|n|n] eqn:E; cbn [shr fst]; try done.
  replace (Z.max 0 (Z.pos n)) with (Z.pos n) in Hz by lia.
  destruct (iter_shr_1_exact n (shr_record_of_loc m loc_Exact)) as [Hr Hs]; try done.
  destruct (SpecFloat.iter_pos _ _ _) as [m' r s]. cbn in Hr, Hs. by subst.
Qed.

(** Rounding a positive mantissa whose exponent is not above the target
    exponent of its magnitude. *)
Lemma binary_round_aux_aligned p e :
  let e1 := fexp64 (Zpos (digits2_pos p) + e) in
  e <= e1 ->
  exists m, Zpos p / 2 ^ (e1 - e) <= m <= Zpos p / 2 ^ (e1 - e) + 1 /\
    (Zpos p mod 2 ^ (e1 - e) = 0 -> m = Zpos p / 2 ^ (e1 - e)) /\
    m <= 2 ^ 53 /\
    binary_round_aux prec emax false (Zpos p) e loc_Exact = rounded m e1.
Proof.
  intros e1 He.
  unfold binary_round_aux.
  pose proof (shr_fexp_m (Zpos p) e loc_Exact ltac:(lia)) as [Hm1 He1].
  pose proof (shr_fexp_exact (Zpos p) e ltac:(lia)) as Hex.
  destruct (shr_fexp prec emax (Z.pos p) e loc_Exact) as [mrs' e'] eqn:E1.
  cbn [fst snd Zdigits2] in Hm1, He1, Hex.
  fold e1 in Hm1, He1, Hex.
  replace (Z.max 0 (e1 - e)) with (e1 - e) in * by lia.
  replace (e + (e1 - e)) with e1 in He1 by lia. subst e'.
  pose proof (round_nearest_even_range (shr_m mrs') (loc_of_shr_record mrs')) as Hr.
  assert (Hexact : Zpos p mod 2 ^ (e1 - e) = 0 ->
            round_nearest_even (shr_m mrs') (loc_of_shr_record mrs') = shr_m mrs').
  { intros Hz. by rewrite Hex. }
  set (m := round_nearest_even (shr_m mrs') (loc_of_shr_record mrs')) in *.
  rewrite Hm1 in Hr, Hexact.
  assert (Hlt : Zpos p / 2 ^ (e1 - e) < 2 ^ 53).
  { apply Z.div_lt_upper_bound; [lia|].
    rewrite <- Z.pow_add_r by lia.
    pose proof (digits2_bounds p) as [_ Hp].
    eapply Z.lt_le_trans; [exact Hp|].
    apply Z.pow_le_mono_r; [lia|]. unfold e1, fexp64. lia. }
  assert (0 <= Zpos p / 2 ^ (e1 - e)) by (apply Z.div_pos; lia).
  exists m. split; [done|]. split; [done|]. split; [lia|].
  apply renormalise; [lia|]. unfold e1, fexp64. lia.
Qed.

Lemma digits2_shift p q k :
  0 <= k -> Zpos q = Zpos p * 2 ^ k ->
  Zpos (digits2_pos q) = Zpos (digits2_pos p) + k.
Proof.
  intros Hk Hq.
  pose proof (digits2_bounds p) as [Hlo Hhi].
  assert (Hpk : 0 < 2 ^ k) by (apply Z.pow_pos_nonneg; lia).
  assert (H1 : Zpos q < 2 ^ (Zpos (digits2_pos p) + k)).
  { rewrite Z.pow_add_r, Hq by lia. nia. }
  assert (H2 : 2 ^ (Zpos (digits2_pos p) - 1 + k) <= Zpos q).
  { rewrite Z.pow_add_r, Hq by lia. nia. }
  apply digits2_le in H1. apply digits2_ge in H2. lia.
Qed.

Lemma bounded_inv m e :
  bounded prec emax m e = true ->
  fexp64 (Zpos (digits2_pos m) + e) = e /\ -1074 <= e <= 971 /\
  Zpos (digits2_pos m) <= 53 /\ Zpos m < 2 ^ 53.
Proof.
  unfold bounded, canonical_mantissa. rewrite fexp64_eq.
  intros [Hc He]%andb_prop. apply Z.eqb_eq in Hc. apply Z.leb_le in He.
  change (emax - prec) with 971 in He.
  assert (Hd : Zpos (digits2_pos m) <= 53) by (unfold fexp64 in Hc; lia).
  repeat split; try done.
  - unfold fexp64 in Hc; lia.
  - pose proof (digits2_bounds m) as [_ Hhi].
    eapply Z.lt_le_trans; [exact Hhi|]. apply Z.pow_le_mono_r; lia.
Qed.

Lemma rounded_id m e :
  bounded prec emax m e = true -> rounded (Zpos m) e = S754_finite false m e.
Proof.
  intros (_ & He & _ & Hm)%bounded_inv. unfold rounded.
  cbn [Z.eqb]. 
  destruct (Z.ltb_spec (Zpos m) (2 ^ 53)); [|lia].
  destruct (Z.leb_spec e 971); [|lia].
  by rewrite Pos2Z.id.
Qed.

(** Multiplying by one returns the number itself. *)
Lemma SFmul_one mx ex :
  bounded prec emax mx ex = true ->
  SFmul prec emax (S754_finite false mx ex) (S754_finite false (2 ^ 52) (-52))
  = S754_finite false mx ex.
Proof.
  intros Hb. pose proof (bounded_inv _ _ Hb) as (Hc & He & Hd & Hm).
  cbn [SFmul xorb].
  assert (Hp : Zpos (mx * 2 ^ 52) = Zpos mx * 2 ^ 52) by (rewrite Pos2Z.inj_mul; reflexivity).
  pose proof (digits2_shift mx (mx * 2 ^ 52) 52 ltac:(lia) Hp) as Hdp.
  destruct (binary_round_aux_aligned (mx * 2 ^ 52) (ex + -52)) as (m & _ & Hex & _ & ->).
  { rewrite Hdp. replace (Z.pos (digits2_pos mx) + 52 + (ex + -52))
      with (Z.pos (digits2_pos mx) + ex) by lia. rewrite Hc. lia. }
  rewrite Hdp in *.
  replace (Z.pos (digits2_pos mx) + 52 + (ex + -52))
    with (Z.pos (digits2_pos mx) + ex) in * by lia.
  rewrite Hc in *. replace (ex - (ex + -52)) with 52 in Hex by lia.
  rewrite Hp in Hex. rewrite Z.mod_mul, Z.div_mul in Hex by lia.
  rewrite Hex by done. by apply rounded_id.
Qed.

Lemma iter_xO p k : Zpos (Pos.iter xO p k) = Zpos p * 2 ^ Zpos k.
Proof.
  induction k as [|k IH] using Pos.peano_ind.
  - cbn [Pos.iter]. rewrite (Pos2Z.inj_xO p). change (2 ^ 1) with 2. lia.
  - rewrite Pos.iter_succ, (Pos2Z.inj_xO (Pos.iter xO p k)), IH, Pos2Z.inj_succ.
    rewrite Z.pow_succ_r by lia. lia.
Qed.

Lemma shl_align_spec mx ex t :
  snd (shl_align mx ex t) = Z.min ex t /\
  Zpos (fst (shl_align mx ex t)) = Zpos mx * 2 ^ (ex - Z.min ex t).
Proof.
  unfold shl_align. destruct (t - ex) as [|k|k] eqn:E; cbn [fst snd].
  - replace (Z.min ex t) with ex by lia. rewrite Z.sub_diag. cbn. lia.
  - replace (Z.min ex t) with ex by lia. rewrite Z.sub_diag. cbn. lia.
  - replace (Z.min ex t) with t by lia. split; [done|].
    rewrite iter_xO. f_equal. f_equal. lia.
Qed.

Lemma binary_round_signed sx d ez :
  sf_signed sx (binary_round prec emax sx d ez).
Proof.
  unfold binary_round. destruct (shl_align _ _ _) as [mz ez'].
  apply binary_round_aux_signed.
Qed.

(** Rounding [d * 2 ^ ez] for a positive [d]. *)
Lemma binary_round_pos d ez :
  let e1 := fexp64 (Zpos (digits2_pos d) + ez) in
  exists m,
    (ez <= e1 -> Zpos d / 2 ^ (e1 - ez) <= m <= Zpos d / 2 ^ (e1 - ez) + 1) /\
    (e1 <= ez -> m = Zpos d * 2 ^ (ez - e1)) /\
    m <= 2 ^ 53 /\
    binary_round prec emax false d ez = rounded m e1.
Proof.
  intros e1. unfold binary_round. rewrite fexp64_eq. fold e1.
  pose proof (shl_align_spec d ez e1) as [He Hm].
  destruct (shl_align d ez e1) as [mz ez']. cbn [fst snd] in He, Hm. subst ez'.
  assert (Hd : Zpos (digits2_pos mz) + Z.min ez e1 = Zpos (digits2_pos d) + ez).
  { rewrite (digits2_shift d mz (ez - Z.min ez e1)) by (done || lia). lia. }
  destruct (binary_round_aux_aligned mz (Z.min ez e1)) as (m & Hr & Hex & Hle & ->).
  { rewrite Hd. fold e1. lia. }
  rewrite Hd in *. fold e1 in Hr, Hex |- *.
  exists m. split; [|split; [|done]].
  - intros Hle1. replace (Z.min ez e1) with ez in * by lia.
    rewrite Z.sub_diag, Z.mul_1_r in Hm. by rewrite <- Hm.
  - intros Hge. replace (Z.min ez e1) with e1 in * by lia.
    rewrite Z.sub_diag in Hex. rewrite Z.mod_1_r, Z.div_1_r in Hex.
    rewrite <- Hm. by apply Hex.
Qed.

Lemma rounded_fin_nonneg m e1 :
  0 <= m -> e1 <= 971 -> (2 ^ 53 <= m -> e1 <= 970) -> sf_fin_nonneg (rounded m e1).
Proof.
  intros Hm He Hc. unfold rounded.
  destruct (Z.eqb_spec m 0); [done|].
  destruct (Z.ltb_spec m (2 ^ 53)).
  - destruct (Z.leb_spec e1 971); [done|lia].
  - destruct (Z.leb_spec (e1 + 1) 971); [done|lia].
Qed.

(** A difference of two positive finite numbers is not the positive
    infinity. *)
Lemma SFsub_no_overflow mx ex my ey :
  bounded prec emax mx ex = true ->
  SFsub prec emax (S754_finite false mx ex) (S754_finite false my ey)
  <> S754_infinity false.
Proof.
  intros (Hc & He & Hd & Hm)%bounded_inv.
  cbn [SFsub cond_Zopp].
  set (ez := Z.min ex ey).
  pose proof (shl_align_spec mx ex ez) as [_ Hx].
  pose proof (shl_align_spec my ey ez) as [_ Hy].
  replace (Z.min ex ez) with ez in Hx by lia.
  replace (Z.min ey ez) with ez in Hy by lia.
  set (mx' := fst (shl_align mx ex ez)) in *.
  set (my' := fst (shl_align my ey ez)) in *.
  destruct (Z.pos mx' - Z.pos my') as [|d|d] eqn:E; cbn [binary_normalize].
  - done.
  - destruct (binary_round_pos d ez) as (m & Hal & Hsh & Hle & ->).
    set (e1 := fexp64 (Z.pos (digits2_pos d) + ez)) in *.
    pose proof (digits2_shift mx mx' (ex - ez) ltac:(lia) Hx) as Hdx.
    assert (Hdd : Zpos (digits2_pos d) <= Zpos (digits2_pos mx')).
    { apply digits2_le. pose proof (digits2_bounds mx'). lia. }
    assert (Hpos : 0 <= m).
    { destruct (Z_le_gt_dec ez e1) as [H1|H1].
      - specialize (Hal H1). assert (0 <= Zpos d / 2 ^ (e1 - ez)) by (apply Z.div_pos; lia). lia.
      - rewrite Hsh by lia. 
        assert (0 < 2 ^ (ez - e1)) by (apply Z.pow_pos_nonneg; lia). lia. }
    assert (Hfin : sf_fin_nonneg (rounded m e1)).
    { apply rounded_fin_nonneg; [done|unfold e1, fexp64; lia|].
      intros Hbig.
      destruct (Z_le_gt_dec e1 970) as [|Hgt]; [done|exfalso].
      assert (He1 : e1 = 971) by (unfold e1, fexp64 in *; lia).
      assert (Hex : ex = 971) by (unfold e1, fexp64 in *; lia).
      assert (Hal' : ez <= e1) by lia. specialize (Hal Hal').
      assert (Zpos d / 2 ^ (e1 - ez) < Zpos mx).
      { apply Z.div_lt_upper_bound; [apply Z.pow_pos_nonneg; lia|].
        rewrite He1, <- Hex. lia. }
      lia. }
    intros Heq. rewrite Heq in Hfin. done.
  - pose proof (binary_round_signed true d ez) as Hs.
    intros Heq. rewrite Heq in Hs. done.
Qed.

(** [1 - r] lies in [0, 1] when [r] does. *)
Lemma SFsub_one_unit r :
  sf_fin_nonneg r -> valid_binary prec emax r = true ->
  SFleb r sf_one = true ->
  sf_unit (SFsub prec emax sf_one r).
Proof.
  destruct r as [s|s| |[] mr er]; try done.
  { intros _ _ _. cbn. split; [done|]. right. done. }
  intros _ Hb Hle. cbn [valid_binary] in Hb.
  pose proof (bounded_inv _ _ Hb) as (Hc & He & Hd & Hm).
  assert (Hcmp : er < -52 \/ (er = -52 /\ Zpos mr <= 2 ^ 52)).
  { unfold SFleb, sf_one in Hle. cbn [SFcompare] in Hle.
    destruct (Z.compare_spec er (-52)) as [Heq|Hlt|Hgt]; [|lia|done].
    right. split; [done|].
    rewrite Pos.compare_cont_spec in Hle. cbn [Pos.switch_Eq] in Hle.
    destruct (Pos.compare_spec mr (2 ^ 52)) as [->| |]; [done|lia|done]. }
  unfold sf_one. cbn [SFsub cond_Zopp].
  replace (Z.min (-52) er) with er by lia.
  pose proof (shl_align_spec (2 ^ 52) (-52) er) as [_ Hx].
  pose proof (shl_align_spec mr er er) as [_ Hy].
  replace (Z.min (-52) er) with er in Hx by lia.
  replace (Z.min er er) with er in Hy by lia.
  rewrite Z.sub_diag, Z.mul_1_r in Hy.
  set (mx' := fst (shl_align (2 ^ 52) (-52) er)) in *.
  set (my' := fst (shl_align mr er er)) in *.
  assert (Hone : Zpos mx' = 2 ^ (- er)).
  { rewrite Hx. change (Z.pos (2 ^ 52)) with (2 ^ 52).
    rewrite <- Z.pow_add_r by lia. f_equal. lia. }
  assert (Hge : 2 ^ 52 <= 2 ^ (- er)) by (apply Z.pow_le_mono_r; lia).
  assert (Hge' : er < -52 -> 2 ^ 53 <= 2 ^ (- er)) by (intros; apply Z.pow_le_mono_r; lia).
  destruct (Z.pos mx' - Z.pos my') as [|d|d] eqn:E; cbn [binary_normalize].
  - done.
  - destruct (binary_round_pos d er) as (m & Hal & Hsh & Hle' & ->).
    set (e1 := fexp64 (Z.pos (digits2_pos d) + er)) in *.
    assert (Hdd : Zpos (digits2_pos d) <= - er).
    { apply digits2_le. lia. }
    assert (He1 : -1074 <= e1 <= -53) by (unfold e1, fexp64; lia).
    assert (Hpos : 0 <= m).
    { destruct (Z_le_gt_dec er e1) as [H1|H1].
      - specialize (Hal H1). assert (0 <= Zpos d / 2 ^ (e1 - er)) by (apply Z.div_pos; lia). lia.
      - rewrite Hsh by lia.
        assert (0 < 2 ^ (er - e1)) by (apply Z.pow_pos_nonneg; lia). lia. }
    unfold rounded.
    destruct (Z.eqb_spec m 0); [done|].
    destruct (Z.ltb_spec m (2 ^ 53)).
    + destruct (Z.leb_spec e1 971); [|lia]. cbn [sf_unit].
      rewrite Z2Pos.id by lia. split; [done|]. left. lia.
    + destruct (Z.leb_spec (e1 + 1) 971); [|lia]. cbn [sf_unit].
      split; [done|]. destruct (Z.eq_dec e1 (-53)); [right|left]; lia || (split; [lia|done]).
  - exfalso. lia.
Qed.

Lemma digits2_mul p q :
  Zpos (digits2_pos (p * q)) <= Zpos (digits2_pos p) + Zpos (digits2_pos q).
Proof.
  apply digits2_le. rewrite Pos2Z.inj_mul, Z.pow_add_r by lia.
  pose proof (digits2_bounds p). pose proof (digits2_bounds q). nia.
Qed.

(** A finite non-negative number times a number of [0, 1] is finite and
    non-negative. *)
Lemma SFmul_unit x y :
  sf_fin_nonneg x -> valid_binary prec emax x = true -> sf_unit y ->
  sf_fin_nonneg (SFmul prec emax x y).
Proof.
  destruct x as [sx|sx| |[] mx ex]; try done; destruct y as [sy|sy| |[] my ey]; try done.
  intros _ Hb [Hmy Hey]. cbn [valid_binary] in Hb.
  destruct Hey as [Hey|[-> ->]]; [|by rewrite SFmul_one].
  pose proof (bounded_inv _ _ Hb) as (Hc & He & Hd & Hm).
  cbn [SFmul xorb].
  set (p := (mx * my)%positive). set (e := ex + ey).
  pose proof (digits2_mul mx my) as Hdp. fold p in Hdp.
  pose proof (digits2_le my 53 Hmy) as Hdy.
  assert (Hal : e <= fexp64 (Zpos (digits2_pos p) + e)).
  { destruct (Z.eq_dec (Zpos (digits2_pos mx)) 53) as [H53|Hn53].
    - assert (52 < Zpos (digits2_pos p)).
      { apply digits2_ge. pose proof (digits2_bounds mx) as [Hlo _].
        rewrite H53 in Hlo. change (53 - 1) with 52 in Hlo.
        unfold p. rewrite Pos2Z.inj_mul. nia. }
      unfold fexp64. lia.
    - unfold fexp64 in *. lia. }
  destruct (binary_round_aux_aligned p e Hal) as (m & Hr & _ & _ & ->).
  set (e1 := fexp64 (Z.pos (digits2_pos p) + e)) in *.
  assert (0 <= Zpos p / 2 ^ (e1 - e)) by (apply Z.div_pos; lia).
  apply rounded_fin_nonneg; [lia|unfold e1, e, fexp64; lia|].
  intros Hbig.
  destruct (Z_le_gt_dec e1 970) as [|Hgt]; [done|exfalso].
  assert (He1 : e1 = 971) by (unfold e1, e, fexp64 in *; lia).
  assert (Hex : ex = 971) by (unfold e1, e, fexp64 in *; lia).
  assert (Hey' : ey = -53) by (unfold e1, e, fexp64 in *; lia).
  assert (Zpos p / 2 ^ (e1 - e) < Zpos mx).
  { apply Z.div_lt_upper_bound; [apply Z.pow_pos_nonneg; lia|].
    replace (e1 - e) with 53 by lia. unfold p. rewrite Pos2Z.inj_mul. nia. }
  lia.
Qed.
End Binary64Rounding.

(** ** The transition in binary64 *)
Section Binary64Engine.
Local Open Scope Z_scope.
Local Open Scope float_scope.

Lemma SFmul_nonneg x c :
  sf_fin_nonneg x -> sf_fin_nonneg c -> sf_nonneg (SFmul prec emax x c).
Proof.
  destruct x as [sx|sx| |[] mx ex]; try done; destruct c as [sc|sc| |[] mc ec]; try done.
  intros _ _. cbn [SFmul xorb].
  pose proof (binary_round_aux_signed false (mx * mc) (ex + ec) loc_Exact) as Hs.
  by destruct (binary_round_aux _ _ _ _ _ _) as [[]|[]| |[] ? ?].
Qed.

Lemma SFmul_inf_nonneg mc ec :
  SFmul prec emax (S754_infinity false) (S754_finite false mc ec) = S754_infinity false.
Proof. reflexivity. Qed.

Lemma SFadd_nonneg x y :
  sf_nonneg x -> sf_nonneg y -> sf_nonneg (SFadd prec emax x y).
Proof.
  destruct x as [[]|[]| |[] mx ex]; try done; destruct y as [[]|[]| |[] my ey]; try done.
  intros _ _. cbn [SFadd cond_Zopp Z.add binary_normalize].
  pose proof (binary_round_signed false
    (fst (shl_align mx ex (Z.min ex ey)) + fst (shl_align my ey (Z.min ex ey)))
    (Z.min ex ey)) as Hs.
  change (binary_normalize prec emax _ _ _) with (binary_round prec emax false
    (fst (shl_align mx ex (Z.min ex ey)) + fst (shl_align my ey (Z.min ex ey)))
    (Z.min ex ey)).
  by destruct (binary_round _ _ _ _ _) as [[]|[]| |[] ? ?].
Qed.

Lemma sf_fin_nonneg_nonneg x : sf_fin_nonneg x -> sf_nonneg x.
Proof. by destruct x as [|[]| |[]]. Qed.

Lemma SFleb_zero_nonneg x : SFleb (S754_zero false) x = true <-> sf_nonneg x.
Proof. by destruct x as [[]|[]| |[] ? ?]. Qed.

Lemma Prim2SF_0 : Prim2SF 0 = S754_zero false.
Proof. reflexivity. Qed.
Lemma Prim2SF_1 : Prim2SF 1 = sf_one.
Proof. reflexivity. Qed.
Lemma Prim2SF_infinity : Prim2SF infinity = S754_infinity false.
Proof. reflexivity. Qed.

Lemma is_count_sf x :
  is_count x = true ->
  sf_fin_nonneg (Prim2SF x) /\ valid_binary prec emax (Prim2SF x) = true.
Proof.
  unfold is_count. rewrite FloatAxioms.leb_spec, FloatAxioms.ltb_spec, Prim2SF_0, Prim2SF_infinity.
  intros [H0 Hi]%andb_prop. split; [|apply Prim2SF_valid].
  by destruct (Prim2SF x) as [[]|[]| |[] ? ?].
Qed.

Lemma is_rate_sf r :
  is_rate r = true ->
  sf_fin_nonneg (Prim2SF r) /\ valid_binary prec emax (Prim2SF r) = true /\
  SFleb (Prim2SF r) sf_one = true.
Proof.
  unfold is_rate. rewrite !FloatAxioms.leb_spec, Prim2SF_0, Prim2SF_1.
  intros [H0 H1]%andb_prop. split; [|split; [apply Prim2SF_valid|done]].
  by destruct (Prim2SF r) as [[]|[]| |[] ? ?].
Qed.

Lemma leb_0_nonneg x : (0 <=? x) = true <-> sf_nonneg (Prim2SF x).
Proof. rewrite FloatAxioms.leb_spec, Prim2SF_0. apply SFleb_zero_nonneg. Qed.

(** A count less a non-negative quota, clamped by [max(0, .)], is a count. *)
Lemma quota_survivor x q :
  is_count x = true -> (0 <=? q) = true ->
  sf_fin_nonneg (Prim2SF (py_max 0 (x - q))).
Proof.
  intros [Hx Hv]%is_count_sf Hq%leb_0_nonneg.
  unfold py_max. cbn [gtb float_arith].
  destruct (0 <? x - q) eqn:E; [|by rewrite Prim2SF_0].
  rewrite FloatAxioms.ltb_spec, Prim2SF_0 in E.
  rewrite FloatAxioms.sub_spec in E |- *. unfold SF64sub in *.
  destruct (Prim2SF x) as [sx|sx| |[] mx ex]; try done;
    destruct (Prim2SF q) as [[]|[]| |[] my ey]; try done;
    try (by destruct sx).
  cbn [valid_binary] in Hv.
  pose proof (SFsub_no_overflow mx ex my ey Hv) as Hno.
  by destruct (SFsub _ _ _ _) as [[]|[]| |[] ? ?].
Qed.

(** A count times [1 - r], for a rate [r], is a count. *)
Lemma rate_survivor x r :
  is_count x = true -> is_rate r = true ->
  sf_fin_nonneg (Prim2SF (x * (1 - r))).
Proof.
  intros [Hx Hv]%is_count_sf (Hr & Hrv & Hle)%is_rate_sf.
  rewrite FloatAxioms.mul_spec, FloatAxioms.sub_spec, Prim2SF_1. unfold SF64mul, SF64sub.
  apply SFmul_unit; [done..|]. by apply SFsub_one_unit.
Qed.

Lemma survivors_counts mode p (val_j val_s val_a : float) :
  float_stage p -> float_in_range mode val_j val_s val_a ->
  sf_counts (Harvesting.survivors mode p val_j val_s val_a).
Proof.
  intros (H0 & H1 & H2) Hr.
  unfold Harvesting.survivors, float_in_range, CONSTANT_QUOTA, PROPORTIONAL, SELECTIVE in *.
  destruct (String.eqb mode "Constant Quota").
  { destruct Hr as (Hj & Hs & Ha). repeat split; by apply quota_survivor. }
  destruct (String.eqb mode "Proportional (Uniform)").
  { destruct Hr as (Hj & _). repeat split; by apply rate_survivor. }
  destruct (String.eqb mode "Selective (Age-Specific)").
  { destruct Hr as (Hj & Hs & Ha). repeat split; by apply rate_survivor. }
  by repeat split.
Qed.

Lemma fmul_nonneg (s c : float) :
  sf_fin_nonneg (Prim2SF s) -> sf_fin_nonneg (Prim2SF c) ->
  sf_nonneg (Prim2SF (s * c)).
Proof. intros Hs Hc. rewrite FloatAxioms.mul_spec. by apply SFmul_nonneg. Qed.

Lemma fadd_nonneg (a b : float) :
  sf_nonneg (Prim2SF a) -> sf_nonneg (Prim2SF b) -> sf_nonneg (Prim2SF (a + b)).
Proof. intros Ha Hb. rewrite FloatAxioms.add_spec. by apply SFadd_nonneg. Qed.

Lemma next_pop_float_nonneg mode p (val_j val_s val_a : float) :
  float_stage p -> float_in_range mode val_j val_s val_a ->
  float_nonneg (Harvesting.next_pop mode p val_j val_s val_a).
Proof.
  intros Hp Hr.
  destruct (survivors_counts mode p val_j val_s val_a Hp Hr) as (H0 & H1 & H2).
  unfold Harvesting.next_pop. cbv zeta.
  set (sv := Harvesting.survivors mode p val_j val_s val_a) in *.
  unfold float_nonneg.
  cbn [ix0 ix1 ix2 add mul float_arith F_J F_S F_A S_J_to_S S_S_to_A S_A_surv
       float_params].
  rewrite !leb_0_nonneg.
  repeat split; repeat apply fadd_nonneg; by apply fmul_nonneg.
Qed.

Lemma sf_sim_refl a : sf_sim a a.
Proof. by destruct a. Qed.

Lemma sf_sim_inv a b :
  sf_sim a b -> a = b \/ exists s t, a = S754_zero s /\ b = S754_zero t.
Proof. destruct a, b; cbn; eauto. Qed.

Lemma SFmul_sim a a' c :
  sf_sim a a' -> sf_sim (SFmul prec emax a c) (SFmul prec emax a' c).
Proof.
  intros [->|(s & t & -> & ->)]%sf_sim_inv; [apply sf_sim_refl|].
  by destruct c as [?|?| |? ? ?].
Qed.

Lemma SFadd_sim a a' b b' :
  sf_sim a a' -> sf_sim b b' ->
  sf_sim (SFadd prec emax a b) (SFadd prec emax a' b').
Proof.
  intros [->|(s & t & -> & ->)]%sf_sim_inv [->|(u & v & -> & ->)]%sf_sim_inv.
  - apply sf_sim_refl.
  - destruct a' as [[]|?| |? ? ?], u, v; cbn; done.
  - destruct b' as [[]|?| |? ? ?], s, t; cbn; done.
  - by destruct s, t, u, v.
Qed.

Lemma SFeqb_sim a b : sf_sim a b -> sf_nonneg a -> SFeqb a b = true.
Proof.
  intros [<-|(s & t & -> & ->)]%sf_sim_inv Ha; [|done].
  destruct a as [?|[]| |[] m e]; try done.
  unfold SFeqb. cbn [SFcompare].
  by rewrite Z.compare_refl, Pos.compare_cont_refl.
Qed.

Lemma is_count_0 : is_count 0 = true.
Proof. reflexivity. Qed.

(** With a zero quota the clamped difference is the count itself, up to
    the sign of a zero. *)
Lemma quota_zero_survivor x :
  is_count x = true -> sf_sim (Prim2SF (py_max 0 (x - 0))) (Prim2SF x).
Proof.
  intros [Hx Hv]%is_count_sf.
  unfold py_max. cbn [gtb float_arith].
  rewrite FloatAxioms.ltb_spec, Prim2SF_0.
  assert (Hsub : Prim2SF (x - 0) = Prim2SF x).
  { rewrite FloatAxioms.sub_spec, Prim2SF_0. by destruct (Prim2SF x) as [[]|?| |? ? ?]. }
  rewrite Hsub.
  destruct (Prim2SF x) as [[]|?| |[] m e] eqn:E; try done; cbn; rewrite ?Hsub, ?E; done.
Qed.

(** With a zero rate the product is the count itself, up to the sign of a
    zero. *)
Lemma rate_zero_survivor x :
  is_count x = true -> sf_sim (Prim2SF (x * (1 - 0))) (Prim2SF x).
Proof.
  intros [Hx Hv]%is_count_sf.
  change (1 - 0) with 1. rewrite FloatAxioms.mul_spec, Prim2SF_1. unfold SF64mul.
  destruct (Prim2SF x) as [?|?| |[] m e]; try done.
  cbn [valid_binary] in Hv. unfold sf_one. rewrite SFmul_one by done.
  apply sf_sim_refl.
Qed.

Lemma sf_sim_trans_l a b c : sf_sim a c -> sf_sim b c -> sf_sim a b.
Proof. destruct a, b, c; cbn; intros; try done; congruence. Qed.

Lemma zero_harvest_survivors_sim mode mode' p :
  In mode MODES -> In mode' MODES -> float_stage p ->
  sf_sim3 (Harvesting.survivors mode p 0 0 0) (Harvesting.survivors mode' p 0 0 0).
Proof.
  intros Hm Hm' (H0 & H1 & H2).
  assert (Hall : forall m, In m MODES -> sf_sim3 (Harvesting.survivors m p 0 0 0) p).
  { intros m [<-|[<-|[<-|[]]]]; repeat split;
      cbn [Harvesting.survivors CONSTANT_QUOTA PROPORTIONAL SELECTIVE String.eqb
           Ascii.eqb Bool.eqb ix0 ix1 ix2 np_scale];
      first [by apply quota_zero_survivor | by apply rate_zero_survivor]. }
  destruct (Hall mode Hm) as (A0 & A1 & A2), (Hall mode' Hm') as (B0 & B1 & B2).
  repeat split; eapply sf_sim_trans_l; eassumption.
Qed.

Lemma fmul_sim (a a' c : float) :
  sf_sim (Prim2SF a) (Prim2SF a') -> sf_sim (Prim2SF (a * c)) (Prim2SF (a' * c)).
Proof. intros Ha. rewrite !FloatAxioms.mul_spec. by apply SFmul_sim. Qed.

Lemma fadd_sim (a a' b b' : float) :
  sf_sim (Prim2SF a) (Prim2SF a') -> sf_sim (Prim2SF b) (Prim2SF b') ->
  sf_sim (Prim2SF (a + b)) (Prim2SF (a' + b')).
Proof. intros Ha Hb. rewrite !FloatAxioms.add_spec. by apply SFadd_sim. Qed.

Lemma zero_harvest_in_range mode : In mode MODES -> float_in_range mode 0 0 0.
Proof. by intros [<-|[<-|[<-|[]]]]. Qed.

Lemma next_pop_progression {num : Type} `{Arith num} `{BioParams num}
    (mode : string) (p : array3 num) (val_j val_s val_a : num) :
  Harvesting.next_pop mode p val_j val_s val_a =
  progression (Harvesting.survivors mode p val_j val_s val_a).
Proof. reflexivity. Qed.

(** The transition respects [==] on survivors, where its result is no NaN. *)
Lemma progression_float_eq (sv sv' : array3 float) :
  sf_sim3 sv sv' -> float_nonneg (progression sv) ->
  float_eq (progression sv) (progression sv').
Proof.
  intros (S0 & S1 & S2) (N0 & N1 & N2).
  rewrite leb_0_nonneg in N0, N1, N2.
  unfold float_eq, progression in *.
  cbn [ix0 ix1 ix2 add mul float_arith F_J F_S F_A S_J_to_S S_S_to_A S_A_surv
       float_params] in *.
  rewrite !FloatAxioms.eqb_spec.
  repeat split; (apply SFeqb_sim; [|done]);
    repeat apply fadd_sim; by apply fmul_sim.
Qed.

Lemma zero_harvest_survivors_self mode p :
  In mode MODES -> float_stage p ->
  sf_sim3 (Harvesting.survivors mode p 0 0 0) p.
Proof.
  intros [<-|[<-|[<-|[]]]] (H0 & H1 & H2); repeat split;
    cbn [Harvesting.survivors CONSTANT_QUOTA PROPORTIONAL SELECTIVE String.eqb
         Ascii.eqb Bool.eqb ix0 ix1 ix2 np_scale];
    first [by apply quota_zero_survivor | by apply rate_zero_survivor].
Qed.

(** Zero harvest in binary64: each mode gives the transition of the
    unharvested population, and any two modes give the same vector. *)
Lemma zero_harvest_float mode mode' p :
  In mode MODES -> In mode' MODES -> float_stage p ->
  float_eq (Harvesting.next_pop mode p 0 0 0) (progression p) /\
  float_eq (Harvesting.next_pop mode p 0 0 0) (Harvesting.next_pop mode' p 0 0 0).
Proof.
  intros Hm Hm' Hp.
  pose proof (next_pop_float_nonneg mode p 0 0 0 Hp (zero_harvest_in_range mode Hm))
    as Hnn.
  rewrite !next_pop_progression in *.
  split; apply progression_float_eq; try done.
  - by apply zero_harvest_survivors_self.
  - by apply zero_harvest_survivors_sim.
Qed.
(** Outside the data model: an infinite count makes the juvenile term
    [inf * F_J], that is [inf * 0.0], a NaN, which does not compare
    [>= 0]. *)
Example infinite_count_gives_nan :
  (0 <=? ix0 (Harvesting.next_pop CONSTANT_QUOTA (Array3 infinity 0 0) 0 0 0))
  = false.
Proof. reflexivity. Qed.
End Binary64Engine.

(** ** The transition in exact arithmetic *)
Section Exact.
Implicit Types (p : array3 Q) (self : Realtime.SimulationState Q).
Local Open Scope Q_scope.

Import Realtime.

(** Python's [max(0, x)] is the larger of [0] and [x]. *)
Lemma py_max_Qmax (x : Q) : py_max 0 x == Qmax 0 x.
Proof.
  unfold py_max; cbn [gtb Q_arith].
  destruct (Qle_bool x 0) eqn:E; cbn [negb].
  - apply Qle_bool_iff in E. symmetry. by apply Q.max_l.
  - assert (~ x <= 0) as Hx.
    { intros Hle. apply Qle_bool_iff in Hle. congruence. }
    symmetry. apply Q.max_r. lra.
Qed.

Lemma py_max_nonneg (x : Q) : 0 <= py_max 0 x.
Proof. rewrite py_max_Qmax. apply Q.le_max_l. Qed.

Lemma py_max_id (x : Q) : 0 <= x -> py_max 0 x == x.
Proof. intros Hx. rewrite py_max_Qmax. by apply Q.max_r. Qed.

Lemma survivors_nonneg mode p (val_j val_s val_a : Q) :
  nonneg p -> in_range mode val_j val_s val_a ->
  nonneg (Harvesting.survivors mode p val_j val_s val_a).
Proof.
  intros (H0 & H1 & H2) Hr.
  unfold Harvesting.survivors, in_range, CONSTANT_QUOTA, PROPORTIONAL, SELECTIVE in *.
  destruct (String.eqb mode "Constant Quota").
  { repeat split; apply py_max_nonneg. }
  destruct (String.eqb mode "Proportional (Uniform)").
  { destruct Hr as (Hj & _). unfold nonneg; cbn.
    repeat split; apply Qmult_le_0_compat; lra. }
  destruct (String.eqb mode "Selective (Age-Specific)").
  { destruct Hr as (Hj & Hs & Ha). unfold nonneg; cbn.
    repeat split; apply Qmult_le_0_compat; lra. }
  unfold nonneg; cbn. lra.
Qed.

(** Non-negativity in exact arithmetic. *)
Lemma next_pop_nonneg mode p (val_j val_s val_a : Q) :
  nonneg p -> in_range mode val_j val_s val_a ->
  nonneg (Harvesting.next_pop mode p val_j val_s val_a).
Proof.
  intros Hp Hr.
  destruct (survivors_nonneg mode _ _ _ _ Hp Hr) as (H0 & H1 & H2).
  unfold Harvesting.next_pop. cbv zeta.
  set (sv := Harvesting.survivors mode p val_j val_s val_a) in *.
  unfold nonneg; cbn [ix0 ix1 ix2 add mul Q_arith F_J F_S F_A S_J_to_S S_S_to_A
                      S_A_surv Q_params].
  repeat split.
  - assert (0 <= ix0 sv * 0.0) by (apply Qmult_le_0_compat; lra).
    assert (0 <= ix1 sv * 0.8) by (apply Qmult_le_0_compat; lra).
    assert (0 <= ix2 sv * 2.5) by (apply Qmult_le_0_compat; lra).
    lra.
  - apply Qmult_le_0_compat; lra.
  - assert (0 <= ix1 sv * 0.7) by (apply Qmult_le_0_compat; lra).
    assert (0 <= ix2 sv * 0.8) by (apply Qmult_le_0_compat; lra).
    lra.
Qed.

(** With every harvest parameter 0 the survivors are the stage vector
    itself, in each of the three modes. *)
Lemma zero_harvest_survivors mode p :
  nonneg p -> In mode MODES ->
  same_pop (Harvesting.survivors mode p 0 0 0) p.
Proof.
  intros (H0 & H1 & H2) Hm.
  assert (Hq : forall x, 0 <= x -> py_max 0 (x - 0) == x).
  { intros x Hx. rewrite py_max_id; lra. }
  destruct Hm as [<-|[<-|[<-|[]]]]; unfold same_pop; cbn;
    rewrite ?Hq by done; repeat split; lra.
Qed.

(** The transition respects [==] on survivors. *)
Lemma progression_same_pop (sv sv' : array3 Q) :
  same_pop sv sv' -> same_pop (progression sv) (progression sv').
Proof.
  intros (E0 & E1 & E2). unfold same_pop, progression; cbn.
  rewrite E0, E1, E2. by repeat split.
Qed.

Lemma same_pop_trans_l (a b c : array3 Q) :
  same_pop a c -> same_pop b c -> same_pop a b.
Proof.
  intros (A0 & A1 & A2) (B0 & B1 & B2). unfold same_pop.
  rewrite A0, A1, A2, B0, B1, B2. by repeat split.
Qed.

(** Zero harvest in exact arithmetic: each mode gives the transition of
    the unharvested population, and any two modes give the same vector. *)
Lemma zero_harvest_exact mode mode' p :
  In mode MODES -> In mode' MODES -> nonneg p ->
  same_pop (Harvesting.next_pop mode p 0 0 0) (progression p) /\
  same_pop (Harvesting.next_pop mode p 0 0 0) (Harvesting.next_pop mode' p 0 0 0).
Proof.
  intros Hm Hm' Hp.
  assert (Hall : forall m, In m MODES ->
            same_pop (Harvesting.next_pop m p 0 0 0) (progression p)).
  { intros m Hin. rewrite next_pop_progression.
    by apply progression_same_pop, zero_harvest_survivors. }
  split; [by apply Hall|].
  eapply same_pop_trans_l; by apply Hall.
Qed.

(** Outside the data model the three modes part: on a negative count the
    quota clamps at zero, while a rate of zero leaves the count as it is. *)
Example zero_harvest_negative_count :
  let p := Array3 (-1) 0 0 in
  ix1 (Harvesting.next_pop CONSTANT_QUOTA p 0 0 0) == 0 /\
  ix1 (Harvesting.next_pop PROPORTIONAL p 0 0 0) == -(1/2).
Proof. split; vm_compute; reflexivity. Qed.
End Exact.

(** ** Claims read on both carriers: the order laws *)
Section OrderLaws.
Import Realtime.

Lemma modes_all : In CONSTANT_QUOTA MODES /\ In PROPORTIONAL MODES /\ In SELECTIVE MODES.
Proof. cbn. tauto. Qed.

(** C4 (as amended).  Non-negativity.  From a stage vector with three
    finite, non-negative components, in any mode and with harvest
    parameters in the range of that mode (non-negative quotas; rates in
    [0, 1]), one transition gives a vector whose three components are
    [>= 0], in the loop body of [run_simulation] and in [step]: in
    binary64, where finiteness is a hypothesis of its own and the result
    compares [>= 0] and is therefore no NaN; and in exact arithmetic, where
    every number is finite. *)
Theorem step_preserves_nonneg (mode : string)
    (fself : SimulationState float) (fj fs fa : float)
    (self : SimulationState Q) (val_j val_s val_a : Q) :
  (float_stage (current_pop fself) -> float_in_range mode fj fs fa ->
   float_nonneg (Harvesting.next_pop mode (current_pop fself) fj fs fa) /\
   float_nonneg (current_pop (step fself fj fs fa mode))) /\
  (nonneg (current_pop self) -> in_range mode val_j val_s val_a ->
   nonneg (Harvesting.next_pop mode (current_pop self) val_j val_s val_a) /\
   nonneg (current_pop (step self val_j val_s val_a mode))).
Proof.
  split; intros Hp Hr; rewrite step_current_pop.
  - split; by apply next_pop_float_nonneg.
  - split; by apply next_pop_nonneg.
Qed.

(** The theorem above at the initial population, in Selective mode with
    rates 0.1, 0.2 and 0.3. *)
Lemma step_preserves_nonneg_witness :
  float_nonneg (current_pop (step init 0.1 0.2 0.3 SELECTIVE))%float /\
  nonneg (current_pop (step init 0.1 0.2 0.3 SELECTIVE))%Q.
Proof.
  destruct (step_preserves_nonneg SELECTIVE init 0.1%float 0.2%float 0.3%float
              init 0.1%Q 0.2%Q 0.3%Q) as [Hf Hq].
  split.
  - apply Hf; repeat split; reflexivity.
  - apply Hq; [unfold nonneg | unfold in_range]; cbn; lra.
Defined.

(** C7 (as amended).  Mode equivalence at zero harvest.  For every stage
    vector with three finite, non-negative components and all harvest
    parameters 0, Constant Quota, Proportional and Selective give next
    vectors that are equal component by component, each the transition of
    the unharvested population, in the loop body of [run_simulation] and in
    [step]: in binary64 under [==] (the vectors are the same up to the sign
    of a zero); and in exact arithmetic. *)
Theorem zero_harvest_modes_agree
    (fself : SimulationState float) (self : SimulationState Q) :
  (float_stage (current_pop fself) ->
   let p := current_pop fself in
   (float_eq (Harvesting.next_pop CONSTANT_QUOTA p 0 0 0) (progression p) /\
    float_eq (Harvesting.next_pop PROPORTIONAL p 0 0 0) (progression p) /\
    float_eq (Harvesting.next_pop SELECTIVE p 0 0 0) (progression p)) /\
   (float_eq (current_pop (step fself 0 0 0 CONSTANT_QUOTA))
             (current_pop (step fself 0 0 0 PROPORTIONAL)) /\
    float_eq (current_pop (step fself 0 0 0 PROPORTIONAL))
             (current_pop (step fself 0 0 0 SELECTIVE)) /\
    float_eq (current_pop (step fself 0 0 0 CONSTANT_QUOTA))
             (current_pop (step fself 0 0 0 SELECTIVE))))%float /\
  (nonneg (current_pop self) ->
   let p := current_pop self in
   (same_pop (Harvesting.next_pop CONSTANT_QUOTA p 0 0 0) (progression p) /\
    same_pop (Harvesting.next_pop PROPORTIONAL p 0 0 0) (progression p) /\
    same_pop (Harvesting.next_pop SELECTIVE p 0 0 0) (progression p)) /\
   (same_pop (current_pop (step self 0 0 0 CONSTANT_QUOTA))
             (current_pop (step self 0 0 0 PROPORTIONAL)) /\
    same_pop (current_pop (step self 0 0 0 PROPORTIONAL))
             (current_pop (step self 0 0 0 SELECTIVE)) /\
    same_pop (current_pop (step self 0 0 0 CONSTANT_QUOTA))
             (current_pop (step self 0 0 0 SELECTIVE))))%Q.
Proof.
  destruct modes_all as (Mq & Mp & Ms).
  split; intros Hp; cbv zeta; rewrite !step_current_pop.
  - split; [split; [|split]|split; [|split]];
      by apply (zero_harvest_float _ CONSTANT_QUOTA) ||
         by apply (zero_harvest_float _ PROPORTIONAL) ||
         by apply (zero_harvest_float _ SELECTIVE).
  - split; [split; [|split]|split; [|split]];
      by apply (zero_harvest_exact _ CONSTANT_QUOTA) ||
         by apply (zero_harvest_exact _ PROPORTIONAL) ||
         by apply (zero_harvest_exact _ SELECTIVE).
Qed.

(** The theorem above at the initial population. *)
Lemma zero_harvest_modes_agree_witness :
  (float_eq (current_pop (step init 0 0 0 CONSTANT_QUOTA))
            (current_pop (step init 0 0 0 SELECTIVE)))%float /\
  (same_pop (current_pop (step init 0 0 0 CONSTANT_QUOTA))
            (current_pop (step init 0 0 0 SELECTIVE)))%Q.
Proof.
  destruct (zero_harvest_modes_agree init init) as [Hf Hq].
  split.
  - apply Hf; repeat split; reflexivity.
  - apply Hq. unfold nonneg; cbn. lra.
Defined.
End OrderLaws.

(** ** Claims read on both carriers: the concrete scenarios *)
Section Scenarios.
Import Realtime.

(** C5.  Selective mode, zero harvest, one step from (1000, 500, 200) with
    F = (0, 0.8, 2.5), S_J_to_S = 0.5, S_S_to_A = 0.7, S_A_surv = 0.8: the
    survivors are (1000, 500, 200) and the next vector is (900, 500, 510);
    in binary64 exactly as the code computes it, in the loop body of
    [run_simulation] and in [step], and in exact arithmetic. *)
Theorem selective_zero_harvest_scenario :
  (let p : array3 float := Array3 1000 500 200 in
   INITIAL_POP = p /\
   (F_J, F_S, F_A) = (0, 0.8, 2.5) /\
   (S_J_to_S, S_S_to_A, S_A_surv) = (0.5, 0.7, 0.8) /\
   Harvesting.survivors SELECTIVE p 0 0 0 = Array3 1000 500 200 /\
   Realtime.survivors SELECTIVE p 0 0 0 = Array3 1000 500 200 /\
   Harvesting.next_pop SELECTIVE p 0 0 0 = Array3 900 500 510 /\
   current_pop (step init 0 0 0 SELECTIVE) = Array3 900 500 510)%float /\
  (let p : array3 Q := Array3 1000 500 200 in
   same_pop (Harvesting.survivors SELECTIVE p 0 0 0) (Array3 1000 500 200) /\
   same_pop (Harvesting.next_pop SELECTIVE p 0 0 0) (Array3 900 500 510) /\
   same_pop (current_pop (step init 0 0 0 SELECTIVE)) (Array3 900 500 510))%Q.
Proof.
  split.
  - cbv zeta. repeat split; vm_compute; reflexivity.
  - cbv zeta. unfold same_pop. repeat split; vm_compute; reflexivity.
Qed.

(** C6.  Constant Quota.  Component [k] of the survivors is
    [max(0, stage[k] - harvest_params[k])], from slot [k] alone: as
    Python's [max] on either carrier, and as the larger of the two numbers
    in exact arithmetic.  One step from (1000, 500, 200) with quotas
    (100, 0, 0) leaves the survivors (900, 500, 200) and gives the next
    vector (900, 450, 510), in binary64 and in exact arithmetic. *)
Theorem constant_quota_survivors_and_scenario
    (pf : array3 float) (fj fs fa : float) (pq : array3 Q) (qj qs qa : Q) :
  (Harvesting.survivors CONSTANT_QUOTA pf fj fs fa =
     Array3 (py_max 0 (ix0 pf - fj)) (py_max 0 (ix1 pf - fs))
            (py_max 0 (ix2 pf - fa)) /\
   Realtime.survivors CONSTANT_QUOTA pf fj fs fa =
     Array3 (py_max 0 (ix0 pf - fj)) (py_max 0 (ix1 pf - fs))
            (py_max 0 (ix2 pf - fa)))%float /\
  (same_pop (Harvesting.survivors CONSTANT_QUOTA pq qj qs qa)
     (Array3 (Qmax 0 (ix0 pq - qj)) (Qmax 0 (ix1 pq - qs)) (Qmax 0 (ix2 pq - qa))) /\
   same_pop (Realtime.survivors CONSTANT_QUOTA pq qj qs qa)
     (Array3 (Qmax 0 (ix0 pq - qj)) (Qmax 0 (ix1 pq - qs)) (Qmax 0 (ix2 pq - qa))))%Q /\
  (let p : array3 float := Array3 1000 500 200 in
   Harvesting.survivors CONSTANT_QUOTA p 100 0 0 = Array3 900 500 200 /\
   Harvesting.next_pop CONSTANT_QUOTA p 100 0 0 = Array3 900 450 510 /\
   current_pop (step init 100 0 0 CONSTANT_QUOTA) = Array3 900 450 510)%float /\
  (let p : array3 Q := Array3 1000 500 200 in
   same_pop (Harvesting.survivors CONSTANT_QUOTA p 100 0 0) (Array3 900 500 200) /\
   same_pop (Harvesting.next_pop CONSTANT_QUOTA p 100 0 0) (Array3 900 450 510) /\
   same_pop (current_pop (step init 100 0 0 CONSTANT_QUOTA)) (Array3 900 450 510))%Q.
Proof.
  split; [|split; [|split]].
  - split; reflexivity.
  - unfold same_pop, Harvesting.survivors, Realtime.survivors.
    cbn [CONSTANT_QUOTA String.eqb Ascii.eqb Bool.eqb ix0 ix1 ix2].
    repeat split; apply py_max_Qmax.
  - cbv zeta. repeat split; vm_compute; reflexivity.
  - cbv zeta. unfold same_pop. repeat split; vm_compute; reflexivity.
Qed.
End Scenarios.

(** ** The totals, on both carriers *)
Section Totals.
Import Realtime.

(** C10.  Total-population identity.  In every state the incremental
    driver reaches from a reset, by steps with any arguments and modes,
    every position [t] up to the number of steps holds an entry, and the
    total stored at [t] is the sum of the three stage values stored at
    [t]: [(j + s) + a] in binary64, the three added from first to last, and
    [j + s + a] in exact arithmetic.  The list of totals is as long as the
    lists of stage values, and at position 0 the total is the sum of the
    initial vector, 1700.  The same holds of the batch totals drawn from
    the rows of [run_simulation]. *)
Theorem total_is_sum_of_stages
    (fself : SimulationState float) (fks : list (tick float))
    (fj fs fa : float) (fmode : string)
    (self : SimulationState Q) (ks : list (tick Q))
    (val_j val_s val_a : Q) (mode : string) :
  (let st := steps (reset fself) fks in
   let data := Harvesting.run_simulation fj fs fa fmode in
   (forall t : nat, (t <= length fks)%nat ->
      exists row, entry st t = Some (t, row) /\
        history_tot st !! t = Some (ix0 row + ix1 row + ix2 row)) /\
   length (history_tot st) = length (history_j st) /\
   history_tot st !! 0%nat = Some 1700 /\
   (forall t : nat, (t <= YEARS)%nat ->
      exists row, data !! t = Some row /\
        Harvesting.totals data !! t = Some (ix0 row + ix1 row + ix2 row)) /\
   length (Harvesting.totals data) = length data /\
   Harvesting.totals data !! 0%nat = Some 1700)%float /\
  (let st := steps (reset self) ks in
   let data := Harvesting.run_simulation val_j val_s val_a mode in
   (forall t : nat, (t <= length ks)%nat ->
      exists row, entry st t = Some (t, row) /\
        history_tot st !! t = Some (ix0 row + ix1 row + ix2 row)) /\
   length (history_tot st) = length (history_j st) /\
   (exists tot, history_tot st !! 0%nat = Some tot /\ tot == 1700) /\
   (forall t : nat, (t <= YEARS)%nat ->
      exists row, data !! t = Some row /\
        Harvesting.totals data !! t = Some (ix0 row + ix1 row + ix2 row)) /\
   length (Harvesting.totals data) = length data /\
   (exists tot, Harvesting.totals data !! 0%nat = Some tot /\ tot == 1700))%Q.
Proof.
  assert (Hrow : forall (num : Type) (A : Arith num) (B : BioParams num)
            (vj vs va : num) (m : string) (t : nat), (t <= YEARS)%nat ->
            Harvesting.run_simulation vj vs va m !! t
            = Some (trajectory vj vs va m t)).
  { intros num A B vj vs va m t Ht.
    by rewrite run_simulation_rows, list_lookup_fmap, lookup_seq_lt by lia. }
  assert (Hlen : forall (num : Type) (A : Arith num) (B : BioParams num)
            (st0 : SimulationState num) (l : list (tick num)),
            length (history_tot (steps (reset st0) l))
            = length (history_j (steps (reset st0) l))).
  { intros num A B st0 l.
    destruct (aligned_steps l (reset st0) (aligned_reset st0))
      as (_ & Hj & _ & _ & Ht). by rewrite Hj, Ht. }
  split; cbv zeta.
  - destruct (totals_follow_np_sum fself fks fj fs fa fmode)
      as (Htot & H0 & Hb & Hb0).
    split; [|split; [apply Hlen|split; [exact H0|]]].
    { intros t Ht. destruct (entry_defined fself fks t Ht) as [row Hrowt].
      exists row. split; [done|]. by rewrite Htot, Hrowt. }
    split; [|split; [apply length_fmap|exact Hb0]].
    intros t Ht. exists (trajectory fj fs fa fmode t).
    split; [by apply Hrow|]. by rewrite Hb, Hrow.
  - destruct (totals_follow_np_sum self ks val_j val_s val_a mode)
      as (Htot & H0 & Hb & Hb0).
    split; [|split; [apply Hlen|split]].
    { intros t Ht. destruct (entry_defined self ks t Ht) as [row Hrowt].
      exists row. split; [done|]. by rewrite Htot, Hrowt. }
    { eexists. split; [exact H0|]. reflexivity. }
    split; [|split; [apply length_fmap|]].
    + intros t Ht. exists (trajectory val_j val_s val_a mode t).
      split; [by apply Hrow|]. by rewrite Hb, Hrow.
    + eexists. split; [exact Hb0|]. reflexivity.
Qed.
End Totals.

Lemma total_is_sum_of_stages_witness :
  (exists row : array3 float,
     Realtime.entry (Realtime.step Realtime.init 0.1 0.2 0.3 SELECTIVE) 1%nat
       = Some (1%nat, row) /\
     Realtime.history_tot (Realtime.step Realtime.init 0.1 0.2 0.3 SELECTIVE)
       !! 1%nat = Some (ix0 row + ix1 row + ix2 row))%float.
Proof.
  destruct (total_is_sum_of_stages
              Realtime.init [Realtime.Tick 0.1 0.2 0.3 SELECTIVE]%float
              0%float 0%float 0%float SELECTIVE
              Realtime.init [] 0%Q 0%Q 0%Q SELECTIVE) as [(Hf & _) _].
  apply (Hf 1%nat). cbn. lia.
Defined.

(** ** Run flag and mode strings outside the enumeration *)
Section Deviations.
Import Realtime.
Local Open Scope float_scope.

(** C2, as the specification states it, fails on a running state: the
    driver started by [toggle_play] is paused again by [reset]. *)
Lemma reset_while_running_pauses :
  let running : SimulationState float := toggle_play init in
  is_running running = true /\
  is_running (reset running) = false /\
  is_running (reset running) <> is_running running.
Proof. cbv zeta. repeat split. discriminate. Qed.

Lemma not_a_mode (mode : string) :
  ~ In mode MODES ->
  String.eqb mode "Constant Quota" = false /\
  String.eqb mode "Proportional (Uniform)" = false /\
  String.eqb mode "Selective (Age-Specific)" = false.
Proof.
  intros Hm. repeat split; apply String.eqb_neq; intros ->; apply Hm; cbn; tauto.
Qed.

Lemma unknown_mode_survivors {num : Type} `{Arith num} `{BioParams num}
    (mode : string) (p : array3 num) (val_j val_s val_a : num) :
  ~ In mode MODES -> Harvesting.survivors mode p val_j val_s val_a = np_zeros3.
Proof.
  intros (E1 & E2 & E3)%not_a_mode.
  unfold Harvesting.survivors. by rewrite E1, E2, E3.
Qed.

Lemma unknown_mode_next_pop (mode : string) (p : array3 float)
    (val_j val_s val_a : float) :
  ~ In mode MODES -> Harvesting.next_pop mode p val_j val_s val_a = Array3 0 0 0.
Proof.
  intros Hm. unfold Harvesting.next_pop. cbv zeta.
  rewrite unknown_mode_survivors by done. reflexivity.
Qed.

(** C3, as the specification states it, fails: a string that is none of
    the three labels is not rejected.  Both drivers return, with every
    stage at zero after the first transition. *)
Lemma unknown_mode_accepted :
  ~ In "Bogus"%string MODES /\
  raised (Harvesting.call_run_simulation 0.5 0.5 0.5 "Bogus") = false /\
  raised (call_step init 0.5 0.5 0.5 "Bogus") = false /\
  Harvesting.run_simulation 0.5 0.5 0.5 "Bogus" !! 1%nat = Some (Array3 0 0 0) /\
  current_pop (step init 0.5 0.5 0.5 "Bogus") = Array3 0 0 0.
Proof.
  split.
  - cbn. intros [E|[E|[E|[]]]]; discriminate E.
  - repeat split; vm_compute; reflexivity.
Qed.

(** C3 (as amended).  For a mode string outside the enumeration neither
    [run_simulation] nor [step] raises: no branch of the chain is taken,
    the survivors stay the zeros of [np.zeros(3)] whatever the population
    and the harvest parameters, [step] moves the population to (0, 0, 0),
    and [run_simulation] returns the initial vector followed by [YEARS]
    rows of zeros. *)
Theorem unknown_mode_is_total_harvest (mode : string)
    (self : SimulationState float) (val_j val_s val_a : float) :
  ~ In mode MODES ->
  raised (Harvesting.call_run_simulation val_j val_s val_a mode) = false /\
  raised (call_step self val_j val_s val_a mode) = false /\
  Harvesting.survivors mode (current_pop self) val_j val_s val_a = np_zeros3 /\
  Realtime.survivors mode (current_pop self) val_j val_s val_a = np_zeros3 /\
  current_pop (step self val_j val_s val_a mode) = Array3 0 0 0 /\
  Harvesting.run_simulation val_j val_s val_a mode =
    INITIAL_POP :: replicate YEARS (Array3 0 0 0).
Proof.
  intros Hm.
  do 2 (split; [reflexivity|]).
  split; [by apply unknown_mode_survivors|].
  split; [by apply (unknown_mode_survivors (num:=float))|].
  split; [rewrite step_current_pop; by apply unknown_mode_next_pop|].
  rewrite run_simulation_rows.
  change (seq 0 (S YEARS)) with (0%nat :: seq 1 YEARS).
  rewrite fmap_cons, <- fmap_S_seq, <- list_fmap_compose.
  f_equal.
  rewrite (const_fmap _ (seq 0 YEARS) (Array3 0 0 0)).
  - by rewrite length_seq.
  - intros _ n _. cbn [compose].
    rewrite trajectory_S. by apply unknown_mode_next_pop.
Qed.

(** The theorem above at the string "Bogus". *)
Lemma unknown_mode_is_total_harvest_witness :
  current_pop (step init 0.5 0.5 0.5 "Bogus") = Array3 0 0 0.
Proof.
  apply (unknown_mode_is_total_harvest "Bogus" init 0.5 0.5 0.5).
  cbn. intros [E|[E|[E|[]]]]; discriminate E.
Defined.
(** C4, as the specification states it, fails in binary64 on a state the
    monitor reaches: after 2179 years without harvest the juvenile count
    has overflowed to the infinity, so that the three components are
    [>= 0]; the zero-harvest transition of that vector has a NaN for its
    juveniles ([inf * 0.0], with [F_J = 0.0]), which is not [>= 0]. *)
Lemma nonneg_infinite_count_gives_nan :
  let st := steps init (replicate 2179 (Tick 0 0 0 SELECTIVE)) in
  current_pop st
    = Array3 infinity 6.568422984693001e+307 7.9166555839585401e+307 /\
  float_nonneg (current_pop st) /\
  float_in_range SELECTIVE 0 0 0 /\
  ix0 (current_pop (step st 0 0 0 SELECTIVE)) = nan /\
  ix0 (Harvesting.next_pop SELECTIVE (current_pop st) 0 0 0) = nan /\
  ~ float_nonneg (current_pop (step st 0 0 0 SELECTIVE)) /\
  ~ float_nonneg (Harvesting.next_pop SELECTIVE (current_pop st) 0 0 0).
Proof.
  cbv zeta. unfold init.
  destruct (steps_replicate 0 0 0 SELECTIVE
              {| current_pop := INITIAL_POP; history_j := []; history_s := [];
                 history_a := []; history_tot := []; time := [];
                 is_running := false; year_counter := 0 |} 2179) as [Hp _].
  rewrite step_current_pop, Hp.
  assert (Hv : trajectory 0 0 0 SELECTIVE 2179
               = Array3 infinity 6.568422984693001e+307 7.9166555839585401e+307)
    by (vm_compute; reflexivity).
  rewrite Hv.
  split; [done|]. split; [by repeat split|]. split; [by repeat split|].
  split; [reflexivity|]. split; [reflexivity|].
  split; intros [E _]; discriminate E.
Qed.

(** C7, as the specification states it, fails outside the finite,
    non-negative vectors.  On the vector the monitor holds after 2180
    years without harvest, (nan, inf, 1.09e308), Constant Quota clamps the
    NaN to 0 and gives (inf, 0, inf), where the two rate modes keep it and
    give (nan, nan, inf).  On a negative count, (-1, 0, 0), Constant Quota
    gives (0, 0, 0) and the rate modes (0, -0.5, 0); so too in exact
    arithmetic. *)
Lemma zero_harvest_modes_differ :
  (let st := steps init (replicate 2180 (Tick 0 0 0 SELECTIVE)) in
   let p := current_pop st in
   Harvesting.next_pop CONSTANT_QUOTA p 0 0 0 = Array3 infinity 0 infinity /\
   Harvesting.next_pop PROPORTIONAL p 0 0 0 = Array3 nan nan infinity /\
   Harvesting.next_pop SELECTIVE p 0 0 0 = Array3 nan nan infinity /\
   current_pop (step st 0 0 0 CONSTANT_QUOTA) = Array3 infinity 0 infinity /\
   current_pop (step st 0 0 0 SELECTIVE) = Array3 nan nan infinity /\
   (ix1 (current_pop (step st 0 0 0 CONSTANT_QUOTA))
    =? ix1 (current_pop (step st 0 0 0 SELECTIVE))) = false) /\
  (let p := Array3 (-1) 0 0 in
   Harvesting.next_pop CONSTANT_QUOTA p 0 0 0 = Array3 0 0 0 /\
   Harvesting.next_pop PROPORTIONAL p 0 0 0 = Array3 0 (-0.5) 0 /\
   Harvesting.next_pop SELECTIVE p 0 0 0 = Array3 0 (-0.5) 0 /\
   ~ float_eq (Harvesting.next_pop CONSTANT_QUOTA p 0 0 0)
              (Harvesting.next_pop SELECTIVE p 0 0 0)) /\
  (let p := Array3 (-1) 0 0 in
   ~ same_pop (Harvesting.next_pop CONSTANT_QUOTA p 0 0 0)
              (Harvesting.next_pop SELECTIVE p 0 0 0) /\
   ~ same_pop (Harvesting.next_pop CONSTANT_QUOTA p 0 0 0)
              (Harvesting.next_pop PROPORTIONAL p 0 0 0))%Q.
Proof.
  split; [|split].
  - cbv zeta. unfold init.
    destruct (steps_replicate 0 0 0 SELECTIVE
                {| current_pop := INITIAL_POP; history_j := []; history_s := [];
                   history_a := []; history_tot := []; time := [];
                   is_running := false; year_counter := 0 |} 2180) as [Hp _].
    rewrite !step_current_pop, Hp.
    assert (Hv : trajectory 0 0 0 SELECTIVE 2180
                 = Array3 nan infinity 1.0931220556451932e+308)
      by (vm_compute; reflexivity).
    rewrite Hv. repeat split; reflexivity.
  - cbv zeta. do 3 (split; [reflexivity|]).
    intros (_ & E & _). discriminate E.
  - cbv zeta. split; intros (_ & E & _); vm_compute in E; discriminate E.
Qed.
End Deviations.

(** ** The batch projection, row by row *)
Section BatchRows.
Context {num : Type} `{Arith num} `{BioParams num}.
Implicit Types (self st : Realtime.SimulationState num) (p : array3 num).

Import Realtime.

Lemma trajectory_lookup (val_j val_s val_a : num) (mode : string) (n t : nat) :
  (t < n)%nat ->
  (trajectory val_j val_s val_a mode <$> seq 0 n) !! t
  = Some (trajectory val_j val_s val_a mode t).
Proof.
  intros Ht. by rewrite list_lookup_fmap, lookup_seq_lt.
Qed.

(** X1.  Row 0 of the array [run_simulation] returns is the initial
    population, whatever the arguments, and each row up to the horizon is
    the transition (lines 21-41) of the row before it. *)
Theorem run_simulation_recurrence (val_j val_s val_a : num) (mode : string) (t : nat) :
  (t < YEARS)%nat ->
  let rows := Harvesting.run_simulation val_j val_s val_a mode in
  rows !! 0%nat = Some INITIAL_POP /\
  exists row, rows !! t = Some row /\
    rows !! S t = Some (Harvesting.next_pop mode row val_j val_s val_a).
Proof.
  intros Ht. cbv zeta. rewrite run_simulation_rows.
  split; [by rewrite trajectory_lookup by lia|].
  exists (trajectory val_j val_s val_a mode t).
  by rewrite !trajectory_lookup by lia.
Qed.


Lemma trajectory_uniform (r a b : num) n :
  trajectory r a b PROPORTIONAL n = trajectory r r r SELECTIVE n.
Proof.
  induction n as [|n IH]; [done|].
  by rewrite !trajectory_S, IH.
Qed.

(** X2.  Proportional mode with rate [r] is Selective mode with the three
    rates equal to [r]: [step] gives the same state and [run_simulation]
    the same array, whatever slots 1 and 2 hold in Proportional mode. *)
Theorem proportional_is_uniform_selective self (r a b : num) :
  step self r a b PROPORTIONAL = step self r r r SELECTIVE /\
  Harvesting.run_simulation r a b PROPORTIONAL =
  Harvesting.run_simulation r r r SELECTIVE.
Proof.
  split; [reflexivity|].
  rewrite !run_simulation_rows.
  apply list_fmap_ext. intros _ n _. apply trajectory_uniform.
Qed.
End BatchRows.

Lemma run_simulation_recurrence_witness :
  exists row : array3 float,
    Harvesting.run_simulation 0.1%float 0.2%float 0.3%float SELECTIVE !! 3%nat
      = Some row /\
    Harvesting.run_simulation 0.1%float 0.2%float 0.3%float SELECTIVE !! 4%nat
      = Some (Harvesting.next_pop SELECTIVE row 0.1 0.2 0.3)%float.
Proof.
  apply (run_simulation_recurrence 0.1%float 0.2%float 0.3%float SELECTIVE 3).
  unfold YEARS. lia.
Defined.


(** ** Sessions of the real-time monitor *)
Section Sessions.
Context {num : Type} `{Arith num} `{BioParams num}.
Implicit Types (self st : Realtime.SimulationState num).
Implicit Types (k : Realtime.tick num) (ks : list (Realtime.tick num)).
Implicit Types (evs : list (Monitor.event num)).

Import Realtime Monitor.

Lemma run_snoc st evs e : run st (evs ++ [e]) = handle (run st evs) e.
Proof. unfold run. by rewrite foldl_app. Qed.

Lemma state_eta st :
  {| current_pop := current_pop st; history_j := history_j st;
     history_s := history_s st; history_a := history_a st;
     history_tot := history_tot st; time := time st;
     is_running := is_running st; year_counter := year_counter st |} = st.
Proof. by destruct st. Qed.

Lemma data_flag_eq st st' :
  data st = data st' -> is_running st = is_running st' -> st = st'.
Proof.
  destruct st, st'. unfold data; cbn. intros [= -> -> -> -> -> -> ->] ->. done.
Qed.

Lemma data_step st st' k :
  data st = data st' -> data (step_tick st k) = data (step_tick st' k).
Proof.
  unfold data, step_tick, step; cbn. by intros [= -> -> -> -> -> -> ->].
Qed.

(** X3.  [toggle_play] changes the run flag and nothing else, a second
    call undoes the first, and [step] does the same thing whether the flag
    is on or off. *)
Theorem toggle_play_only_flips_flag st k :
  is_running (toggle_play st) = negb (is_running st) /\
  data (toggle_play st) = data st /\
  toggle_play (toggle_play st) = st /\
  step_tick (toggle_play st) k = toggle_play (step_tick st k) /\
  is_running (step_tick st k) = is_running st.
Proof.
  split; [done|]. split; [done|]. split; [|done].
  apply data_flag_eq; [done|]. cbn. apply negb_involutive.
Qed.

Lemma animate_paused st k :
  is_running st = false ->
  animate st (tick_j k) (tick_s k) (tick_a k) (tick_mode k) = st.
Proof. unfold animate. by intros ->. Qed.

(** X4.  While the driver is paused, as it is at program start and after
    every reset, timer ticks leave [sim_state] as it is, however many
    arrive and whatever the widgets hold. *)
Theorem paused_ticks_ignored st ks :
  is_running st = false ->
  run st (Animate <$> ks) = st /\
  run (reset_sim st) (Animate <$> ks) = reset st.
Proof.
  intros Hp.
  assert (Hgen : forall s, is_running s = false -> run s (Animate <$> ks) = s).
  { induction ks as [|k ks IH]; intros s Hs; [done|].
    cbn. rewrite animate_paused by done. by apply IH. }
  split; by apply Hgen.
Qed.


(** The state of a session is the state [step] alone gives on the ticks
    that counted. *)
Lemma run_tracked evs self :
  let r := foldl track (false, []) evs in
  is_running (run (reset self) evs) = fst r /\
  data (run (reset self) evs) = data (steps (reset self) (snd r)).
Proof.
  induction evs as [|e evs IH] using rev_ind; [done|].
  cbv zeta in *. rewrite run_snoc, foldl_app. cbn [foldl].
  destruct IH as [Hf Hd].
  set (r := foldl track (false, []) evs) in *.
  set (st := run (reset self) evs) in *.
  destruct e as [k| |]; cbn [handle track].
  - unfold animate. rewrite Hf. destruct (fst r) eqn:E; cbn [negb fst snd].
    + split; [by rewrite <- Hf|].
      rewrite steps_snoc. by apply data_step.
    + split; [by rewrite E|done].
  - split; [cbn; by rewrite Hf|]. exact Hd.
  - done.
Qed.

(** X5.  Pausing only delays, and a reset discards.  After any session
    from program start, everything [sim_state] holds but the run flag is
    what [step] alone gives, from a fresh state, on the ticks that arrived
    while running since the last reset; the flag is the one Play/Pause and
    Reset leave. *)
Theorem session_is_steps_on_counted_ticks evs :
  let r := foldl track (false, []) evs in
  is_running (run init evs) = fst r /\
  data (run init evs) = data (steps init (snd r)) /\
  year_counter (run init evs) = length (snd r).
Proof.
  cbv zeta. destruct (run_tracked evs init) as [Hf Hd].
  change (reset init) with (init (num:=num)) in *.
  split; [done|]. split; [done|].
  assert (Hy : year_counter (run init evs)
             = year_counter (steps init (snd (foldl track (false, []) evs)))).
  { unfold data in Hd. by injection Hd. }
  rewrite Hy. unfold init. by rewrite year_counter_steps.
Qed.

Lemma data_fields st st' :
  data st = data st' ->
  current_pop st = current_pop st' /\ year_counter st = year_counter st' /\
  time st = time st' /\ history_j st = history_j st' /\
  history_s st = history_s st' /\ history_a st = history_a st' /\
  history_tot st = history_tot st'.
Proof. unfold data. intros [= -> -> -> -> -> -> ->]. done. Qed.

Lemma data_entry st st' t : data st = data st' -> entry st t = entry st' t.
Proof.
  intros (_ & _ & Ht & Hj & Hs & Ha & _)%data_fields.
  unfold entry. by rewrite Ht, Hj, Hs, Ha.
Qed.

(** The newest entry of the history is the current population. *)
Lemma steps_last_entry ks self :
  entry (steps (reset self) ks) (length ks)
  = Some (length ks, current_pop (steps (reset self) ks)).
Proof.
  induction ks as [|k ks IH] using rev_ind.
  - unfold entry; cbn. by rewrite array3_eta.
  - rewrite steps_snoc, length_app. cbn [length].
    set (st := steps (reset self) ks) in *.
    assert (Hal : aligned st) by apply aligned_steps, aligned_reset.
    assert (Hy : year_counter st = length ks).
    { unfold st. by rewrite year_counter_steps. }
    destruct Hal as (Ht & Hj & Hs & Ha & _). rewrite Hy in *.
    assert (Hlt : length (time st) = S (length ks)) by (by rewrite Ht, length_seq).
    unfold entry, step_tick, step.
    cbn [time history_j history_s history_a current_pop].
    assert (Hmid : forall (A : Type) (l : list A) (x : A),
              length l = S (length ks) -> (l ++ [x]) !! (length ks + 1)%nat = Some x).
    { intros A l x Hl. apply list_lookup_middle. lia. }
    rewrite !Hmid by done.
    rewrite Hy. do 3 f_equal; lia.
Qed.

Lemma steps_totals ks self t :
  history_tot (steps (reset self) ks) !! t
  = (fun e => np_sum (snd e)) <$> entry (steps (reset self) ks) t.
Proof.
  set (st := steps (reset self) ks).
  assert (Hal : aligned st) by apply aligned_steps, aligned_reset.
  assert (Htot : totals_derived st).
  { apply totals_derived_steps; [apply aligned_reset | apply totals_derived_reset]. }
  destruct Hal as (Ht & Hj & Hs & Ha & _).
  unfold entry. rewrite Htot, lookup_zip_with, lookup_zip_with.
  destruct (decide (t < S (year_counter st))%nat) as [Hlt|Hge].
  - rewrite Ht, lookup_seq_lt by done.
    destruct (lookup_lt_is_Some_2 (history_j st) t) as [j ->]; [lia|].
    destruct (lookup_lt_is_Some_2 (history_s st) t) as [s ->]; [lia|].
    destruct (lookup_lt_is_Some_2 (history_a st) t) as [a ->]; [lia|].
    done.
  - rewrite (lookup_ge_None_2 (history_j st)) by lia.
    rewrite (lookup_ge_None_2 (time st)); [done|].
    rewrite Ht, length_seq. lia.
Qed.

(** X6.  In every state a session reaches, resets and pauses included,
    the five lists have one element per year from 0 to [year_counter], the
    times are 0, 1, ..., [year_counter], the newest entry of the history is
    the current population, and each stored total is the sum of the stage
    values stored at its position. *)
Theorem session_keeps_history_consistent evs :
  let st := run init evs in
  time st = seq 0 (S (year_counter st)) /\
  (length (history_j st) = S (year_counter st) /\
   length (history_s st) = S (year_counter st) /\
   length (history_a st) = S (year_counter st) /\
   length (history_tot st) = S (year_counter st)) /\
  entry st (year_counter st) = Some (year_counter st, current_pop st) /\
  (forall t : nat, history_tot st !! t = (fun e => np_sum (snd e)) <$> entry st t).
Proof.
  cbv zeta. destruct (run_tracked evs init) as [_ Hd].
  change (reset init) with (init (num:=num)) in *.
  set (ks := snd (foldl track (false, []) evs)) in *.
  pose proof (data_fields _ _ Hd) as (Hp & Hy & Ht & Hj & Hs & Ha & Htot).
  assert (Hal : aligned (steps init ks)) by apply aligned_steps, aligned_reset.
  destruct Hal as (At & Aj & As & Aa & Atot).
  assert (Hyc : year_counter (steps init ks) = length ks).
  { unfold init. by rewrite year_counter_steps. }
  rewrite Hy, Ht, Hj, Hs, Ha, Htot, Hp.
  split; [done|]. split; [done|]. split.
  - rewrite (data_entry _ _ _ Hd), Hyc. apply steps_last_entry.
  - intros t. rewrite (data_entry _ _ _ Hd). apply steps_totals.
Qed.

Lemma tracked_uniform k evs : forall s,
  (exists m, snd s = replicate m k) -> Forall (carries k) evs ->
  exists n, snd (foldl track s evs) = replicate n k.
Proof.
  induction evs as [|e evs IH]; intros s Hs Hall; [done|].
  apply Forall_cons in Hall as [He Hall]. cbn [foldl].
  apply IH; [|done]. destruct Hs as [m Hm].
  destruct e as [k'| |]; cbn [track carries] in *.
  - subst k'. destruct (fst s); [|by exists m].
    exists (S m). cbn [fst snd]. by rewrite Hm, replicate_S_end.
  - by exists m.
  - by exists 0%nat.
Qed.

(** X7.  The monitor replays the batch projection.  In a session whose
    ticks all carry the same harvest parameters and mode, whatever the
    pauses and resets, every entry recorded up to year [YEARS] is the row
    of [run_simulation] for these arguments at the same index, with that
    index as its time. *)
Theorem monitor_replays_batch (val_j val_s val_a : num) (mode : string) evs (t : nat) :
  Forall (carries (Tick val_j val_s val_a mode)) evs ->
  (t <= year_counter (run init evs))%nat -> (t <= YEARS)%nat ->
  exists row,
    Harvesting.run_simulation val_j val_s val_a mode !! t = Some row /\
    entry (run init evs) t = Some (t, row).
Proof.
  intros Hall Ht Hh.
  destruct (run_tracked evs init) as [_ Hd].
  change (reset init) with (init (num:=num)) in *.
  destruct (tracked_uniform (Tick val_j val_s val_a mode) evs (false, []))
    as [n Hn]; [by exists 0%nat|done|].
  rewrite Hn in Hd.
  pose proof (data_fields _ _ Hd) as (_ & Hy & _).
  rewrite year_counter_steps, length_replicate in Hy.
  change (year_counter init) with 0%nat in Hy. rewrite Hy in Ht.
  exists (trajectory val_j val_s val_a mode t).
  rewrite run_simulation_rows, trajectory_lookup by lia. split; [done|].
  rewrite (data_entry _ _ _ Hd). unfold init.
  rewrite entry_replicate.
  by rewrite lookup_seq_lt by lia.
Qed.

(** X8.  The x-axis window [update_plot] sets is 50 years wide, always
    holds the newest recorded year with 10 years to spare on its right,
    starts at 0 until year 40 and then shows the last 40 recorded years:
    a recorded year is inside the window exactly when it is no more than
    40 years old. *)
Theorem xlim_follows_newest_year evs (t : nat) :
  let st := run init evs in
  let lo := fst (xlim st) in
  let hi := snd (xlim st) in
  (hi = lo + 50 /\ lo <= year_counter st /\ year_counter st + 10 <= hi /\
   last (time st) = Some (year_counter st) /\
   (In t (time st) -> t <= hi /\ (lo <= t <-> year_counter st <= t + 40)))%nat.
Proof.
  cbv zeta. destruct (run_tracked evs init) as [_ Hd].
  change (reset init) with (init (num:=num)) in *.
  pose proof (data_fields _ _ Hd) as (_ & Hy & Ht & _).
  assert (Hal : aligned (steps init (snd (foldl track (false, []) evs))))
    by apply aligned_steps, aligned_reset.
  destruct Hal as (At & _). rewrite <- Hy, <- Ht in At.
  set (st := run init evs) in *.
  unfold xlim. rewrite At.
  destruct (Nat.ltb_spec 40 (year_counter st)); cbn [fst snd].
  - split; [lia|]. split; [lia|]. split; [lia|]. split.
    + by rewrite seq_S, last_snoc.
    + intros Hin%in_seq. lia.
  - split; [lia|]. split; [lia|]. split; [lia|]. split.
    + by rewrite seq_S, last_snoc.
    + intros Hin%in_seq. lia.
Qed.
End Sessions.

Lemma paused_ticks_ignored_witness :
  Monitor.run (Realtime.init (num:=float))
      (Monitor.Animate <$> [Realtime.Tick 0.1%float 0.2%float 0.3%float SELECTIVE;
                            Realtime.Tick 0.5%float 0%float 0%float PROPORTIONAL])
  = Realtime.init.
Proof.
  apply (paused_ticks_ignored Realtime.init). reflexivity.
Defined.


Lemma monitor_replays_batch_witness :
  exists row : array3 float,
    Harvesting.run_simulation 0.1%float 0.2%float 0.3%float SELECTIVE !! 1%nat
      = Some row /\
    Realtime.entry
      (Monitor.run Realtime.init
         [Monitor.TogglePlay;
          Monitor.Animate (Realtime.Tick 0.1%float 0.2%float 0.3%float SELECTIVE);
          Monitor.TogglePlay;
          Monitor.Animate (Realtime.Tick 0.1%float 0.2%float 0.3%float SELECTIVE);
          Monitor.TogglePlay;
          Monitor.Animate (Realtime.Tick 0.1%float 0.2%float 0.3%float SELECTIVE)])
      1%nat = Some (1%nat, row).
Proof.
  apply (monitor_replays_batch 0.1%float 0.2%float 0.3%float SELECTIVE).
  - repeat constructor.
  - cbn. lia.
  - unfold YEARS. lia.
Defined.

Lemma xlim_follows_newest_year_witness :
  let st := Monitor.run (Realtime.init (num:=float))
              [Monitor.TogglePlay;
               Monitor.Animate (Realtime.Tick 0.1%float 0.2%float 0.3%float SELECTIVE);
               Monitor.Animate (Realtime.Tick 0.1%float 0.2%float 0.3%float SELECTIVE)] in
  (1 <= snd (Monitor.xlim st) /\
   (fst (Monitor.xlim st) <= 1 <-> Realtime.year_counter st <= 1 + 40))%nat.
Proof.
  destruct (xlim_follows_newest_year
              [Monitor.TogglePlay;
               Monitor.Animate (Realtime.Tick 0.1%float 0.2%float 0.3%float SELECTIVE);
               Monitor.Animate (Realtime.Tick 0.1%float 0.2%float 0.3%float SELECTIVE)]
              1%nat) as (_ & _ & _ & _ & H).
  apply H. change (In 1%nat (seq 0 3)). apply in_seq. lia.
Defined.

(** ** Extinction, and what harvesting takes *)
Section Extinction64.
Local Open Scope float_scope.
Import Realtime.

Lemma eqb_0_zero x : (x =? 0) = true <-> sf_zero (Prim2SF x).
Proof.
  rewrite FloatAxioms.eqb_spec, Prim2SF_0.
  by destruct (Prim2SF x) as [[]|[]| |[] ? ?].
Qed.

Lemma float_extinct_sf p :
  float_extinct p <->
  sf_zero (Prim2SF (ix0 p)) /\ sf_zero (Prim2SF (ix1 p)) /\ sf_zero (Prim2SF (ix2 p)).
Proof. unfold float_extinct, float_eq; cbn [ix0 ix1 ix2]. by rewrite !eqb_0_zero. Qed.

Lemma quota_survivor_zero x q :
  sf_zero (Prim2SF x) -> (0 <=? q) = true ->
  sf_zero (Prim2SF (py_max 0 (x - q))).
Proof.
  intros Hx Hq%leb_0_nonneg.
  unfold py_max. cbn [gtb float_arith].
  destruct (0 <? x - q) eqn:E; [|by rewrite Prim2SF_0].
  rewrite FloatAxioms.ltb_spec, Prim2SF_0 in E.
  rewrite FloatAxioms.sub_spec in E |- *. unfold SF64sub in *.
  by destruct (Prim2SF x) as [[]|?| |? ? ?]; try done;
    destruct (Prim2SF q) as [[]|[]| |[] ? ?].
Qed.

Lemma rate_survivor_zero x r :
  sf_zero (Prim2SF x) -> is_rate r = true ->
  sf_zero (Prim2SF (x * (1 - r))).
Proof.
  intros Hx (Hr & Hrv & Hle)%is_rate_sf.
  pose proof (SFsub_one_unit _ Hr Hrv Hle) as Hu.
  rewrite FloatAxioms.mul_spec, FloatAxioms.sub_spec, Prim2SF_1.
  unfold SF64mul, SF64sub.
  destruct (Prim2SF x) as [?|?| |? ? ?]; try done.
  by destruct (SFsub _ _ _ _) as [?|?| |[] ? ?].
Qed.

Lemma fmul_zero (s c : float) :
  sf_zero (Prim2SF s) -> sf_fin_nonneg (Prim2SF c) -> sf_zero (Prim2SF (s * c)).
Proof.
  intros Hs Hc. rewrite FloatAxioms.mul_spec. unfold SF64mul.
  destruct (Prim2SF s) as [?|?| |? ? ?]; try done.
  by destruct (Prim2SF c) as [?|?| |[] ? ?].
Qed.

Lemma fadd_zero (a b : float) :
  sf_zero (Prim2SF a) -> sf_zero (Prim2SF b) -> sf_zero (Prim2SF (a + b)).
Proof.
  intros Ha Hb. rewrite FloatAxioms.add_spec. unfold SF64add.
  destruct (Prim2SF a) as [[]|?| |? ? ?]; try done;
    by destruct (Prim2SF b) as [[]|?| |? ? ?].
Qed.

Lemma progression_zero (sv : array3 float) :
  float_extinct sv -> float_extinct (progression sv).
Proof.
  rewrite !float_extinct_sf. intros (H0 & H1 & H2).
  unfold progression.
  cbn [ix0 ix1 ix2 add mul float_arith F_J F_S F_A S_J_to_S S_S_to_A S_A_surv
       float_params].
  repeat split; repeat apply fadd_zero; by apply fmul_zero.
Qed.

Lemma survivors_zero mode p (val_j val_s val_a : float) :
  float_extinct p -> float_in_range mode val_j val_s val_a ->
  float_extinct (Harvesting.survivors mode p val_j val_s val_a).
Proof.
  rewrite !float_extinct_sf. intros (H0 & H1 & H2) Hr.
  unfold Harvesting.survivors, float_in_range, CONSTANT_QUOTA, PROPORTIONAL, SELECTIVE in *.
  destruct (String.eqb mode "Constant Quota").
  { destruct Hr as (Hj & Hs & Ha). repeat split; by apply quota_survivor_zero. }
  destruct (String.eqb mode "Proportional (Uniform)").
  { destruct Hr as (Hj & _). repeat split; by apply rate_survivor_zero. }
  destruct (String.eqb mode "Selective (Age-Specific)").
  { destruct Hr as (Hj & Hs & Ha). repeat split; by apply rate_survivor_zero. }
  by repeat split.
Qed.

Lemma next_pop_extinct mode p (val_j val_s val_a : float) :
  float_extinct p -> float_in_range mode val_j val_s val_a ->
  float_extinct (Harvesting.next_pop mode p val_j val_s val_a).
Proof.
  intros Hp Hr. rewrite next_pop_progression.
  by apply progression_zero, survivors_zero.
Qed.

Lemma steps_extinct ks : forall st : SimulationState float,
  Forall float_tick_in_range ks -> float_extinct (current_pop st) ->
  float_extinct (current_pop (steps st ks)).
Proof.
  induction ks as [|k ks IH]; intros st Hall Hst; [done|].
  apply Forall_cons in Hall as [Hk Hall]. cbn [steps foldl].
  apply IH; [done|]. unfold step_tick. rewrite step_current_pop.
  by apply next_pop_extinct.
Qed.

(** A full harvest, rate 1, leaves no survivor of a finite count. *)
Lemma full_rate_survivor x :
  is_count x = true -> sf_zero (Prim2SF (x * (1 - 1))).
Proof.
  intros [Hx _]%is_count_sf. change (1 - 1) with 0.
  rewrite FloatAxioms.mul_spec, Prim2SF_0. unfold SF64mul.
  by destruct (Prim2SF x) as [?|?| |[] ? ?].
Qed.

Lemma full_rate_extinct p (a b : float) :
  float_stage p ->
  float_extinct (Harvesting.next_pop SELECTIVE p 1 1 1) /\
  float_extinct (Harvesting.next_pop PROPORTIONAL p 1 a b).
Proof.
  intros (H0 & H1 & H2).
  rewrite !next_pop_progression.
  split; apply progression_zero; rewrite float_extinct_sf;
    cbn [Harvesting.survivors CONSTANT_QUOTA PROPORTIONAL SELECTIVE String.eqb
         Ascii.eqb Bool.eqb ix0 ix1 ix2 np_scale];
    repeat split; by apply full_rate_survivor.
Qed.
End Extinction64.

Section ExactDynamics.
Local Open Scope Q_scope.
Import Realtime.
Implicit Types (p : array3 Q).

Lemma survivors_bounds mode p (val_j val_s val_a : Q) :
  nonneg p -> in_range mode val_j val_s val_a ->
  nonneg (Harvesting.survivors mode p val_j val_s val_a) /\
  pop_le (Harvesting.survivors mode p val_j val_s val_a) p.
Proof.
  intros Hp Hr. split; [by apply survivors_nonneg|].
  destruct Hp as (H0 & H1 & H2).
  assert (Hq : forall x q, 0 <= x -> 0 <= q -> py_max 0 (x - q) <= x).
  { intros x q Hx Hq. rewrite py_max_Qmax. apply Q.max_lub; lra. }
  assert (Hm : forall x r, 0 <= x -> 0 <= r <= 1 -> x * (1 - r) <= x).
  { intros x r Hx Hr'. assert (0 <= x * r) by (apply Qmult_le_0_compat; lra). lra. }
  unfold Harvesting.survivors, in_range, CONSTANT_QUOTA, PROPORTIONAL, SELECTIVE in *.
  destruct (String.eqb mode "Constant Quota").
  { destruct Hr as (Hj & Hs & Ha). repeat split; by apply Hq. }
  destruct (String.eqb mode "Proportional (Uniform)").
  { destruct Hr as (Hj & _). unfold pop_le; cbn. repeat split; by apply Hm. }
  destruct (String.eqb mode "Selective (Age-Specific)").
  { destruct Hr as (Hj & Hs & Ha). unfold pop_le; cbn. repeat split; by apply Hm. }
  unfold pop_le; cbn. lra.
Qed.

Lemma progression_mono (sv sv' : array3 Q) :
  pop_le sv sv' -> pop_le (progression sv) (progression sv').
Proof.
  intros (L0 & L1 & L2). unfold pop_le, progression; cbn.
  assert (forall a b c, a <= b -> 0 <= c -> a * c <= b * c) as Hmul.
  { intros a b c Hab Hc. apply Qmult_le_compat_r; done. }
  pose proof (Hmul _ _ 0.0 L0 ltac:(lra)).
  pose proof (Hmul _ _ 0.8 L1 ltac:(lra)).
  pose proof (Hmul _ _ 2.5 L2 ltac:(lra)).
  pose proof (Hmul _ _ 0.5 L0 ltac:(lra)).
  pose proof (Hmul _ _ 0.7 L1 ltac:(lra)).
  pose proof (Hmul _ _ 0.8 L2 ltac:(lra)).
  repeat split; lra.
Qed.

Lemma next_pop_le_progression mode p (val_j val_s val_a : Q) :
  nonneg p -> in_range mode val_j val_s val_a ->
  pop_le (Harvesting.next_pop mode p val_j val_s val_a) (progression p).
Proof.
  intros Hp Hr. rewrite next_pop_progression.
  by apply progression_mono, survivors_bounds.
Qed.

Lemma extinct_nonneg p : extinct p -> nonneg p.
Proof. intros (E0 & E1 & E2). cbn in *. unfold nonneg. lra. Qed.

Lemma next_pop_extinct_exact mode p (val_j val_s val_a : Q) :
  extinct p -> in_range mode val_j val_s val_a ->
  extinct (Harvesting.next_pop mode p val_j val_s val_a).
Proof.
  intros Hp Hr.
  pose proof (extinct_nonneg p Hp) as Hnn.
  pose proof (next_pop_nonneg mode p val_j val_s val_a Hnn Hr) as (N0 & N1 & N2).
  pose proof (next_pop_le_progression mode p val_j val_s val_a Hnn Hr) as (L0 & L1 & L2).
  destruct Hp as (E0 & E1 & E2). cbn [ix0 ix1 ix2] in E0, E1, E2.
  set (q := Harvesting.next_pop mode p val_j val_s val_a) in *.
  unfold progression in L0, L1, L2.
  cbn [ix0 ix1 ix2 add mul Q_arith F_J F_S F_A S_J_to_S S_S_to_A S_A_surv
       Q_params] in L0, L1, L2.
  unfold extinct, same_pop; cbn [ix0 ix1 ix2]. repeat split; lra.
Qed.

Lemma steps_extinct_exact ks : forall st : SimulationState Q,
  Forall tick_in_range ks -> extinct (current_pop st) ->
  extinct (current_pop (steps st ks)).
Proof.
  induction ks as [|k ks IH]; intros st Hall Hst; [done|].
  apply Forall_cons in Hall as [Hk Hall]. cbn [steps foldl].
  apply IH; [done|]. unfold step_tick. rewrite step_current_pop.
  by apply next_pop_extinct_exact.
Qed.

Lemma full_rate_extinct_exact p (a b : Q) :
  extinct (Harvesting.next_pop SELECTIVE p 1 1 1) /\
  extinct (Harvesting.next_pop PROPORTIONAL p 1 a b).
Proof.
  unfold extinct, same_pop; cbn. repeat split; ring.
Qed.

Lemma steps_nonneg ks : forall st : SimulationState Q,
  Forall tick_in_range ks -> nonneg (current_pop st) ->
  nonneg (current_pop (steps st ks)).
Proof.
  induction ks as [|k ks IH]; intros st Hall Hst; [done|].
  apply Forall_cons in Hall as [Hk Hall]. cbn [steps foldl].
  apply IH; [done|]. unfold step_tick. rewrite step_current_pop.
  by apply next_pop_nonneg.
Qed.

Lemma INITIAL_POP_nonneg : nonneg INITIAL_POP.
Proof. unfold nonneg; cbn. lra. Qed.

Lemma trajectory_nonneg (val_j val_s val_a : Q) mode n :
  in_range mode val_j val_s val_a ->
  nonneg (trajectory val_j val_s val_a mode n).
Proof.
  intros Hr. induction n as [|n IH]; [apply INITIAL_POP_nonneg|].
  rewrite trajectory_S. by apply next_pop_nonneg.
Qed.
End ExactDynamics.

(** ** What harvesting does to the population *)
Section Dynamics.
Import Realtime.

(** X9.  Extinction is absorbing.  Once every stage is empty it stays
    empty: whatever the modes and the in-range harvest parameters of the
    following calls of [step], the population is still empty after them;
    in binary64 (empty meaning [== 0] in every stage) and in exact
    arithmetic. *)
Theorem extinction_is_absorbing
    (fself : SimulationState float) (fks : list (tick float))
    (self : SimulationState Q) (ks : list (tick Q)) :
  (float_extinct (current_pop fself) -> Forall float_tick_in_range fks ->
   float_extinct (current_pop (steps fself fks))) /\
  (extinct (current_pop self) -> Forall tick_in_range ks ->
   extinct (current_pop (steps self ks))).
Proof.
  split; intros Hp Hall.
  - by apply steps_extinct.
  - by apply steps_extinct_exact.
Qed.

(** X10.  A full harvest empties the population in one transition: with
    the three rates 1 in Selective mode, or the global rate 1 in
    Proportional mode, the next vector has every stage [== 0]; in binary64
    for finite counts, and in exact arithmetic. *)
Theorem full_harvest_extinguishes
    (fself : SimulationState float) (fa fb : float)
    (self : SimulationState Q) (a b : Q) :
  (float_stage (current_pop fself) ->
   float_extinct (current_pop (step fself 1 1 1 SELECTIVE)) /\
   float_extinct (current_pop (step fself 1 fa fb PROPORTIONAL)))%float /\
  (extinct (current_pop (step self 1 1 1 SELECTIVE)) /\
   extinct (current_pop (step self 1 a b PROPORTIONAL)))%Q.
Proof.
  split.
  - intros Hp. rewrite !step_current_pop. by apply full_rate_extinct.
  - rewrite !step_current_pop. apply full_rate_extinct_exact.
Qed.

(** X11.  Harvesting never adds to the next population.  In exact
    arithmetic, for a stage vector with non-negative components and
    in-range harvest parameters, the survivors lie between 0 and the stage
    counts, and every component of the next vector is at most the one the
    transition gives without harvest. *)
Theorem harvest_never_increases (mode : string) (self : SimulationState Q)
    (val_j val_s val_a : Q) :
  nonneg (current_pop self) -> in_range mode val_j val_s val_a ->
  nonneg (Realtime.survivors mode (current_pop self) val_j val_s val_a) /\
  pop_le (Realtime.survivors mode (current_pop self) val_j val_s val_a)
         (current_pop self) /\
  pop_le (current_pop (step self val_j val_s val_a mode))
         (progression (current_pop self)) /\
  pop_le (Harvesting.next_pop mode (current_pop self) val_j val_s val_a)
         (progression (current_pop self)).
Proof.
  intros Hp Hr. rewrite step_current_pop.
  change (Realtime.survivors mode (current_pop self) val_j val_s val_a)
    with (Harvesting.survivors mode (current_pop self) val_j val_s val_a).
  destruct (survivors_bounds mode _ val_j val_s val_a Hp Hr) as [Hn Hl].
  split; [done|]. split; [done|].
  split; by apply next_pop_le_progression.
Qed.
End Dynamics.

Lemma extinction_is_absorbing_witness :
  (float_extinct
     (Realtime.current_pop
        (Realtime.steps (Realtime.step Realtime.init 1 1 1 SELECTIVE)
                        [Realtime.Tick 0.1 0.2 0.3 SELECTIVE;
                         Realtime.Tick 100 0 0 CONSTANT_QUOTA])))%float.
Proof.
  apply (extinction_is_absorbing
           (Realtime.step Realtime.init 1 1 1 SELECTIVE)%float
           [Realtime.Tick 0.1 0.2 0.3 SELECTIVE;
            Realtime.Tick 100 0 0 CONSTANT_QUOTA]%float
           Realtime.init []).
  - repeat split; reflexivity.
  - repeat constructor; reflexivity.
Defined.

Lemma full_harvest_extinguishes_witness :
  (float_extinct
     (Realtime.current_pop (Realtime.step Realtime.init 1 1 1 SELECTIVE)))%float.
Proof.
  apply (full_harvest_extinguishes Realtime.init 0%float 0%float
           Realtime.init 0%Q 0%Q).
  repeat split; reflexivity.
Defined.

Lemma harvest_never_increases_witness :
  (pop_le (Realtime.current_pop (Realtime.step Realtime.init 0.1 0.2 0.3 SELECTIVE))
          (progression (Realtime.current_pop Realtime.init)))%Q.
Proof.
  apply (harvest_never_increases SELECTIVE Realtime.init 0.1%Q 0.2%Q 0.3%Q).
  - unfold nonneg; cbn. lra.
  - unfold in_range; cbn. lra.
Defined.

(** ** Order of binary64 numbers *)
Section Binary64Order.
Local Open Scope float_scope.

Lemma SFcompare_antisym a b :
  SFcompare b a = option_map CompOpp (SFcompare a b).
Proof.
  destruct a as [[]|[]| |[] ma ea], b as [[]|[]| |[] mb eb]; try reflexivity;
    cbn [SFcompare option_map];
    rewrite (Z.compare_antisym ea eb);
    destruct (ea ?= eb)%Z; cbn [CompOpp]; try reflexivity;
    rewrite (Pos.compare_cont_antisym ma mb Eq); cbn [CompOpp];
    by destruct (Pos.compare_cont Eq ma mb).
Qed.

Lemma SFcompare_refl a : a <> S754_nan -> SFcompare a a = Some Eq.
Proof.
  destruct a as [[]|[]| |[] m e]; try done; intros _; cbn [SFcompare];
    by rewrite Z.compare_refl, Pos.compare_cont_refl.
Qed.

Lemma is_nan_sf x : is_nan x = false <-> Prim2SF x <> S754_nan.
Proof.
  unfold is_nan. rewrite FloatAxioms.eqb_spec. unfold SFeqb.
  destruct (Prim2SF x) as [[]|[]| |[] m e] eqn:E; cbn [SFcompare negb];
    rewrite ?Z.compare_refl, ?Pos.compare_cont_refl; cbn; split; done.
Qed.

Lemma leb_refl x : is_nan x = false -> (x <=? x) = true.
Proof.
  intros Hx%is_nan_sf. rewrite FloatAxioms.leb_spec. unfold SFleb.
  by rewrite SFcompare_refl.
Qed.

Lemma leb_not_nan a b : (a <=? b) = true -> is_nan a = false /\ is_nan b = false.
Proof.
  rewrite FloatAxioms.leb_spec, !is_nan_sf. unfold SFleb.
  by destruct (Prim2SF a) as [[]|[]| |[] ? ?], (Prim2SF b) as [[]|[]| |[] ? ?].
Qed.

(** Two numbers that are no NaN compare one way or the other. *)
Lemma not_ltb_leb a b :
  is_nan a = false -> is_nan b = false -> (a <? b) = false -> (b <=? a) = true.
Proof.
  rewrite !is_nan_sf, FloatAxioms.ltb_spec, FloatAxioms.leb_spec.
  unfold SFltb, SFleb. rewrite (SFcompare_antisym (Prim2SF a) (Prim2SF b)).
  intros Ha Hb.
  destruct (SFcompare (Prim2SF a) (Prim2SF b)) as [[]|] eqn:E; try done.
  by destruct (Prim2SF a) as [[]|[]| |[] ? ?], (Prim2SF b) as [[]|[]| |[] ? ?].
Qed.

Lemma leb_not_ltb a b : (a <=? b) = true -> (b <? a) = false.
Proof.
  rewrite FloatAxioms.ltb_spec, FloatAxioms.leb_spec.
  unfold SFltb, SFleb. rewrite (SFcompare_antisym (Prim2SF a) (Prim2SF b)).
  by destruct (SFcompare (Prim2SF a) (Prim2SF b)) as [[]|].
Qed.

Lemma ltb_leb a b : (a <? b) = true -> (a <=? b) = true.
Proof.
  rewrite FloatAxioms.ltb_spec, FloatAxioms.leb_spec. unfold SFltb, SFleb.
  by destruct (SFcompare (Prim2SF a) (Prim2SF b)) as [[]|].
Qed.

Lemma leb_not_ltb_eqb a b :
  (a <=? b) = true -> (a <? b) = false -> (a =? b) = true.
Proof.
  rewrite FloatAxioms.ltb_spec, FloatAxioms.leb_spec, FloatAxioms.eqb_spec.
  unfold SFltb, SFleb, SFeqb.
  by destruct (SFcompare (Prim2SF a) (Prim2SF b)) as [[]|].
Qed.

Lemma nan_ltb_l x : (nan <? x) = false.
Proof. by rewrite FloatAxioms.ltb_spec. Qed.

Lemma nan_ltb_r x : (x <? nan) = false.
Proof.
  rewrite FloatAxioms.ltb_spec. unfold SFltb.
  by destruct (Prim2SF x) as [[]|[]| |[] ? ?].
Qed.
End Binary64Order.

(** ** The text boxes *)
Section Clamps.
Local Open Scope float_scope.

Lemma harvesting_clamp_between (slider : Slider float) (v : float) :
  is_nan v = false -> (valmin slider <=? valmax slider) = true ->
  float_between (valmin slider)
    (val (HarvestingControls.submit_text false (Returns v) slider))
    (valmax slider).
Proof.
  intros Hv Hb.
  destruct (leb_not_nan _ _ Hb) as [Hlo Hhi].
  unfold HarvestingControls.submit_text, float_between, set_val.
  cbn [val valmin valmax gtb float_arith].
  destruct (v <? valmin slider) eqn:E1.
  - rewrite (leb_not_ltb _ _ Hb). split; [by apply leb_refl|done].
  - destruct (valmax slider <? v) eqn:E2.
    + split; [done|by apply leb_refl].
    + split; by apply not_ltb_leb.
Qed.

Lemma realtime_clamp_between (slider : Slider float) (v : float) :
  (valmin slider <=? valmax slider) = true ->
  float_between (valmin slider)
    (val (RealtimeControls.submit_text false (Returns v) slider))
    (valmax slider).
Proof.
  intros Hb.
  destruct (leb_not_nan _ _ Hb) as [Hlo Hhi].
  unfold RealtimeControls.submit_text, float_between, set_val, py_max, py_min.
  cbn [val valmin valmax gtb float_arith].
  destruct (valmax slider <? v) eqn:E1.
  - destruct (valmin slider <? valmax slider);
      (split; [done || by apply leb_refl | done || by apply leb_refl]).
  - destruct (valmin slider <? v) eqn:E2.
    + split; [by apply ltb_leb|].
      apply not_ltb_leb; [done| |done].
      apply ltb_leb, leb_not_nan in E2. tauto.
    + split; [by apply leb_refl|done].
Qed.
End Clamps.

Section TextBoxes.
Local Open Scope float_scope.

(** X12.  [submit_text] of [harvesting.py] stores a value between the
    slider's bounds.  For a text that parses to a number that is no NaN
    and a slider with [valmin <= valmax], the stored value [v'] satisfies
    [valmin <= v' <= valmax], it is the parsed number itself when that is
    within the bounds, and the bounds are kept.  While
    [updating_from_slider] is set, or when the text does not parse, the
    slider is left as it is. *)
Theorem harvesting_submit_text_clamps (slider : Slider float) (v : float) :
  is_nan v = false -> (valmin slider <=? valmax slider) = true ->
  let s' := HarvestingControls.submit_text false (Returns v) slider in
  float_between (valmin slider) (val s') (valmax slider) /\
  (float_between (valmin slider) v (valmax slider) -> val s' = v) /\
  valmin s' = valmin slider /\ valmax s' = valmax slider /\
  (forall parsed, HarvestingControls.submit_text true parsed slider = slider) /\
  (forall exc, HarvestingControls.submit_text false (Raises exc) slider = slider).
Proof.
  intros Hv Hb. cbv zeta.
  split; [by apply harvesting_clamp_between|].
  unfold HarvestingControls.submit_text, float_between, set_val.
  cbn [val valmin valmax gtb float_arith].
  split; [|done].
  intros [H1 H2].
  by rewrite (leb_not_ltb _ _ H1), (leb_not_ltb _ _ H2).
Qed.

(** X13.  [submit_text] of [realtime_simulation.py] stores a value between
    the slider's bounds for every text that parses, a NaN included: for a
    slider with [valmin <= valmax] the stored value [v'] satisfies
    [valmin <= v' <= valmax], it compares [==] to the parsed number when
    that is within the bounds, and a NaN stores [valmin]. *)
Theorem realtime_submit_text_clamps (slider : Slider float) (v : float) :
  (valmin slider <=? valmax slider) = true ->
  let s' := RealtimeControls.submit_text false (Returns v) slider in
  float_between (valmin slider) (val s') (valmax slider) /\
  (float_between (valmin slider) v (valmax slider) -> (val s' =? v) = true) /\
  (is_nan v = true -> val s' = valmin slider) /\
  valmin s' = valmin slider /\ valmax s' = valmax slider.
Proof.
  intros Hb. cbv zeta.
  destruct (leb_not_nan _ _ Hb) as [Hlo Hhi].
  split; [by apply realtime_clamp_between|].
  unfold RealtimeControls.submit_text, float_between, set_val, py_max, py_min.
  cbn [val valmin valmax gtb float_arith].
  split; [|split; [|done]].
  - intros [H1 H2]. rewrite (leb_not_ltb _ _ H2).
    destruct (valmin slider <? v) eqn:E2.
    + destruct (leb_not_nan _ _ H1) as [_ Hv]. unfold is_nan in Hv.
      by apply negb_false_iff in Hv.
    + by apply leb_not_ltb_eqb.
  - intros Hnan.
    assert (Prim2SF v = S754_nan) as Hsf.
    { destruct (Prim2SF v) eqn:E; try done;
        assert (is_nan v = false) by (apply is_nan_sf; congruence); congruence. }
    rewrite !FloatAxioms.ltb_spec, Hsf. unfold SFltb.
    destruct (Prim2SF (valmax slider)) as [[]|[]| |[] ? ?]; cbn [SFcompare];
      rewrite ?FloatAxioms.ltb_spec, ?Hsf; unfold SFltb;
      by destruct (Prim2SF (valmin slider)) as [[]|[]| |[] ? ?].
Qed.

(** X14.  [submit_text] of [harvesting.py] does not clamp a NaN: the text
    "nan" parses, neither [val < slider.valmin] nor [val > slider.valmax]
    holds, and the number it hands to [slider.set_val] is the NaN itself,
    whatever the bounds; [submit_text] of [realtime_simulation.py] hands
    over [slider.valmin] instead.  [run_simulation] called with a NaN for
    its first rate in Selective mode returns (nan, nan, 510) for year 1
    and NaN in every stage from year 2 on. *)
Theorem harvesting_submit_text_passes_nan (slider : Slider float) (v : float) :
  HarvestingControls.submit_text false (Returns v) slider
    = set_val slider (HarvestingControls.clamped v slider) /\
  RealtimeControls.submit_text false (Returns v) slider
    = set_val slider (RealtimeControls.clamped v slider) /\
  HarvestingControls.clamped nan slider = nan /\
  ~ float_between (valmin slider) (HarvestingControls.clamped nan slider)
                  (valmax slider) /\
  RealtimeControls.clamped nan slider = valmin slider /\
  Harvesting.run_simulation nan 0 0 SELECTIVE
  = INITIAL_POP :: Array3 nan nan 510 :: replicate 49 (Array3 nan nan nan).
Proof.
  split; [reflexivity|]. split; [reflexivity|].
  assert (Hc : HarvestingControls.clamped nan slider = nan).
  { unfold HarvestingControls.clamped. cbn [gtb float_arith].
    by rewrite nan_ltb_l, nan_ltb_r. }
  split; [done|]. split; [|split].
  - rewrite Hc. intros [_ H]. apply leb_not_nan in H. by destruct H.
  - unfold RealtimeControls.clamped, py_max, py_min. cbn [gtb float_arith].
    by rewrite nan_ltb_r, nan_ltb_r.
  - vm_compute. reflexivity.
Qed.
End TextBoxes.

Lemma harvesting_submit_text_clamps_witness :
  let slider := {| val := 0.25; valmin := 0; valmax := 1 |}%float in
  float_between 0 (val (HarvestingControls.submit_text false (Returns 7.5%float)
                          slider)) 1.
Proof.
  apply (harvesting_submit_text_clamps
           {| val := 0.25; valmin := 0; valmax := 1 |}%float 7.5%float);
    reflexivity.
Defined.

Lemma realtime_submit_text_clamps_witness :
  let slider := {| val := 0; valmin := 0; valmax := 800 |}%float in
  float_between 0 (val (RealtimeControls.submit_text false (Returns nan) slider))
                800.
Proof.
  apply (realtime_submit_text_clamps
           {| val := 0; valmin := 0; valmax := 800 |}%float nan).
  reflexivity.
Defined.

(** ** How fast a population can grow in binary64 *)
Section Binary64Growth.
Local Open Scope Z_scope.

Lemma sf_below_mono k k' x : k <= k' -> sf_below k x -> sf_below k' x.
Proof. destruct x as [s|s| |[] m e]; cbn; try done. lia. Qed.

Lemma sf_below_fin_nonneg k x : sf_below k x -> sf_fin_nonneg x.
Proof. by destruct x as [s|s| |[] m e]. Qed.

Lemma rounded_below m e1 k :
  0 <= m <= 2 ^ 53 -> e1 <= 970 -> (0 < m -> m < 2 ^ (k - e1)) ->
  sf_below k (rounded m e1).
Proof.
  intros Hm He Hk. unfold rounded.
  destruct (Z.eqb_spec m 0); [done|].
  specialize (Hk ltac:(lia)).
  assert (Hke : 0 <= k - e1).
  { destruct (Z_lt_le_dec (k - e1) 0) as [Hn|]; [|done].
    rewrite Z.pow_neg_r in Hk by done. lia. }
  destruct (Z.ltb_spec m (2 ^ 53)).
  - destruct (Z.leb_spec e1 971); [|lia]. cbn [sf_below].
    assert (Zpos (digits2_pos (Z.to_pos m)) <= k - e1); [|lia].
    apply digits2_le. rewrite Z2Pos.id by lia. done.
  - destruct (Z.leb_spec (e1 + 1) 971); [|lia]. cbn [sf_below].
    assert (m = 2 ^ 53) as -> by lia.
    assert (53 < k - e1); [|change (Zpos (digits2_pos (2 ^ 52))) with 53; lia].
    apply (Z.pow_lt_mono_r_iff 2); [lia|lia|done].
Qed.

(** The result of rounding [d * 2 ^ ez], given the mantissa [m] it is
    rounded to. *)
Lemma rounded_mantissa_below d ez m k :
  let e1 := fexp64 (Zpos (digits2_pos d) + ez) in
  (ez <= e1 -> Zpos d / 2 ^ (e1 - ez) <= m <= Zpos d / 2 ^ (e1 - ez) + 1) ->
  (e1 <= ez -> m = Zpos d * 2 ^ (ez - e1)) ->
  m <= 2 ^ 53 ->
  Zpos (digits2_pos d) + ez <= k -> -1074 <= k <= 1023 ->
  sf_below (k + 1) (rounded m e1).
Proof.
  intros e1 Hal Hsh Hle Hd Hk.
  pose proof (digits2_bounds d) as [Hlo Hhi].
  assert (He1 : e1 <= 970) by (unfold e1, fexp64; lia).
  assert (He1k : e1 <= k) by (unfold e1, fexp64; lia).
  destruct (Z_le_gt_dec ez e1) as [H1|H1].
  - specialize (Hal H1).
    assert (0 <= Zpos d / 2 ^ (e1 - ez)) by (apply Z.div_pos; lia).
    apply rounded_below; [lia|done|]. intros _.
    assert (Zpos d / 2 ^ (e1 - ez) < 2 ^ (k - e1)); [|
      replace (k + 1 - e1) with (Z.succ (k - e1)) by lia;
      rewrite Z.pow_succ_r by lia; lia].
    apply Z.div_lt_upper_bound; [apply Z.pow_pos_nonneg; lia|].
    rewrite <- Z.pow_add_r by lia.
    eapply Z.lt_le_trans; [exact Hhi|]. apply Z.pow_le_mono_r; lia.
  - rewrite Hsh in * by lia.
    assert (0 < 2 ^ (ez - e1)) by (apply Z.pow_pos_nonneg; lia).
    apply rounded_below; [nia|done|]. intros _.
    eapply Z.lt_le_trans with (2 ^ (Zpos (digits2_pos d)) * 2 ^ (ez - e1)); [nia|].
    rewrite <- Z.pow_add_r by lia. apply Z.pow_le_mono_r; lia.
Qed.

Lemma binary_round_below d ez k :
  Zpos (digits2_pos d) + ez <= k -> -1074 <= k <= 1023 ->
  sf_below (k + 1) (binary_round prec emax false d ez).
Proof.
  intros Hd Hk.
  destruct (binary_round_pos d ez) as (m & Hal & Hsh & Hle & ->).
  by apply rounded_mantissa_below.
Qed.

Lemma binary_round_aux_below p e k :
  e <= fexp64 (Zpos (digits2_pos p) + e) ->
  Zpos (digits2_pos p) + e <= k -> -1074 <= k <= 1023 ->
  sf_below (k + 1) (binary_round_aux prec emax false (Zpos p) e loc_Exact).
Proof.
  intros He Hd Hk.
  destruct (binary_round_aux_aligned p e He) as (m & Hr & Hex & Hle & ->).
  apply rounded_mantissa_below; [done| |done..].
  intros Hge.
  replace (fexp64 (Z.pos (digits2_pos p) + e) - e) with 0 in * by lia.
  replace (e - fexp64 (Z.pos (digits2_pos p) + e)) with 0 by lia.
  rewrite Z.mod_1_r, Z.div_1_r in Hex. rewrite Hex by done. cbn. lia.
Qed.

(** The product of two binary64 mantissas needs no shift to the left
    before it is rounded. *)
Lemma SFmul_aligned mx ex my ey :
  bounded prec emax mx ex = true -> bounded prec emax my ey = true ->
  ex + ey <= fexp64 (Zpos (digits2_pos (mx * my)) + (ex + ey)).
Proof.
  intros (Hcx & Hex & Hdx & _)%bounded_inv (Hcy & Hey & Hdy & _)%bounded_inv.
  assert (Zpos (digits2_pos mx) + Zpos (digits2_pos my) - 2
          < Zpos (digits2_pos (mx * my))).
  { apply digits2_ge. rewrite Pos2Z.inj_mul.
    pose proof (digits2_bounds mx) as [Hx _].
    pose proof (digits2_bounds my) as [Hy _].
    replace (Zpos (digits2_pos mx) + Zpos (digits2_pos my) - 2)
      with ((Zpos (digits2_pos mx) - 1) + (Zpos (digits2_pos my) - 1)) by lia.
    rewrite Z.pow_add_r by lia. nia. }
  unfold fexp64 in *. lia.
Qed.

(** A product of numbers below [2 ^ a] and [2 ^ b] is at most
    [2 ^ (a + b)]. *)
Lemma SFmul_below a b x c :
  sf_below a x -> valid_binary prec emax x = true ->
  sf_below b c -> valid_binary prec emax c = true ->
  -1074 <= a + b <= 1023 ->
  sf_below (a + b + 1) (SFmul prec emax x c).
Proof.
  destruct x as [sx|sx| |[] mx ex]; try done;
    destruct c as [sc|sc| |[] mc ec]; try done.
  cbn [sf_below valid_binary]. intros Hx Hvx Hc Hvc Hk.
  cbn [SFmul xorb].
  apply binary_round_aux_below; [by apply SFmul_aligned| |done].
  pose proof (digits2_mul mx mc). lia.
Qed.

(** A sum of two numbers below [2 ^ a] is at most [2 ^ (a + 1)]. *)
Lemma SFadd_below a x y :
  sf_below a x -> sf_below a y -> -1075 <= a <= 1022 ->
  sf_below (a + 2) (SFadd prec emax x y).
Proof.
  destruct x as [[]|[]| |[] mx ex]; try done;
    destruct y as [[]|[]| |[] my ey]; try done;
    cbn [sf_below SFadd]; try lia.
  intros Hx Hy Hk. cbn [cond_Zopp].
  set (ez := Z.min ex ey).
  pose proof (shl_align_spec mx ex ez) as [_ Hmx].
  pose proof (shl_align_spec my ey ez) as [_ Hmy].
  replace (Z.min ex ez) with ez in Hmx by lia.
  replace (Z.min ey ez) with ez in Hmy by lia.
  set (mx' := fst (shl_align mx ex ez)) in *.
  set (my' := fst (shl_align my ey ez)) in *.
  change (Zpos mx' + Zpos my') with (Zpos (mx' + my')).
  change (binary_normalize prec emax (Zpos (mx' + my')) ez false)
    with (binary_round prec emax false (mx' + my') ez).
  replace (a + 2) with (a + 1 + 1) by lia.
  apply binary_round_below; [|lia].
  pose proof (digits2_shift mx mx' (ex - ez) ltac:(lia) Hmx) as Hdx.
  pose proof (digits2_shift my my' (ey - ez) ltac:(lia) Hmy) as Hdy.
  pose proof (digits2_bounds mx') as [_ Hbx].
  pose proof (digits2_bounds my') as [_ Hby].
  assert (Zpos (digits2_pos (mx' + my')) <= a + 1 - ez); [|lia].
  apply digits2_le. rewrite Pos2Z.inj_add.
  assert (Zpos mx' < 2 ^ (a - ez)).
  { eapply Z.lt_le_trans; [exact Hbx|]. apply Z.pow_le_mono_r; lia. }
  assert (Zpos my' < 2 ^ (a - ez)).
  { eapply Z.lt_le_trans; [exact Hby|]. apply Z.pow_le_mono_r; lia. }
  replace (a + 1 - ez) with (Z.succ (a - ez)) by lia.
  rewrite Z.pow_succ_r; [lia|].
  pose proof (Pos2Z.is_pos (digits2_pos mx)). lia.
Qed.

(** A difference that is positive is no larger than what is taken from. *)
Lemma SFsub_below a mx ex y :
  Zpos (digits2_pos mx) + ex <= a -> sf_nonneg y -> -1074 <= a <= 1023 ->
  SFltb (S754_zero false) (SFsub prec emax (S754_finite false mx ex) y) = true ->
  sf_below (a + 1) (SFsub prec emax (S754_finite false mx ex) y).
Proof.
  intros Hx Hy Hk.
  destruct y as [[]|[]| |[] my ey]; try done; cbn [SFsub sf_below]; try lia.
  cbn [cond_Zopp].
  set (ez := Z.min ex ey).
  pose proof (shl_align_spec mx ex ez) as [_ Hmx].
  replace (Z.min ex ez) with ez in Hmx by lia.
  set (mx' := fst (shl_align mx ex ez)) in *.
  set (my' := fst (shl_align my ey ez)) in *.
  destruct (Z.pos mx' - Z.pos my') as [|d|d] eqn:E; cbn [binary_normalize].
  - by intros _.
  - intros _.
    change (binary_round_aux prec emax false
              (Z.pos (fst (shl_align d ez (fexp prec emax (Z.pos (digits2_pos d) + ez)))))
              (snd (shl_align d ez (fexp prec emax (Z.pos (digits2_pos d) + ez))))
              loc_Exact)
      with (binary_round prec emax false d ez).
    apply binary_round_below; [|done].
    pose proof (digits2_shift mx mx' (ex - ez) ltac:(lia) Hmx) as Hdx.
    assert (Zpos (digits2_pos d) <= Zpos (digits2_pos mx')); [|lia].
    apply digits2_le. pose proof (digits2_bounds mx'). lia.
  - pose proof (binary_round_signed true d ez) as Hs.
    change (binary_round_aux prec emax true
              (Z.pos (fst (shl_align d ez (fexp prec emax (Z.pos (digits2_pos d) + ez)))))
              (snd (shl_align d ez (fexp prec emax (Z.pos (digits2_pos d) + ez))))
              loc_Exact)
      with (binary_round prec emax true d ez).
    by destruct (binary_round prec emax true d ez) as [[]|[]| |[] ? ?].
Qed.

Lemma sf_unit_below y : sf_unit y -> sf_below 1 y.
Proof.
  destruct y as [s|s| |[] m e]; try done. cbn.
  intros [Hm [He|[-> ->]]]; [|done].
  pose proof (digits2_le m 53 Hm). lia.
Qed.
End Binary64Growth.

(** ** The population stays finite *)
Section Binary64Bounds.
Local Open Scope Z_scope.
Import Realtime.

Lemma sf_fin_nonneg_count x : sf_fin_nonneg (Prim2SF x) -> is_count x = true.
Proof.
  unfold is_count.
  rewrite FloatAxioms.leb_spec, FloatAxioms.ltb_spec, Prim2SF_0, Prim2SF_infinity.
  by destruct (Prim2SF x) as [[]|[]| |[] ? ?].
Qed.

Lemma float_below_stage k p : float_below k p -> float_stage p.
Proof.
  intros (H0 & H1 & H2).
  repeat split; eapply sf_fin_nonneg_count, sf_below_fin_nonneg; eassumption.
Qed.

Lemma float_below_mono k k' p : k <= k' -> float_below k p -> float_below k' p.
Proof.
  intros Hk (H0 & H1 & H2). repeat split; by apply (sf_below_mono k k').
Qed.

Lemma quota_survivor_below a (x q : float) :
  sf_below a (Prim2SF x) -> (0 <=? q)%float = true -> -1074 <= a <= 1023 ->
  sf_below (a + 1) (Prim2SF (py_max 0%float (x - q)%float)).
Proof.
  intros Hx Hq%leb_0_nonneg Hk.
  unfold py_max. cbn [gtb float_arith].
  destruct (0 <? x - q)%float eqn:E; [|by rewrite Prim2SF_0].
  rewrite FloatAxioms.ltb_spec, Prim2SF_0 in E.
  rewrite FloatAxioms.sub_spec in E |- *. unfold SF64sub in *.
  destruct (Prim2SF x) as [sx|sx| |[] mx ex]; try done.
  - destruct (Prim2SF q) as [[]|[]| |[] my ey]; try done; by destruct sx.
  - by apply SFsub_below.
Qed.

Lemma rate_survivor_below a (x r : float) :
  sf_below a (Prim2SF x) -> is_rate r = true -> -1075 <= a <= 1022 ->
  sf_below (a + 2) (Prim2SF (x * (1 - r))%float).
Proof.
  intros Hx (Hr & Hrv & Hle)%is_rate_sf Hk.
  assert (Hu : sf_unit (Prim2SF (1 - r)%float)).
  { rewrite FloatAxioms.sub_spec, Prim2SF_1. by apply SFsub_one_unit. }
  rewrite FloatAxioms.mul_spec. unfold SF64mul.
  replace (a + 2) with (a + 1 + 1) by lia.
  apply SFmul_below; [done|apply Prim2SF_valid|by apply sf_unit_below|
                      apply Prim2SF_valid|lia].
Qed.

Lemma survivors_below a mode p (val_j val_s val_a : float) :
  float_below a p -> float_in_range mode val_j val_s val_a -> -1074 <= a <= 1022 ->
  float_below (a + 2) (Harvesting.survivors mode p val_j val_s val_a).
Proof.
  intros (H0 & H1 & H2) Hr Hk.
  unfold Harvesting.survivors, float_in_range, CONSTANT_QUOTA, PROPORTIONAL,
    SELECTIVE in *.
  destruct (String.eqb mode "Constant Quota").
  { destruct Hr as (Hj & Hs & Ha).
    repeat split; apply (sf_below_mono (a + 1)); try lia;
      apply quota_survivor_below; (done || lia). }
  destruct (String.eqb mode "Proportional (Uniform)").
  { destruct Hr as (Hj & _).
    repeat split; apply rate_survivor_below; (done || lia). }
  destruct (String.eqb mode "Selective (Age-Specific)").
  { destruct Hr as (Hj & Hs & Ha).
    repeat split; apply rate_survivor_below; (done || lia). }
  by repeat split.
Qed.

(** A survivor count times one of the vital rates, all of which are
    below 4. *)
Lemma fmul_below a (s c : float) :
  sf_below a (Prim2SF s) -> sf_below 2 (Prim2SF c) -> -1076 <= a <= 1021 ->
  sf_below (a + 3) (Prim2SF (s * c)%float).
Proof.
  intros Hs Hc Hk. rewrite FloatAxioms.mul_spec. unfold SF64mul.
  replace (a + 3) with (a + 2 + 1) by lia.
  apply SFmul_below; [done|apply Prim2SF_valid|done|apply Prim2SF_valid|lia].
Qed.

Lemma fadd_below a (x y : float) :
  sf_below a (Prim2SF x) -> sf_below a (Prim2SF y) -> -1075 <= a <= 1022 ->
  sf_below (a + 2) (Prim2SF (x + y)%float).
Proof.
  intros Hx Hy Hk. rewrite FloatAxioms.add_spec. by apply SFadd_below.
Qed.

Lemma vital_rates_below :
  sf_below 2 (Prim2SF F_J) /\ sf_below 2 (Prim2SF F_S) /\
  sf_below 2 (Prim2SF F_A) /\ sf_below 2 (Prim2SF S_J_to_S) /\
  sf_below 2 (Prim2SF S_S_to_A) /\ sf_below 2 (Prim2SF S_A_surv).
Proof. vm_compute. repeat split; discriminate. Qed.

(** One year multiplies a population by less than [2 ^ 9]. *)
Lemma next_pop_below a mode p (val_j val_s val_a : float) :
  float_below a p -> float_in_range mode val_j val_s val_a -> 0 <= a <= 1014 ->
  float_below (a + 9) (Harvesting.next_pop mode p val_j val_s val_a).
Proof.
  intros Hp Hr Hk.
  destruct (survivors_below a mode p val_j val_s val_a Hp Hr ltac:(lia))
    as (H0 & H1 & H2).
  destruct vital_rates_below as (HFJ & HFS & HFA & HSJ & HSS & HSA).
  unfold Harvesting.next_pop. cbv zeta.
  set (sv := Harvesting.survivors mode p val_j val_s val_a) in *.
  unfold float_below. cbn [ix0 ix1 ix2 add mul float_arith].
  assert (Hm : forall s c : float, sf_below (a + 2) (Prim2SF s) ->
            sf_below 2 (Prim2SF c) -> sf_below (a + 5) (Prim2SF (s * c)%float)).
  { intros s c Hs Hc. replace (a + 5) with (a + 2 + 3) by lia.
    apply fmul_below; (done || lia). }
  split; [|split].
  - replace (a + 9) with (a + 7 + 2) by lia.
    apply fadd_below; [|apply (sf_below_mono (a + 5)); [lia|by apply Hm]|lia].
    replace (a + 7) with (a + 5 + 2) by lia.
    apply fadd_below; [by apply Hm..|lia].
  - apply (sf_below_mono (a + 5)); [lia|by apply Hm].
  - apply (sf_below_mono (a + 7)); [lia|].
    replace (a + 7) with (a + 5 + 2) by lia.
    apply fadd_below; [by apply Hm..|lia].
Qed.

Lemma INITIAL_POP_below : float_below 10 INITIAL_POP.
Proof. vm_compute. repeat split; discriminate. Qed.

Lemma steps_below ks : forall (st : SimulationState float) a,
  Forall float_tick_in_range ks -> float_below a (current_pop st) ->
  0 <= a -> a + 9 * Z.of_nat (length ks) <= 1023 ->
  float_below (a + 9 * Z.of_nat (length ks)) (current_pop (steps st ks)).
Proof.
  induction ks as [|k ks IH]; intros st a Hall Hst Ha Hn.
  - cbn [length steps foldl]. by replace (a + 9 * Z.of_nat 0) with a by lia.
  - apply Forall_cons in Hall as [Hk Hall]. cbn [steps foldl length] in *.
    replace (a + 9 * Z.of_nat (S (length ks)))
      with (a + 9 + 9 * Z.of_nat (length ks)) by lia.
    apply IH; [done| |lia|lia].
    unfold step_tick. rewrite step_current_pop.
    apply next_pop_below; [done..|lia].
Qed.
End Binary64Bounds.

(** ** The entries of the history *)
Section Entries.
Context {num : Type} `{Arith num} `{BioParams num}.
Implicit Types (self st : Realtime.SimulationState num).
Implicit Types (k : Realtime.tick num) (ks : list (Realtime.tick num)).
Import Realtime Monitor.

(** Entry [t] is the population after the first [t] steps. *)
Lemma steps_entry ks self t :
  entry (steps (reset self) ks) t =
  if decide (t <= length ks)%nat
  then Some (t, current_pop (steps (reset self) (take t ks)))
  else None.
Proof.
  destruct (decide (t <= length ks)%nat) as [Hle|Hgt].
  - rewrite <- (take_drop t ks) at 1. rewrite steps_app.
    set (st := steps (reset self) (take t ks)).
    assert (Hlen : length (take t ks) = t) by (rewrite length_take; lia).
    assert (Hal : aligned st) by apply aligned_steps, aligned_reset.
    assert (Hy : year_counter st = t).
    { unfold st. rewrite year_counter_steps. cbn. lia. }
    destruct Hal as (Ht & Hj & Hs & Ha & _). rewrite Hy in *.
    assert (Hlt : length (time st) = S t) by (by rewrite Ht, length_seq).
    destruct (steps_extend (drop t ks) st)
      as (tj & ts & ta & tt & ty & Ej & Es & Ea & _ & Ey).
    pose proof (steps_last_entry (take t ks) self) as Hlast.
    rewrite Hlen in Hlast. fold st in Hlast. rewrite <- Hlast.
    unfold entry. rewrite Ej, Es, Ea, Ey.
    by rewrite !lookup_app_l by lia.
  - assert (Hal : aligned (steps (reset self) ks))
      by apply aligned_steps, aligned_reset.
    destruct Hal as (Ht & _).
    unfold entry. rewrite (lookup_ge_None_2 (time _)); [done|].
    rewrite Ht, length_seq, year_counter_steps. cbn. lia.
Qed.

Lemma steps_entries (P : array3 num -> Prop) ks self :
  (forall t, (t <= length ks)%nat ->
             P (current_pop (steps (reset self) (take t ks)))) ->
  entries P (steps (reset self) ks).
Proof.
  intros HP t y row. rewrite steps_entry.
  destruct (decide (t <= length ks)%nat); [|done].
  intros [= <- <-]. by apply HP.
Qed.

Lemma data_entries (P : array3 num -> Prop) st st' :
  data st = data st' -> entries P st' -> entries P st.
Proof.
  intros Hd HP t y row. rewrite (data_entry _ _ _ Hd). apply HP.
Qed.

(** The ticks that count in a session are ticks of the session. *)
Lemma tracked_forall (P : tick num -> Prop) evs : forall s,
  Forall P (snd s) ->
  Forall (fun e => match e with Animate k => P k | _ => True end) evs ->
  Forall P (snd (foldl track s evs)).
Proof.
  induction evs as [|e evs IH]; intros s Hs Hall; [done|].
  apply Forall_cons in Hall as [He Hall]. cbn [foldl].
  apply IH; [|done].
  destruct e as [k| |]; cbn [track]; [|done|by constructor].
  destruct (fst s); [|done]. cbn [snd].
  apply Forall_app. split; [done|]. by constructor.
Qed.
End Entries.

(** ** The population the monitor and the projection show *)
Section Counts.
Local Open Scope Z_scope.
Import Realtime Monitor.

Lemma trajectory_below (val_j val_s val_a : float) mode (n : nat) :
  float_in_range mode val_j val_s val_a -> (n <= 112)%nat ->
  float_below (10 + 9 * Z.of_nat n) (trajectory val_j val_s val_a mode n).
Proof.
  intros Hr. induction n as [|n IH]; intros Hn.
  - apply INITIAL_POP_below.
  - rewrite trajectory_S.
    replace (10 + 9 * Z.of_nat (S n)) with (10 + 9 * Z.of_nat n + 9) by lia.
    apply next_pop_below; [apply IH; lia|done|lia].
Qed.

Lemma run_simulation_counts (val_j val_s val_a : float) mode :
  float_in_range mode val_j val_s val_a ->
  Forall float_stage (Harvesting.run_simulation val_j val_s val_a mode).
Proof.
  intros Hr. rewrite run_simulation_rows.
  apply Forall_fmap, Forall_forall. intros n Hn%elem_of_seq. cbn.
  apply (float_below_stage (10 + 9 * Z.of_nat n)).
  apply trajectory_below; [done|]. unfold YEARS in Hn. lia.
Qed.

Lemma run_simulation_nonneg (val_j val_s val_a : Q) mode :
  in_range mode val_j val_s val_a ->
  Forall nonneg (Harvesting.run_simulation val_j val_s val_a mode).
Proof.
  intros Hr. rewrite run_simulation_rows.
  apply Forall_fmap, Forall_forall. intros n _. by apply trajectory_nonneg.
Qed.

Lemma steps_counts (ks : list (tick float)) self :
  Forall float_tick_in_range ks -> (length ks <= 112)%nat ->
  entries float_stage (steps (reset self) ks).
Proof.
  intros Hall Hn. apply steps_entries. intros t Ht.
  apply (float_below_stage (10 + 9 * Z.of_nat (length (take t ks)))).
  apply steps_below.
  - by apply Forall_take.
  - apply INITIAL_POP_below.
  - lia.
  - rewrite length_take. lia.
Qed.

Lemma steps_entries_nonneg (ks : list (tick Q)) self :
  Forall tick_in_range ks -> entries nonneg (steps (reset self) ks).
Proof.
  intros Hall. apply steps_entries. intros t _.
  apply steps_nonneg; [by apply Forall_take|apply INITIAL_POP_nonneg].
Qed.

(** X15.  The projection holds counts only.  For harvest parameters in the
    range of the mode, every row of the array [run_simulation] returns has
    three finite, non-negative components in binary64 (no overflow, no
    NaN, within the 50 years), and three non-negative components in exact
    arithmetic. *)
Theorem projection_rows_are_counts (mode : string)
    (fj fs fa : float) (val_j val_s val_a : Q) :
  (float_in_range mode fj fs fa ->
   Forall float_stage (Harvesting.run_simulation fj fs fa mode)) /\
  (in_range mode val_j val_s val_a ->
   Forall nonneg (Harvesting.run_simulation val_j val_s val_a mode)).
Proof.
  split; intros Hr.
  - by apply run_simulation_counts.
  - by apply run_simulation_nonneg.
Qed.

(** X16.  The monitor records counts only, for as long as binary64 can
    hold them.  In a session whose ticks carry in-range harvest
    parameters, whatever the pauses and resets, every entry of the history
    has three finite, non-negative components while [year_counter] is at
    most 112; in exact arithmetic every entry is non-negative at any year.
    The bound on the year is needed: without harvest the juveniles reach
    the infinity in year 2179, and from year 2182 on the population is NaN
    in every stage. *)
Theorem monitor_history_holds_counts
    (fevs : list (event float)) (evs : list (event Q)) :
  (Forall float_event_in_range fevs ->
   (year_counter (run init fevs) <= 112)%nat ->
   entries float_stage (run init fevs)) /\
  (Forall event_in_range evs -> entries nonneg (run init evs)) /\
  (let st := steps init (replicate 2182 (Tick 0 0 0 SELECTIVE))%float in
   entry st 2179%nat
     = Some (2179%nat, Array3 infinity 6.568422984693001e+307
                              7.9166555839585401e+307)%float /\
   current_pop st = Array3 nan nan nan).
Proof.
  split; [|split].
  - intros Hall Hy.
    destruct (run_tracked fevs init) as [_ Hd].
    change (reset init) with (init (num:=float)) in *.
    apply (data_entries _ _ _ Hd). unfold init. apply steps_counts.
    + by apply (tracked_forall float_tick_in_range fevs (false, [])).
    + pose proof (data_fields _ _ Hd) as (_ & Hyc & _).
      rewrite year_counter_steps in Hyc. cbn in Hyc. lia.
  - intros Hall.
    destruct (run_tracked evs init) as [_ Hd].
    change (reset init) with (init (num:=Q)) in *.
    apply (data_entries _ _ _ Hd). unfold init. apply steps_entries_nonneg.
    by apply (tracked_forall tick_in_range evs (false, [])).
  - cbv zeta. unfold init. split.
    + rewrite entry_replicate, lookup_seq_lt by lia.
      cbn [fmap option_fmap option_map plus].
      apply (f_equal (fun p => Some (2179%nat, p))).
      vm_compute. reflexivity.
    + destruct (steps_replicate 0%float 0%float 0%float SELECTIVE
                  {| current_pop := INITIAL_POP; history_j := []; history_s := [];
                     history_a := []; history_tot := []; time := [];
                     is_running := false; year_counter := 0 |} 2182) as [-> _].
      vm_compute. reflexivity.
Qed.
End Counts.

Lemma projection_rows_are_counts_witness :
  Forall float_stage
    (Harvesting.run_simulation 0.1%float 0.2%float 0.3%float SELECTIVE).
Proof.
  apply (projection_rows_are_counts SELECTIVE 0.1%float 0.2%float 0.3%float
           0.1%Q 0.2%Q 0.3%Q).
  repeat split; reflexivity.
Defined.

Lemma monitor_history_holds_counts_witness :
  entries float_stage
    (Monitor.run Realtime.init
       [Monitor.TogglePlay;
        Monitor.Animate (Realtime.Tick 0.1%float 0.2%float 0.3%float SELECTIVE);
        Monitor.Animate (Realtime.Tick 100%float 0%float 50%float CONSTANT_QUOTA)]).
Proof.
  apply (monitor_history_holds_counts
           [Monitor.TogglePlay;
            Monitor.Animate (Realtime.Tick 0.1%float 0.2%float 0.3%float SELECTIVE);
            Monitor.Animate (Realtime.Tick 100%float 0%float 50%float CONSTANT_QUOTA)]
           []).
  - repeat constructor; reflexivity.
  - cbn. lia.
Defined.

(** ** The controls keep the harvest parameters in range *)
Section ControlsInvariant.
Local Open Scope float_scope.
Import Realtime Monitor.

Lemma slider_ok_ends (s : Slider float) :
  slider_ok s -> (valmin s <=? valmax s) = true.
Proof. intros (-> & [-> | ->] & _); reflexivity. Qed.

Lemma initial_controls_ok : controls_ok initial_controls.
Proof.
  unfold controls_ok, slider_ok, float_between, initial_controls, MODES.
  cbn [s1 s2 s3 value_selected val valmin valmax zero one float_arith In].
  repeat split; auto.
Qed.

Lemma slider_ok_zero (s : Slider float) (m : float) :
  slider_ok s -> m = 1 \/ m = limit ->
  slider_ok (set_valmax (set_val s zero) m).
Proof.
  intros (Hmin & _ & _) Hm. unfold slider_ok, float_between, set_valmax, set_val.
  cbn [val valmin valmax zero float_arith]. rewrite Hmin.
  split; [done|]. split; [done|]. split; [reflexivity|].
  by destruct Hm as [-> | ->].
Qed.

Lemma slider_ok_set_zero (s : Slider float) :
  slider_ok s -> slider_ok (set_val s zero).
Proof.
  intros (Hmin & Hmax & _). unfold slider_ok, float_between, set_val.
  cbn [val valmin valmax zero float_arith]. rewrite Hmin.
  split; [done|]. split; [done|]. split; [reflexivity|].
  by destruct Hmax as [-> | ->].
Qed.

(** A click on one of the three radio buttons. *)
Lemma change_mode_ok (label : string) (c : Controls float) :
  In label MODES -> controls_ok c ->
  controls_ok (HarvestingControls.change_mode label
                 {| s1 := s1 c; s2 := s2 c; s3 := s3 c; value_selected := label |}).
Proof.
  intros Hl (H1 & H2 & H3 & _).
  unfold MODES, CONSTANT_QUOTA, PROPORTIONAL, SELECTIVE in Hl.
  cbn [In] in Hl.
  assert (Hz : forall s m, slider_ok s -> m = 1 \/ m = limit ->
            slider_ok (set_valmax (set_val s zero) m))
    by apply slider_ok_zero.
  destruct Hl as [<- | [<- | [<- | []]]];
    unfold HarvestingControls.change_mode, controls_ok, MODES, CONSTANT_QUOTA,
      PROPORTIONAL, SELECTIVE;
    cbn [String.eqb Ascii.eqb Bool.eqb s1 s2 s3 value_selected In].
  - do 3 (split; [apply Hz; [done|by right]|]).
    split; [by left|]. by split.
  - split; [apply Hz; [done|by left]|].
    do 2 (split; [by apply slider_ok_set_zero|]).
    split; [by right; left|]. by split.
  - do 3 (split; [apply Hz; [done|by left]|]).
    split; [by right; right; left|]. by split.
Qed.

Lemma put_slider_ok (c : Controls float) (i : slot) (s : Slider float) :
  controls_ok c -> slider_ok s -> valmax s = valmax (get_slider c i) ->
  controls_ok (put_slider c i s).
Proof.
  intros (H1 & H2 & H3 & Hm & Hp & Hs) Hok Hmax.
  destruct i; unfold controls_ok, put_slider;
    cbn [s1 s2 s3 value_selected get_slider] in *; rewrite ?Hmax;
    do 5 (split; [done|]); done.
Qed.

Lemma harvesting_submit_ok (parsed : outcome float) (s : Slider float) :
  match parsed with Returns v => is_nan v = false | Raises _ => True end ->
  slider_ok s ->
  slider_ok (HarvestingControls.submit_text false parsed s) /\
  valmax (HarvestingControls.submit_text false parsed s) = valmax s.
Proof.
  intros Hv Hok. destruct parsed as [v|exc]; [|by split].
  pose proof (harvesting_clamp_between s v Hv (slider_ok_ends s Hok)) as Hb.
  destruct Hok as (Hmin & Hmax & _).
  split; [|reflexivity]. split; [exact Hmin|]. split; [exact Hmax|exact Hb].
Qed.

Lemma realtime_submit_ok (parsed : outcome float) (s : Slider float) :
  slider_ok s ->
  slider_ok (RealtimeControls.submit_text false parsed s) /\
  valmax (RealtimeControls.submit_text false parsed s) = valmax s.
Proof.
  intros Hok. destruct parsed as [v|exc]; [|by split].
  pose proof (realtime_clamp_between s v (slider_ok_ends s Hok)) as Hb.
  destruct Hok as (Hmin & Hmax & _).
  split; [|reflexivity]. split; [exact Hmin|]. split; [exact Hmax|exact Hb].
Qed.

Lemma get_slider_ok (c : Controls float) (i : slot) :
  controls_ok c -> slider_ok (get_slider c i).
Proof. intros (H1 & H2 & H3 & _). by destruct i. Qed.

Lemma harvesting_act_ok (c : Controls float) (a : action float) :
  label_ok a -> number_ok a -> controls_ok c ->
  controls_ok (HarvestingControls.act c a).
Proof.
  intros Hl Hn Hc. destruct a as [i parsed|label]; cbn [HarvestingControls.act].
  - destruct (harvesting_submit_ok parsed (get_slider c i)) as [Hs Hm].
    + by destruct parsed.
    + by apply get_slider_ok.
    + by apply put_slider_ok.
  - by apply change_mode_ok.
Qed.

Lemma realtime_act_ok (c : Controls float) (a : action float) :
  label_ok a -> controls_ok c -> controls_ok (RealtimeControls.act c a).
Proof.
  intros Hl Hc. destruct a as [i parsed|label]; cbn [RealtimeControls.act].
  - destruct (realtime_submit_ok parsed (get_slider c i)) as [Hs Hm].
    + by apply get_slider_ok.
    + by apply put_slider_ok.
  - by apply change_mode_ok.
Qed.

Lemma harvesting_session_ok (acts : list (action float)) :
  Forall label_ok acts -> Forall number_ok acts ->
  controls_ok (HarvestingControls.session acts).
Proof.
  unfold HarvestingControls.session.
  induction acts as [|a acts IH] using rev_ind; intros Hl Hn.
  - apply initial_controls_ok.
  - apply Forall_app in Hl as [Hl Ha%Forall_inv].
    apply Forall_app in Hn as [Hn Hb%Forall_inv].
    rewrite foldl_app. cbn [foldl]. apply harvesting_act_ok; [done|done|by apply IH].
Qed.

Lemma realtime_session_ok (acts : list (action float)) :
  Forall label_ok acts -> controls_ok (RealtimeControls.session acts).
Proof.
  unfold RealtimeControls.session.
  induction acts as [|a acts IH] using rev_ind; intros Hl.
  - apply initial_controls_ok.
  - apply Forall_app in Hl as [Hl Ha%Forall_inv].
    rewrite foldl_app. cbn [foldl]. apply realtime_act_ok; [done|by apply IH].
Qed.

Lemma slider_ok_nonneg (s : Slider float) : slider_ok s -> (0 <=? val s) = true.
Proof. intros (Hmin & _ & Hlo & _). by rewrite Hmin in Hlo. Qed.

Lemma slider_ok_rate (s : Slider float) :
  slider_ok s -> valmax s = 1 -> is_rate (val s) = true.
Proof.
  intros (Hmin & _ & Hlo & Hhi) Hmax. rewrite Hmin in Hlo. rewrite Hmax in Hhi.
  unfold is_rate. by rewrite Hlo, Hhi.
Qed.

(** What the engine is called with, read off the controls, is a call with
    parameters in the range of the mode. *)
Lemma controls_tick (c : Controls float) :
  controls_ok c ->
  exists k : tick float,
    float_tick_in_range k /\
    (forall st, step st (val (s1 c)) (val (s2 c)) (val (s3 c)) (value_selected c)
                = step_tick st k) /\
    HarvestingControls.update_simulation c
    = Harvesting.run_simulation (tick_j k) (tick_s k) (tick_a k) (tick_mode k).
Proof.
  intros (H1 & H2 & H3 & Hm & Hp & Hs).
  unfold MODES in Hm. cbn [In] in Hm.
  destruct Hm as [Hq | [Hu | [Hv | []]]].
  - exists (Tick (val (s1 c)) (val (s2 c)) (val (s3 c)) (value_selected c)).
    split; [|by split].
    unfold float_tick_in_range, float_in_range. cbn [tick_mode tick_j tick_s tick_a].
    rewrite <- Hq. cbn [String.eqb Ascii.eqb Bool.eqb CONSTANT_QUOTA].
    repeat split; by apply slider_ok_nonneg.
  - exists (Tick (val (s1 c)) (val (s1 c)) (val (s1 c)) (value_selected c)).
    specialize (Hp (eq_sym Hu)).
    split; [|split].
    + unfold float_tick_in_range, float_in_range.
      cbn [tick_mode tick_j tick_s tick_a].
      rewrite <- Hu. cbn [String.eqb Ascii.eqb Bool.eqb CONSTANT_QUOTA PROPORTIONAL].
      repeat split; by apply slider_ok_rate.
    + intros st. by rewrite <- Hu.
    + unfold HarvestingControls.update_simulation.
      cbn [tick_mode tick_j tick_s tick_a]. rewrite <- Hu.
      rewrite !run_simulation_rows.
      apply list_fmap_ext. intros _ n _. apply trajectory_slot0.
  - exists (Tick (val (s1 c)) (val (s2 c)) (val (s3 c)) (value_selected c)).
    destruct (Hs (eq_sym Hv)) as (M1 & M2 & M3).
    split; [|by split].
    unfold float_tick_in_range, float_in_range. cbn [tick_mode tick_j tick_s tick_a].
    rewrite <- Hv.
    cbn [String.eqb Ascii.eqb Bool.eqb CONSTANT_QUOTA PROPORTIONAL SELECTIVE].
    repeat split; by apply slider_ok_rate.
Qed.
End ControlsInvariant.

(** ** The two windows, from the controls to the plot *)
Section Windows.
Local Open Scope float_scope.
Import Realtime Monitor.

(** X17.  In [harvesting.py] the sliders stay within their bounds as long
    as no NaN is typed.  After any sequence of text submissions (parsing
    or not, but no NaN) and clicks on the radio buttons, every slider
    starts at 0, ends at 1 or 800 and holds a value between its ends, the
    sliders a rate mode reads end at 1, and a click leaves the three
    values at 0. *)
Theorem harvesting_controls_stay_in_bounds (acts : list (action float))
    (label : string) :
  Forall label_ok acts -> Forall number_ok acts ->
  controls_ok (HarvestingControls.session acts) /\
  let c := HarvestingControls.session (acts ++ [Click label]) in
  val (s1 c) = 0 /\ val (s2 c) = 0 /\ val (s3 c) = 0 /\ value_selected c = label.
Proof.
  intros Hl Hn. split; [by apply harvesting_session_ok|].
  cbv zeta. unfold HarvestingControls.session. rewrite foldl_app.
  cbn [foldl HarvestingControls.act]. unfold HarvestingControls.change_mode.
  cbn [s1 s2 s3 value_selected].
  by repeat (destruct (String.eqb label _)).
Qed.

(** X18.  In [realtime_simulation.py] the sliders stay within their bounds
    whatever is typed.  After any sequence of text submissions and clicks
    on the radio buttons, every slider starts at 0, ends at 1 or 800 and
    holds a value between its ends, and the sliders a rate mode reads end
    at 1.  A switch from Constant Quota to Proportional leaves the ends of
    the two inactive sliders at 800. *)
Theorem realtime_controls_stay_in_bounds (acts : list (action float)) :
  Forall label_ok acts ->
  controls_ok (RealtimeControls.session acts) /\
  let c := RealtimeControls.session
             (acts ++ [Click CONSTANT_QUOTA; Click PROPORTIONAL]) in
  valmax (s1 c) = 1 /\ valmax (s2 c) = limit /\ valmax (s3 c) = limit.
Proof.
  intros Hl. split; [by apply realtime_session_ok|].
  cbv zeta. unfold RealtimeControls.session. rewrite foldl_app.
  done.
Qed.





Lemma window_invariant (inputs : list (RealtimeControls.input float)) :
  Forall input_ok inputs ->
  let w := RealtimeControls.window inputs in
  controls_ok (fst w) /\
  exists ks, Forall float_tick_in_range ks /\
             data (snd w) = data (steps init ks).
Proof.
  unfold RealtimeControls.window. cbv zeta.
  induction inputs as [|i inputs IH] using rev_ind; intros Hall.
  - split; [apply initial_controls_ok|]. by exists [].
  - apply Forall_app in Hall as [Hall Hi%Forall_inv].
    destruct (IH Hall) as (Hc & ks & Hks & Hd).
    rewrite foldl_app. cbn [foldl].
    set (w := foldl RealtimeControls.deliver (initial_controls, init) inputs) in *.
    destruct i as [a| | |]; cbn [RealtimeControls.deliver fst snd].
    + split; [by apply realtime_act_ok|]. by exists ks.
    + split; [done|].
      unfold RealtimeControls.animate_with, animate.
      destruct (is_running (snd w)); cbn [negb]; [|by exists ks].
      destruct (controls_tick _ Hc) as (k & Hk & -> & _).
      exists (ks ++ [k]). split.
      * apply Forall_app. split; [done|]. by constructor.
      * rewrite steps_snoc. by apply data_step.
    + split; [done|]. by exists ks.
    + split; [done|]. by exists [].
Qed.

(** X20.  From the controls to the history of [realtime_simulation.py].
    Text submissions (a NaN included), clicks on the radio buttons,
    Play/Pause, Reset and ticks of the timer, delivered in any order from
    program start, leave the sliders within their bounds and, while
    [year_counter] is at most 112, a history of finite, non-negative
    numbers only. *)
Theorem realtime_window_shows_counts
    (inputs : list (RealtimeControls.input float)) :
  Forall input_ok inputs ->
  let w := RealtimeControls.window inputs in
  controls_ok (fst w) /\
  ((year_counter (snd w) <= 112)%nat -> entries float_stage (snd w)).
Proof.
  intros Hall. cbv zeta.
  destruct (window_invariant inputs Hall) as (Hc & ks & Hks & Hd).
  split; [done|]. intros Hy.
  apply (data_entries _ _ _ Hd). unfold init. apply steps_counts; [done|].
  pose proof (data_fields _ _ Hd) as (_ & Hyc & _).
  rewrite year_counter_steps in Hyc. cbn in Hyc. lia.
Qed.
End Windows.

Lemma harvesting_controls_stay_in_bounds_witness :
  controls_ok
    (HarvestingControls.session
       [Submit Slot1 (Returns 7.5%float); Click CONSTANT_QUOTA;
        Submit Slot2 (Returns 1200%float); Submit Slot3 (Raises "ValueError")]).
Proof.
  apply (harvesting_controls_stay_in_bounds
           [Submit Slot1 (Returns 7.5%float); Click CONSTANT_QUOTA;
            Submit Slot2 (Returns 1200%float); Submit Slot3 (Raises "ValueError")]
           PROPORTIONAL).
  - repeat (constructor; [cbn; auto|]); constructor.
  - repeat (constructor; [cbn; auto|]); constructor.
Defined.

Lemma realtime_controls_stay_in_bounds_witness :
  controls_ok
    (RealtimeControls.session
       [Submit Slot1 (Returns nan); Click PROPORTIONAL;
        Submit Slot2 (Returns (-3)%float)]).
Proof.
  apply (realtime_controls_stay_in_bounds
           [Submit Slot1 (Returns nan); Click PROPORTIONAL;
            Submit Slot2 (Returns (-3)%float)]).
  repeat (constructor; [cbn; auto|]); constructor.
Defined.


Lemma realtime_window_shows_counts_witness :
  entries float_stage
    (snd (RealtimeControls.window
            [RealtimeControls.PlayPause; RealtimeControls.Timer;
             RealtimeControls.Control (Submit Slot1 (Returns nan));
             RealtimeControls.Control (Click CONSTANT_QUOTA);
             RealtimeControls.Control (Submit Slot3 (Returns 1e9%float));
             RealtimeControls.Timer])).
Proof.
  apply (realtime_window_shows_counts
           [RealtimeControls.PlayPause; RealtimeControls.Timer;
            RealtimeControls.Control (Submit Slot1 (Returns nan));
            RealtimeControls.Control (Click CONSTANT_QUOTA);
            RealtimeControls.Control (Submit Slot3 (Returns 1e9%float));
            RealtimeControls.Timer]).
  - repeat (constructor; [cbn; auto|]); constructor.
  - cbn. lia.
Defined.

(** ** A quota that takes a whole stage *)
Section OverHarvest.
Local Open Scope Z_scope.
Import Realtime.

(** Of two positive binary64 numbers that compare [<=], the first has the
    smaller mantissa once both are written at the smaller exponent. *)
Lemma SFcompare_aligned mx ex my ey :
  bounded prec emax mx ex = true -> bounded prec emax my ey = true ->
  SFleb (S754_finite false mx ex) (S754_finite false my ey) = true ->
  Zpos mx * 2 ^ (ex - Z.min ex ey) <= Zpos my * 2 ^ (ey - Z.min ex ey).
Proof.
  intros (Hcx & Hex & Hdx & Hmx)%bounded_inv (Hcy & Hey & Hdy & Hmy)%bounded_inv.
  unfold SFleb. cbn [SFcompare].
  destruct (Z.compare_spec ex ey) as [->|Hlt|Hgt].
  - rewrite Z.min_id, Z.sub_diag, !Z.mul_1_r.
    rewrite Pos.compare_cont_spec. cbn [Pos.switch_Eq].
    destruct (Pos.compare_spec mx my); try done; lia.
  - intros _. replace (Z.min ex ey) with ex by lia.
    rewrite Z.sub_diag, Z.mul_1_r.
    assert (Hn : Zpos (digits2_pos my) = 53) by (unfold fexp64 in Hcy; lia).
    pose proof (digits2_bounds my) as [Hlo _]. rewrite Hn in Hlo.
    change (53 - 1) with 52 in Hlo.
    assert (2 ^ 1 <= 2 ^ (ey - ex)) by (apply Z.pow_le_mono_r; lia).
    change (2 ^ 1) with 2 in *. change (2 ^ 53) with (2 ^ 52 * 2) in Hmx. nia.
  - done.
Qed.

(** The difference of a count and a number that is at least as large is
    not positive. *)
Lemma SFsub_le_not_pos x q :
  sf_fin_nonneg x -> valid_binary prec emax x = true ->
  valid_binary prec emax q = true -> SFleb x q = true ->
  SFltb (S754_zero false) (SFsub prec emax x q) = false.
Proof.
  destruct x as [sx|sx| |[] mx ex]; try done;
    destruct q as [[]|[]| |[] my ey]; try done; try (by destruct sx).
  cbn [valid_binary]. intros _ Hvx Hvq Hle.
  pose proof (SFcompare_aligned mx ex my ey Hvx Hvq Hle) as Hal.
  cbn [SFsub cond_Zopp].
  set (ez := Z.min ex ey) in *.
  pose proof (shl_align_spec mx ex ez) as [_ Hx].
  pose proof (shl_align_spec my ey ez) as [_ Hy].
  replace (Z.min ex ez) with ez in Hx by lia.
  replace (Z.min ey ez) with ez in Hy by lia.
  set (mx' := fst (shl_align mx ex ez)) in *.
  set (my' := fst (shl_align my ey ez)) in *.
  destruct (Z.pos mx' - Z.pos my') as [|d|d] eqn:E; cbn [binary_normalize].
  - done.
  - lia.
  - pose proof (binary_round_signed true d ez) as Hs.
    change (binary_round_aux prec emax true
              (Z.pos (fst (shl_align d ez (fexp prec emax (Z.pos (digits2_pos d) + ez)))))
              (snd (shl_align d ez (fexp prec emax (Z.pos (digits2_pos d) + ez))))
              loc_Exact)
      with (binary_round prec emax true d ez).
    by destruct (binary_round prec emax true d ez) as [[]|[]| |[] ? ?].
Qed.

Lemma quota_exhausts (x q : float) :
  is_count x = true -> (x <=? q)%float = true ->
  py_max 0%float (x - q)%float = 0%float.
Proof.
  intros [Hx Hv]%is_count_sf Hle.
  unfold py_max. cbn [gtb float_arith].
  rewrite FloatAxioms.leb_spec in Hle.
  rewrite FloatAxioms.ltb_spec, FloatAxioms.sub_spec, Prim2SF_0.
  unfold SF64sub.
  by rewrite (SFsub_le_not_pos _ _ Hx Hv (Prim2SF_valid q) Hle).
Qed.

Lemma quota_exhausts_exact (x q : Q) : (x <= q)%Q -> py_max 0%Q (x - q)%Q = 0%Q.
Proof.
  intros Hle. unfold py_max. cbn [gtb Q_arith].
  assert (Qle_bool (x - q) 0 = true) as -> by (apply Qle_bool_iff; lra).
  done.
Qed.
End OverHarvest.

(** ** The order of binary64 numbers is transitive *)
Section Binary64Transitive.
Local Open Scope Z_scope.

Lemma SFleb_finite (s1 s2 : bool) m1 e1 m2 e2 :
  SFleb (S754_finite s1 m1 e1) (S754_finite s2 m2 e2) = true <->
  match s1, s2 with
  | true, false => True
  | false, true => False
  | false, false => e1 < e2 \/ (e1 = e2 /\ Zpos m1 <= Zpos m2)
  | true, true => e2 < e1 \/ (e1 = e2 /\ Zpos m2 <= Zpos m1)
  end.
Proof.
  unfold SFleb. cbn [SFcompare]. rewrite Pos.compare_cont_spec. cbn [Pos.switch_Eq].
  destruct s1, s2; try done;
    destruct (Z.compare_spec e1 e2); destruct (Pos.compare_spec m1 m2);
    cbn [CompOpp]; split; try done; try lia; intros _; lia.
Qed.

Lemma SFleb_trans a b c :
  SFleb a b = true -> SFleb b c = true -> SFleb a c = true.
Proof.
  destruct a as [sa|sa| |sa ma ea], b as [sb|sb| |sb mb eb],
    c as [sc|sc| |sc mc ec]; try done;
    try (by destruct sa, sb, sc); try (by destruct sa, sb);
    try (by destruct sb, sc); try (by destruct sa, sc);
    try (by destruct sa); try (by destruct sb); try (by destruct sc).
  rewrite !SFleb_finite. destruct sa, sb, sc; try done; lia.
Qed.
End Binary64Transitive.

Section Binary64OrderLaws.
Local Open Scope float_scope.

Lemma leb_trans a b c : (a <=? b) = true -> (b <=? c) = true -> (a <=? c) = true.
Proof. rewrite !FloatAxioms.leb_spec. apply SFleb_trans. Qed.

Lemma eqb_sym a b : (a =? b) = (b =? a).
Proof.
  rewrite !FloatAxioms.eqb_spec. unfold SFeqb.
  rewrite (SFcompare_antisym (Prim2SF a) (Prim2SF b)).
  by destruct (SFcompare (Prim2SF a) (Prim2SF b)) as [[]|].
Qed.

Lemma eqb_refl x : is_nan x = false -> (x =? x) = true.
Proof. unfold is_nan. by intros ->%negb_false_iff. Qed.
End Binary64OrderLaws.

(** ** Harvests compared *)
Section HarvestOrder.
Local Open Scope Q_scope.
Import Realtime.
Implicit Types (p : array3 Q).

Lemma survivors_mono mode p p' (v1 v2 v3 w1 w2 w3 : Q) :
  nonneg p' -> pop_le p' p ->
  in_range mode v1 v2 v3 -> in_range mode w1 w2 w3 ->
  v1 <= w1 -> v2 <= w2 -> v3 <= w3 ->
  pop_le (Harvesting.survivors mode p' w1 w2 w3)
         (Harvesting.survivors mode p v1 v2 v3).
Proof.
  intros (N0 & N1 & N2) (L0 & L1 & L2) Hv Hw H1 H2 H3.
  assert (Hq : forall x x' v w, x' <= x -> v <= w ->
            py_max 0 (x' - w) <= py_max 0 (x - v)).
  { intros x x' v w Hx Hvw. rewrite !py_max_Qmax.
    apply Q.max_lub; [apply Q.le_max_l|].
    apply Qle_trans with (x - v); [lra|apply Q.le_max_r]. }
  assert (Hm : forall x x' v w, 0 <= x' -> x' <= x -> v <= w -> w <= 1 ->
            x' * (1 - w) <= x * (1 - v)).
  { intros x x' v w Hx' Hx Hvw Hw1.
    apply Qle_trans with (x' * (1 - v)).
    - rewrite !(Qmult_comm x'). apply Qmult_le_compat_r; lra.
    - apply Qmult_le_compat_r; lra. }
  unfold Harvesting.survivors, in_range, CONSTANT_QUOTA, PROPORTIONAL, SELECTIVE in *.
  destruct (String.eqb mode "Constant Quota").
  { repeat split; by apply Hq. }
  destruct (String.eqb mode "Proportional (Uniform)").
  { destruct Hw as ((_ & Hw1) & _). unfold pop_le; cbn.
    repeat split; by apply Hm. }
  destruct (String.eqb mode "Selective (Age-Specific)").
  { destruct Hw as ((_ & Hw1) & (_ & Hw2) & (_ & Hw3)). unfold pop_le; cbn.
    repeat split; by apply Hm. }
  unfold pop_le; cbn. lra.
Qed.

Lemma next_pop_mono mode p p' (v1 v2 v3 w1 w2 w3 : Q) :
  nonneg p' -> pop_le p' p ->
  in_range mode v1 v2 v3 -> in_range mode w1 w2 w3 ->
  v1 <= w1 -> v2 <= w2 -> v3 <= w3 ->
  pop_le (Harvesting.next_pop mode p' w1 w2 w3)
         (Harvesting.next_pop mode p v1 v2 v3).
Proof.
  intros. rewrite !next_pop_progression.
  by apply progression_mono, survivors_mono.
Qed.

Lemma pop_le_refl p : pop_le p p.
Proof. unfold pop_le. repeat split; apply Qle_refl. Qed.

Lemma trajectory_mono mode (v1 v2 v3 w1 w2 w3 : Q) n :
  in_range mode v1 v2 v3 -> in_range mode w1 w2 w3 ->
  v1 <= w1 -> v2 <= w2 -> v3 <= w3 ->
  pop_le (trajectory w1 w2 w3 mode n) (trajectory v1 v2 v3 mode n).
Proof.
  intros Hv Hw H1 H2 H3. induction n as [|n IH]; [apply pop_le_refl|].
  rewrite !trajectory_S. apply next_pop_mono; try done.
  by apply trajectory_nonneg.
Qed.
End HarvestOrder.

Section Harvests.
Import Realtime.

(** X21.  A quota at least as large as a stage's count leaves no survivor
    in that stage, and quotas that cover the three stages empty the
    population in one transition.  In binary64, for finite non-negative
    counts, the survivor and the next vector are exactly 0; in exact
    arithmetic the survivor is 0 and the next vector is [== 0]. *)
Theorem quota_at_least_stock_leaves_none
    (fself : SimulationState float) (fj fs fa : float)
    (self : SimulationState Q) (val_j val_s val_a : Q) :
  (float_stage (current_pop fself) ->
   let sv := Realtime.survivors CONSTANT_QUOTA (current_pop fself) fj fs fa in
   ((ix0 (current_pop fself) <=? fj)%float = true -> ix0 sv = 0%float) /\
   ((ix1 (current_pop fself) <=? fs)%float = true -> ix1 sv = 0%float) /\
   ((ix2 (current_pop fself) <=? fa)%float = true -> ix2 sv = 0%float) /\
   ((ix0 (current_pop fself) <=? fj)%float = true ->
    (ix1 (current_pop fself) <=? fs)%float = true ->
    (ix2 (current_pop fself) <=? fa)%float = true ->
    current_pop (step fself fj fs fa CONSTANT_QUOTA) = Array3 0 0 0 /\
    Harvesting.next_pop CONSTANT_QUOTA (current_pop fself) fj fs fa
    = Array3 0 0 0)%float) /\
  (let sv := Realtime.survivors CONSTANT_QUOTA (current_pop self)
                                val_j val_s val_a in
   (ix0 (current_pop self) <= val_j -> ix0 sv = 0) /\
   (ix1 (current_pop self) <= val_s -> ix1 sv = 0) /\
   (ix2 (current_pop self) <= val_a -> ix2 sv = 0) /\
   (ix0 (current_pop self) <= val_j -> ix1 (current_pop self) <= val_s ->
    ix2 (current_pop self) <= val_a ->
    extinct (current_pop (step self val_j val_s val_a CONSTANT_QUOTA)) /\
    extinct (Harvesting.next_pop CONSTANT_QUOTA (current_pop self)
                                 val_j val_s val_a)))%Q.
Proof.
  split.
  - intros (C0 & C1 & C2). cbv zeta.
    cbn [Realtime.survivors CONSTANT_QUOTA String.eqb Ascii.eqb Bool.eqb
         ix0 ix1 ix2 zero sub float_arith].
    split; [by apply quota_exhausts|]. split; [by apply quota_exhausts|].
    split; [by apply quota_exhausts|].
    intros H0 H1 H2. rewrite step_current_pop.
    unfold Harvesting.next_pop. cbv zeta.
    cbn [Harvesting.survivors CONSTANT_QUOTA String.eqb Ascii.eqb Bool.eqb
         ix0 ix1 ix2 zero sub float_arith].
    rewrite !quota_exhausts by done. split; reflexivity.
  - cbv zeta.
    cbn [Realtime.survivors CONSTANT_QUOTA String.eqb Ascii.eqb Bool.eqb
         ix0 ix1 ix2 zero sub Q_arith].
    split; [by apply quota_exhausts_exact|].
    split; [by apply quota_exhausts_exact|].
    split; [by apply quota_exhausts_exact|].
    intros H0 H1 H2. rewrite step_current_pop.
    unfold Harvesting.next_pop. cbv zeta.
    cbn [Harvesting.survivors CONSTANT_QUOTA String.eqb Ascii.eqb Bool.eqb
         ix0 ix1 ix2 zero sub Q_arith].
    rewrite !quota_exhausts_exact by done.
    split; unfold extinct, same_pop; cbn; repeat split; ring.
Qed.

(** X22.  Harvesting more never gives a larger population.  In exact
    arithmetic, for two triples of harvest parameters in the range of the
    mode, the second at least the first slot by slot: one transition from
    a smaller (non-negative) population with the larger harvest gives a
    population that is smaller stage by stage, and every row of
    [run_simulation] for the larger harvest is at most the row for the
    smaller one at the same year. *)
Theorem more_harvest_smaller_population (mode : string)
    (self self' : SimulationState Q) (v1 v2 v3 w1 w2 w3 : Q) :
  in_range mode v1 v2 v3 -> in_range mode w1 w2 w3 ->
  (v1 <= w1 -> v2 <= w2 -> v3 <= w3 ->
   (nonneg (current_pop self') ->
    pop_le (current_pop self') (current_pop self) ->
    pop_le (current_pop (step self' w1 w2 w3 mode))
           (current_pop (step self v1 v2 v3 mode))) /\
   Forall2 pop_le (Harvesting.run_simulation w1 w2 w3 mode)
                  (Harvesting.run_simulation v1 v2 v3 mode))%Q.
Proof.
  intros Hv Hw H1 H2 H3. split.
  - intros Hn Hle. rewrite !step_current_pop. by apply next_pop_mono.
  - rewrite !run_simulation_rows. apply Forall2_fmap, Forall_Forall2_diag.
    apply Forall_forall. intros n _. by apply trajectory_mono.
Qed.
End Harvests.

Section TextBoxesCompared.
Local Open Scope float_scope.

(** X23.  The two [submit_text] functions agree on numbers.  For a parsed
    number that is no NaN and a slider with [valmin <= valmax], the value
    [harvesting.py] stores and the value [realtime_simulation.py] stores
    compare [==], and both keep the bounds; they need not be the same
    binary64 number: for the text "-0.0" on a slider from 0 to 1 the first
    stores [-0.0] and the second [0.0]. *)
Theorem submit_text_scripts_agree (slider : Slider float) (v : float) :
  is_nan v = false -> (valmin slider <=? valmax slider) = true ->
  let h := HarvestingControls.submit_text false (Returns v) slider in
  let r := RealtimeControls.submit_text false (Returns v) slider in
  (val h =? val r) = true /\ valmin h = valmin r /\ valmax h = valmax r /\
  (let s01 := {| val := 0; valmin := 0; valmax := 1 |} in
   val (HarvestingControls.submit_text false (Returns (-0)) s01) = (-0) /\
   val (RealtimeControls.submit_text false (Returns (-0)) s01) = 0).
Proof.
  intros Hv Hb. cbv zeta.
  destruct (leb_not_nan _ _ Hb) as [Hlo Hhi].
  split; [|by repeat split].
  unfold HarvestingControls.submit_text, RealtimeControls.submit_text, set_val,
    py_max, py_min.
  cbn [val valmin valmax gtb float_arith].
  destruct (v <? valmin slider) eqn:E1.
  - rewrite (leb_not_ltb _ _ Hb).
    assert (Hle : (v <=? valmax slider) = true)
      by (eapply leb_trans; [by apply ltb_leb|done]).
    rewrite (leb_not_ltb _ _ Hle).
    rewrite (leb_not_ltb _ _ (ltb_leb _ _ E1)).
    by apply eqb_refl.
  - destruct (valmax slider <? v) eqn:E2.
    + destruct (valmin slider <? valmax slider) eqn:E3; [by apply eqb_refl|].
      rewrite eqb_sym. by apply leb_not_ltb_eqb.
    + destruct (valmin slider <? v) eqn:E3; [by apply eqb_refl|].
      rewrite eqb_sym. apply leb_not_ltb_eqb; [|done].
      by apply not_ltb_leb.
Qed.
End TextBoxesCompared.

Lemma quota_at_least_stock_leaves_none_witness :
  (Realtime.current_pop
     (Realtime.step Realtime.init 1000 800 200.5 CONSTANT_QUOTA)
   = Array3 0 0 0)%float.
Proof.
  apply (quota_at_least_stock_leaves_none
           Realtime.init 1000%float 800%float 200.5%float
           Realtime.init 1000%Q 800%Q 200.5%Q).
  - repeat split; reflexivity.
  - reflexivity.
  - reflexivity.
  - reflexivity.
Defined.

Lemma more_harvest_smaller_population_witness :
  Forall2 pop_le (Harvesting.run_simulation 0.2 0.2 0.5 SELECTIVE)%Q
                 (Harvesting.run_simulation 0.1 0.2 0.3 SELECTIVE)%Q.
Proof.
  apply (more_harvest_smaller_population SELECTIVE Realtime.init Realtime.init
           0.1%Q 0.2%Q 0.3%Q 0.2%Q 0.2%Q 0.5%Q).
  - unfold in_range; cbn. lra.
  - unfold in_range; cbn. lra.
  - lra.
  - lra.
  - lra.
Defined.

Lemma submit_text_scripts_agree_witness :
  let slider := {| val := 0; valmin := 0; valmax := 800 |}%float in
  (val (HarvestingControls.submit_text false (Returns 1e3) slider)
   =? val (RealtimeControls.submit_text false (Returns 1e3) slider))%float = true.
Proof.
  apply (submit_text_scripts_agree
           {| val := 0; valmin := 0; valmax := 800 |}%float 1e3%float);
    reflexivity.
Defined.
